(** * Local Job Connect: geo-filtered job matching and funnel analytics

    A shallow embedding of [backend/app.py]: the geocoder, the distance
    helpers, the job search, the job-posting life cycle and the employer
    analytics, followed by the properties of the specification that each of
    them meets (or misses).

    Conventions of the embedding.
    - Python numbers are rationals.  An [int] is the rational it denotes; a
      [float] is the rational value of the binary64 number, and every float
      operation rounds its exact result to the nearest binary64 value, ties
      to even ([PyNum.fl]).  The exponent range, NaN and the infinities are
      not represented: the quantities of this program (rates between 0 and
      100, day counts, kilometres) stay far inside the normal range.
    - Code that can raise runs in the [result] monad; [try_except] is the
      [try: ... except Exception: ...] statement.
    - What the program asks of the outside world is a parameter of the
      model: the HTTP client ([requests_get]), the process environment
      ([getenv]), the parsing of a decimal literal ([py_float]), the
      geodesic distance of geopy ([geodesic_km]), the [ILIKE] operator of the
      SQL engine ([ilike]) and werkzeug's password hash.
    - A table is the list of its rows in the order in which [query.all()]
      yields them. *)

From Stdlib Require Import ZArith QArith Qround Qpower Qabs.
From Stdlib Require Import List String Ascii Bool Lia Lqa.
From Stdlib Require Import Permutation Sorted.
From Stdlib Require Import DecimalString.
Import ListNotations.

Set Implicit Arguments.
Set Warnings "-register-all".

(* ================================================================== *)
(** * Python numbers *)
(* ================================================================== *)

Module PyNum.

Local Open Scope Q_scope.

(** Nearest integer, ties to the even one. *)
Definition round_half_even (q : Q) : Z :=
  let n := Qnum q in
  let d := Zpos (Qden q) in
  let f := (n / d)%Z in
  match (2 * (n mod d) ?= d)%Z with
  | Lt => f
  | Gt => (f + 1)%Z
  | Eq => if Z.even f then f else (f + 1)%Z
  end.

(** [ilog2 q] is the integer [e] with [2^e <= q < 2^(e+1)], for [0 < q]. *)
Definition ilog2 (q : Q) : Z :=
  let s := (Z.log2 (Qnum q) - Z.log2 (Zpos (Qden q)))%Z in
  if Qle_bool (2 ^ s) q then s else (s - 1)%Z.

(** Rounding of a positive rational to a 53-bit significand. *)
Definition fl_pos (q : Q) : Q :=
  let e := (ilog2 q - 52)%Z in
  inject_Z (round_half_even (q / 2 ^ e)) * 2 ^ e.

(** The binary64 value nearest to [q] (round-to-nearest, ties-to-even). *)
Definition fl (q : Q) : Q :=
  Qred (match q ?= 0 with
        | Eq => 0
        | Gt => fl_pos q
        | Lt => - fl_pos (- q)
        end).

(** [a / b] on two ints: the correctly rounded quotient.  The callers guard
    against [b = 0]. *)
Definition truediv (a b : Z) : Q := fl (inject_Z a / inject_Z b).

(** [x * y] on floats (an int operand is converted exactly first). *)
Definition mul (x y : Q) : Q := fl (x * y).

(** [round(x, nd)]: CPython prints [x] with [nd] decimals, correctly rounded
    (ties of the exact binary value go to the even digit), and reads the
    digits back.  [round_digits] is the integer made of the printed digits. *)
Definition round_digits (x : Q) (nd : nat) : Z :=
  round_half_even (x * inject_Z (10 ^ Z.of_nat nd)).

Definition round (x : Q) (nd : nat) : Q :=
  fl (inject_Z (round_digits x nd) / inject_Z (10 ^ Z.of_nat nd)).

(** [x <= y] and [not x] on numbers. *)
Definition le (x y : Q) : bool := Qle_bool x y.
Definition is_zero (x : Q) : bool := Qeq_bool x 0.

End PyNum.

(* ================================================================== *)
(** * Exceptions *)
(* ================================================================== *)

(** The exceptions this code can meet; all of them derive from
    [Exception]. *)
Inductive exn : Type :=
| KeyError
| IndexError
| TypeError
| ValueError
| RequestException
| JSONDecodeError.

Inductive result (A : Type) : Type :=
| Returned (a : A)
| Raised (e : exn).

Arguments Returned {A} a.
Arguments Raised {A} e.

Definition bind {A B : Type} (m : result A) (k : A -> result B) : result B :=
  match m with
  | Returned a => k a
  | Raised e => Raised e
  end.

Notation "x <- m ;; k" := (bind m (fun x => k))
  (at level 61, m at next level, right associativity).

(** [try: body  except Exception as e: handler e]. *)
Definition try_except {A : Type} (body : result A) (handler : exn -> result A)
  : result A :=
  match body with
  | Returned a => Returned a
  | Raised e => handler e
  end.

(* ================================================================== *)
(** * Python values decoded from JSON *)
(* ================================================================== *)

Inductive pyval : Type :=
| PNone
| PBool (b : bool)
| PNum (q : Q)
| PStr (s : string)
| PList (l : list pyval)
| PDict (d : list (string * pyval)).

(** Truth value of an object, as [if v:] and [not v] compute it. *)
Definition truthy (v : pyval) : bool :=
  match v with
  | PNone => false
  | PBool b => b
  | PNum q => negb (PyNum.is_zero q)
  | PStr s => negb (String.eqb s EmptyString)
  | PList l => match l with [] => false | _ :: _ => true end
  | PDict d => match d with [] => false | _ :: _ => true end
  end.

Fixpoint dict_get (d : list (string * pyval)) (k : string) : option pyval :=
  match d with
  | [] => None
  | (k', v) :: d' => if String.eqb k' k then Some v else dict_get d' k
  end.

(** [v[k]] for a string key. *)
Definition getitem_key (v : pyval) (k : string) : result pyval :=
  match v with
  | PDict d =>
      match dict_get d k with
      | Some x => Returned x
      | None => Raised KeyError
      end
  | _ => Raised TypeError
  end.

(** [v[i]] for a non-negative integer index.  The keys of a decoded JSON
    object are strings, so an integer key is never found in a dict. *)
Definition getitem_index (v : pyval) (i : nat) : result pyval :=
  match v with
  | PList l =>
      match nth_error l i with
      | Some x => Returned x
      | None => Raised IndexError
      end
  | PStr s =>
      match String.get i s with
      | Some c => Returned (PStr (String c EmptyString))
      | None => Raised IndexError
      end
  | PDict _ => Raised KeyError
  | _ => Raised TypeError
  end.

(* ================================================================== *)
(** * The outside world *)
(* ================================================================== *)

(** What [requests.get(url, params=...)] followed by [response.json()]
    can do: fail in transport, fail to decode the body, or yield the decoded
    document. *)
Inductive http_reply : Type :=
| TransportFailure (e : exn)
| UndecodableBody (e : exn)
| JsonBody (data : pyval).

Record World : Type := {
  (** the HTTP client, queried with the URL and the query parameters *)
  requests_get : string -> list (string * pyval) -> http_reply;
  (** [os.getenv] *)
  getenv : string -> option string;
  (** [float(s)] on a string: the number it denotes, or [ValueError] *)
  py_float : string -> result Q;
  (** [geodesic((lat1, lon1), (lat2, lon2)).km] *)
  geodesic_km : Q -> Q -> Q -> Q -> Q;
  (** [column ILIKE pattern] *)
  ilike : string -> string -> bool;
  (** [werkzeug.security.generate_password_hash] *)
  generate_password_hash : string -> string
}.

(* ================================================================== *)
(** * Database models *)
(* ================================================================== *)

(** A model has the columns that the routes below read.  The time stamps
    of users and postings are not represented: [created_at] and
    [last_login] of a user, [created_at] and [updated_at] of a posting (the
    latter is renewed by every UPDATE of the row).  Two rows that are equal
    here agree on the represented columns only. *)

Module User.

Record t : Type := mk {
  id : Z;
  email : string;
  password_hash : string;
  role : string;
  full_name : string;
  phone : string;
  address : string;
  city : string;
  zip_code : string;
  latitude : Q;
  longitude : Q;
  company_name : option string;
  company_description : option string
}.

End User.

Module JobPosting.

Record t : Type := mk {
  id : Z;
  employer_id : Z;
  title : string;
  description : string;
  category : string;
  employment_type : string;
  salary_min : option Q;
  salary_max : option Q;
  street_address : string;
  city : string;
  zip_code : string;
  latitude : Q;
  longitude : Q;
  status : string
}.

(** [job.status = s] *)
Definition set_status (s : string) (j : t) : t :=
  mk (id j) (employer_id j) (title j) (description j) (category j)
     (employment_type j) (salary_min j) (salary_max j) (street_address j)
     (city j) (zip_code j) (latitude j) (longitude j) s.

End JobPosting.

(** Datetimes are counted in microseconds, the resolution of
    [datetime]. *)
Module Application.

Record t : Type := mk {
  id : Z;
  job_id : Z;
  applicant_id : Z;
  status : string;
  submitted_at : Z;
  updated_at : Z
}.

(** [application.status = s], committed at the instant [now]: the column's
    [onupdate] stamps [updated_at]. *)
Definition set_status (s : string) (now : Z) (a : t) : t :=
  mk (id a) (job_id a) (applicant_id a) s (submitted_at a) now.

End Application.

Record Database : Type := {
  users : list User.t;
  job_postings : list JobPosting.t;
  applications : list Application.t
}.

Definition empty_db : Database :=
  {| users := []; job_postings := []; applications := [] |}.

(** [Model.query.get(id)]: the row with that primary key. *)
Definition get_job (db : Database) (job_id : Z) : option JobPosting.t :=
  find (fun j => Z.eqb (JobPosting.id j) job_id) (job_postings db).

(** The row with primary key [job_id] rewritten by [f], as a commit after
    attribute assignments does; the other rows are untouched. *)
Fixpoint update_row (job_id : Z) (f : JobPosting.t -> JobPosting.t)
    (rows : list JobPosting.t) : list JobPosting.t :=
  match rows with
  | [] => []
  | j :: rest =>
      if Z.eqb (JobPosting.id j) job_id then f j :: rest
      else j :: update_row job_id f rest
  end.

Definition update_job (db : Database) (job_id : Z)
    (f : JobPosting.t -> JobPosting.t) : Database :=
  {| users := users db;
     job_postings := update_row job_id f (job_postings db);
     applications := applications db |}.

(** The next value of an auto-incremented primary key. *)
Definition next_id (ids : list Z) : Z := (fold_right Z.max 0 ids + 1)%Z.

(* ================================================================== *)
(** * Responses *)
(* ================================================================== *)

(** A flashed message and its category. *)
Definition flash_msg : Type := (string * string)%type.

(** One entry of [jobs_with_distance]. *)
Record JobWithDistance : Type := {
  job : JobPosting.t;
  distance : Q
}.

(** The template variables of [analytics.html] that the properties below
    speak about, together with the posting counts.  [apps_by_month],
    [apps_by_status] and [most_popular_job] are left out. *)
Record AnalyticsSnapshot : Type := {
  total_jobs : nat;
  total_applications : nat;
  acceptance_rate : Q;
  interview_rate : Q;
  rejection_rate : Q;
  response_rate : Q;
  avg_response_time : Q;
  active_jobs : nat;
  paused_jobs : nat;
  archived_jobs : nat
}.

Inductive response : Type :=
| Redirect (endpoint : string) (flashed : list flash_msg)
| RenderTemplate (template : string)
| RenderSearch (jobs_with_distance : list JobWithDistance)
    (keyword category : string) (radius : Q)
| RenderAnalytics (snapshot : AnalyticsSnapshot)
| NotFound.

Inductive http_method : Type := GET | POST.

(** Submitted forms: [request.form.get] on a field of the page's form. *)
Record RegisterForm : Type := {
  rf_email : string;
  rf_password : string;
  rf_confirm_password : string;
  rf_role : string;
  rf_full_name : string;
  rf_phone : string;
  rf_address : string;
  rf_city : string;
  rf_zip_code : string;
  rf_company_name : option string;
  rf_company_description : option string
}.

Record JobForm : Type := {
  jf_title : string;
  jf_description : string;
  jf_category : string;
  jf_employment_type : string;
  jf_salary_min : string;
  jf_salary_max : string;
  jf_street_address : string;
  jf_city : string;
  jf_zip_code : string
}.

(** The query string of [/jobs/search]; [sa_radius] is the number that
    [float] reads from the [radius] argument when one is given. *)
Record SearchArgs : Type := {
  sa_keyword : option string;
  sa_category : option string;
  sa_radius : option Q
}.

Definition nonempty (s : string) : bool := negb (String.eqb s EmptyString).

Definition flash (message category : string) : flash_msg := (message, category).

(* ================================================================== *)
(** * Helper functions *)
(* ================================================================== *)

Section Helpers.

Variable w : World.

Local Open Scope string_scope.

Definition response_json (r : http_reply) : result pyval :=
  match r with
  | TransportFailure e => Raised e
  | UndecodableBody e => Raised e
  | JsonBody data => Returned data
  end.

(** The request of [geocode_address]: its URL and its query parameters. *)
Definition geocode_url (address city zip_code : string) : string :=
  let full_address := address ++ ", " ++ city ++ ", " ++ zip_code in
  "https://api.mapbox.com/geocoding/v5/mapbox.places/" ++ full_address
    ++ ".json".

Definition geocode_params : list (string * pyval) :=
  let api_key := getenv w "MAPBOX_ACCESS_TOKEN" in
  [("access_token", match api_key with Some k => PStr k | None => PNone end);
   ("limit", PNum 1);
   ("country", PStr "NG")].

(** The statements of [geocode_address] that read the decoded document. *)
Definition first_candidate (data : pyval) : result (pyval * pyval) :=
  features <- getitem_key data "features";;
  if truthy features then
    candidate <- getitem_index features 0;;
    geometry <- getitem_key candidate "geometry";;
    coordinates <- getitem_key geometry "coordinates";;
    longitude <- getitem_index coordinates 0;;
    latitude <- getitem_index coordinates 1;;
    Returned (latitude, longitude)
  else
    Returned (PNone, PNone).

(** [geocode_address(address, city, zip_code)] *)
Definition geocode_address (address city zip_code : string)
  : result (pyval * pyval) :=
  let url := geocode_url address city zip_code in
  let params := geocode_params in
  try_except
    (data <- response_json (requests_get w url params);;
     first_candidate data)
    (fun _ => Returned (PNone, PNone)).

(** [calculate_distance(lat1, lon1, lat2, lon2)] *)
Definition calculate_distance (lat1 lon1 lat2 lon2 : Q) : Q :=
  geodesic_km w lat1 lon1 lat2 lon2.

(** [float(os.getenv(name, default))] *)
Definition getenv_float (name : string) (default : Q) : result Q :=
  match getenv w name with
  | Some s => py_float w s
  | None => Returned default
  end.

(** [is_within_service_area(lat, lng)] *)
Definition is_within_service_area (lat lng : Q) : result bool :=
  center_lat <- getenv_float "SERVICE_AREA_CENTER_LAT" 0;;
  center_lng <- getenv_float "SERVICE_AREA_CENTER_LNG" 0;;
  max_radius <- getenv_float "SERVICE_AREA_RADIUS_KM" 50;;
  let distance := calculate_distance center_lat center_lng lat lng in
  Returned (PyNum.le distance max_radius).

(** A geocoded coordinate handed to geopy or to a [Float] column.  Mapbox
    sends numbers; what the libraries make of another JSON value is outside
    this model, which lets the request fail there. *)
Definition as_coordinate (v : pyval) : result Q :=
  match v with
  | PNum q => Returned q
  | _ => Raised TypeError
  end.

End Helpers.

(** [list.sort(key=...)]: CPython's sort is stable and compares keys with
    [<] only.  On keys that are totally ordered a stable sort has one
    possible result, computed here by stable insertion. *)
Section ListSort.

Variable A : Type.
Variable key : A -> Q.

Definition key_lt (x y : A) : bool := negb (Qle_bool (key y) (key x)).

Fixpoint insert_sorted (x : A) (l : list A) : list A :=
  match l with
  | [] => [x]
  | y :: t => if key_lt y x then y :: insert_sorted x t else x :: y :: t
  end.

Definition list_sort (l : list A) : list A := fold_right insert_sorted [] l.

End ListSort.

(* ================================================================== *)
(** * Routes *)
(* ================================================================== *)

Section Routes.

Variable w : World.

Local Open Scope string_scope.

Definition address_error : flash_msg :=
  flash "Could not verify address. Please check and try again." "error".

Definition service_area_error : flash_msg :=
  flash "This location is outside our service area!" "error".

Definition access_denied : flash_msg := flash "Access denied!" "error".

Definition dashboard_of (u : User.t) : string :=
  if String.eqb (User.role u) "employer" then "employer_dashboard"
  else "job_seeker_dashboard".

(** [/register] *)
Definition register (db : Database) (current_user : option User.t)
    (method : http_method) (form : RegisterForm)
  : result (Database * response) :=
  match current_user with
  | Some u =>
      Returned (db, Redirect (dashboard_of u)
        [flash "You are already logged in. Logout first to create a new account."
               "warning"])
  | None =>
      match method with
      | GET => Returned (db, RenderTemplate "register.html")
      | POST =>
          if negb (String.eqb (rf_password form) (rf_confirm_password form))
          then Returned (db, Redirect "register"
                 [flash "Passwords do not match!" "error"])
          else if Nat.ltb (String.length (rf_password form)) 8
          then Returned (db, Redirect "register"
                 [flash "Password must be at least 8 characters long!" "error"])
          else if existsb (fun u => String.eqb (User.email u) (rf_email form))
                    (users db)
          then Returned (db, Redirect "register"
                 [flash "Email already registered!" "error"])
          else
            geo <- geocode_address w (rf_address form) (rf_city form)
                     (rf_zip_code form);;
            let '(lat, lng) := geo in
            if negb (truthy lat) || negb (truthy lng)
            then Returned (db, Redirect "register" [address_error])
            else
              lat_f <- as_coordinate lat;;
              lng_f <- as_coordinate lng;;
              let employer := String.eqb (rf_role form) "employer" in
              let user :=
                User.mk (next_id (map User.id (users db)))
                  (rf_email form)
                  (generate_password_hash w (rf_password form))
                  (rf_role form) (rf_full_name form) (rf_phone form)
                  (rf_address form) (rf_city form) (rf_zip_code form)
                  lat_f lng_f
                  (if employer then rf_company_name form else None)
                  (if employer then rf_company_description form else None) in
              Returned ({| users := (users db ++ [user])%list;
                           job_postings := job_postings db;
                           applications := applications db |},
                        Redirect "login"
                          [flash "Registration successful! Please log in."
                                 "success"])
      end
  end.

(** The loop of [search_jobs] that fills [jobs_with_distance]. *)
Definition jobs_in_radius (current_user : User.t) (radius : Q)
    (jobs : list JobPosting.t) : list JobWithDistance :=
  fold_left
    (fun acc j =>
       let dist :=
         calculate_distance w
           (User.latitude current_user) (User.longitude current_user)
           (JobPosting.latitude j) (JobPosting.longitude j) in
       if PyNum.le dist radius
       then (acc ++ [{| job := j; distance := PyNum.round dist 2 |}])%list
       else acc)
    jobs [].

(** The query of [search_jobs]: active postings, narrowed by keyword and by
    category when these are not empty. *)
Definition search_query (db : Database) (keyword category : string)
  : list JobPosting.t :=
  let query :=
    filter (fun j => String.eqb (JobPosting.status j) "active")
      (job_postings db) in
  let query :=
    if nonempty keyword then
      filter (fun j =>
                ilike w (JobPosting.title j) ("%" ++ keyword ++ "%")
                || ilike w (JobPosting.description j) ("%" ++ keyword ++ "%"))
        query
    else query in
  if nonempty category then
    filter (fun j => String.eqb (JobPosting.category j) category) query
  else query.

(** [/jobs/search] *)
Definition search_jobs (db : Database) (current_user : User.t)
    (args : SearchArgs) : response :=
  if negb (String.eqb (User.role current_user) "job_seeker")
  then Redirect "index" [access_denied]
  else
    let keyword := match sa_keyword args with Some k => k | None => "" end in
    let category := match sa_category args with Some c => c | None => "" end in
    let radius := match sa_radius args with Some r => r | None => 25%Q end in
    let jobs := search_query db keyword category in
    let jobs_with_distance := jobs_in_radius current_user radius jobs in
    RenderSearch (list_sort distance jobs_with_distance)
      keyword category radius.

(** [float(s) if s else None] on a salary field. *)
Definition salary_of (s : string) : result (option Q) :=
  if nonempty s then (x <- py_float w s;; Returned (Some x))
  else Returned None.

(** [/employer/jobs/create] *)
Definition create_job (db : Database) (current_user : User.t)
    (method : http_method) (form : JobForm)
  : result (Database * response) :=
  if negb (String.eqb (User.role current_user) "employer")
  then Returned (db, Redirect "index" [access_denied])
  else
    match method with
    | GET => Returned (db, RenderTemplate "create_job.html")
    | POST =>
        geo <- geocode_address w (jf_street_address form) (jf_city form)
                 (jf_zip_code form);;
        let '(lat, lng) := geo in
        if negb (truthy lat) || negb (truthy lng)
        then Returned (db, Redirect "create_job" [address_error])
        else
          lat_f <- as_coordinate lat;;
          lng_f <- as_coordinate lng;;
          inside <- is_within_service_area w lat_f lng_f;;
          if negb inside
          then Returned (db, Redirect "create_job" [service_area_error])
          else
            smin <- salary_of (jf_salary_min form);;
            smax <- salary_of (jf_salary_max form);;
            let posting :=
              JobPosting.mk (next_id (map JobPosting.id (job_postings db)))
                (User.id current_user)
                (jf_title form) (jf_description form) (jf_category form)
                (jf_employment_type form) smin smax
                (jf_street_address form) (jf_city form) (jf_zip_code form)
                lat_f lng_f "active" in
            Returned ({| users := users db;
                         job_postings := (job_postings db ++ [posting])%list;
                         applications := applications db |},
                      Redirect "employer_dashboard"
                        [flash "Job posted successfully!" "success"])
    end.

(** [/employer/jobs/<job_id>/edit] *)
Definition edit_job (db : Database) (current_user : User.t) (job_id : Z)
    (method : http_method) (form : JobForm)
  : result (Database * response) :=
  match get_job db job_id with
  | None => Returned (db, NotFound)
  | Some j =>
      if negb (Z.eqb (JobPosting.employer_id j) (User.id current_user))
      then Returned (db, Redirect "employer_dashboard" [access_denied])
      else
        match method with
        | GET => Returned (db, RenderTemplate "edit_job.html")
        | POST =>
            smin <- salary_of (jf_salary_min form);;
            smax <- salary_of (jf_salary_max form);;
            let edit (p : JobPosting.t) :=
              JobPosting.mk (JobPosting.id p) (JobPosting.employer_id p)
                (jf_title form) (jf_description form) (jf_category form)
                (jf_employment_type form) smin smax
                (JobPosting.street_address p) (JobPosting.city p)
                (JobPosting.zip_code p) (JobPosting.latitude p)
                (JobPosting.longitude p) (JobPosting.status p) in
            Returned (update_job db job_id edit,
                      Redirect "employer_dashboard"
                        [flash "Job updated successfully!" "success"])
        end
  end.

(** [/employer/jobs/<job_id>/toggle-status] *)
Definition toggle_job_status (db : Database) (current_user : User.t)
    (job_id : Z) : Database * response :=
  match get_job db job_id with
  | None => (db, NotFound)
  | Some j =>
      if negb (Z.eqb (JobPosting.employer_id j) (User.id current_user))
      then (db, Redirect "employer_dashboard" [access_denied])
      else if String.eqb (JobPosting.status j) "active"
      then (update_job db job_id (JobPosting.set_status "paused"),
            Redirect "employer_dashboard"
              [flash "Job paused successfully!" "success"])
      else if String.eqb (JobPosting.status j) "paused"
      then (update_job db job_id (JobPosting.set_status "active"),
            Redirect "employer_dashboard"
              [flash "Job activated successfully!" "success"])
      else (db, Redirect "employer_dashboard" [])
  end.

(** [/employer/jobs/<job_id>/archive] *)
Definition archive_job (db : Database) (current_user : User.t) (job_id : Z)
  : Database * response :=
  match get_job db job_id with
  | None => (db, NotFound)
  | Some j =>
      if negb (Z.eqb (JobPosting.employer_id j) (User.id current_user))
      then (db, Redirect "employer_dashboard" [access_denied])
      else (update_job db job_id (JobPosting.set_status "archived"),
            Redirect "employer_dashboard"
              [flash "Job archived successfully!" "success"])
  end.

(** [Application.query.join(JobPosting)
      .filter(JobPosting.employer_id == current_user.id).all()] *)
Definition employer_applications (db : Database) (employer : Z)
  : list Application.t :=
  filter
    (fun a =>
       match get_job db (Application.job_id a) with
       | Some j => Z.eqb (JobPosting.employer_id j) employer
       | None => false
       end)
    (applications db).

(** [len([app for app in total_apps if app.status == s])] *)
Definition count_with_status (s : string) (apps : list Application.t) : nat :=
  List.length (filter (fun a => String.eqb (Application.status a) s) apps).

(** [len([app for app in total_apps if app.status != 'applied'])] *)
Definition count_responded (apps : list Application.t) : nat :=
  List.length
    (filter (fun a => negb (String.eqb (Application.status a) "applied")) apps).

(** [(count / total_applications * 100) if total_applications else 0] *)
Definition percentage (count total : nat) : Q :=
  match total with
  | O => 0%Q
  | S _ =>
      PyNum.mul (PyNum.truediv (Z.of_nat count) (Z.of_nat total)) 100%Q
  end.

(** [(later - earlier).days]: a [timedelta] keeps [0 <= seconds < 86400],
    so its [days] is the floor of the difference counted in days. *)
Definition timedelta_days (later earlier : Z) : Z :=
  ((later - earlier) / 86400000000)%Z.

(** The loop that fills [response_times]. *)
Definition response_times (apps : list Application.t) : list Z :=
  fold_left
    (fun acc a =>
       if negb (String.eqb (Application.status a) "applied")
       then (acc ++ [timedelta_days (Application.updated_at a)
                       (Application.submitted_at a)])%list
       else acc)
    apps [].

(** [sum(xs) / len(xs) if xs else 0] *)
Definition average (xs : list Z) : Q :=
  match xs with
  | [] => 0%Q
  | _ :: _ =>
      PyNum.truediv (fold_left Z.add xs 0%Z) (Z.of_nat (List.length xs))
  end.

Definition count_jobs_with_status (s : string) (jobs : list JobPosting.t)
  : nat :=
  List.length (filter (fun j => String.eqb (JobPosting.status j) s) jobs).

(** The body of [analytics] for an employer. *)
Definition compute_snapshot (db : Database) (employer : Z)
  : AnalyticsSnapshot :=
  let jobs :=
    filter (fun j => Z.eqb (JobPosting.employer_id j) employer)
      (job_postings db) in
  let total_apps := employer_applications db employer in
  let total := List.length total_apps in
  let accepted := count_with_status "accepted" total_apps in
  let acceptance := percentage accepted total in
  let interviews := count_with_status "interview" total_apps in
  let interview := percentage interviews total in
  let rejected := count_with_status "rejected" total_apps in
  let rejection := percentage rejected total in
  let responded := count_responded total_apps in
  let response := percentage responded total in
  let avg := average (response_times total_apps) in
  {| total_jobs := List.length jobs;
     total_applications := total;
     acceptance_rate := PyNum.round acceptance 1;
     interview_rate := PyNum.round interview 1;
     rejection_rate := PyNum.round rejection 1;
     response_rate := PyNum.round response 1;
     avg_response_time := PyNum.round avg 1;
     active_jobs := count_jobs_with_status "active" jobs;
     paused_jobs := count_jobs_with_status "paused" jobs;
     archived_jobs := count_jobs_with_status "archived" jobs |}.

(** [/analytics] *)
Definition analytics (db : Database) (current_user : User.t) : response :=
  if negb (String.eqb (User.role current_user) "employer")
  then Redirect "index" [access_denied]
  else RenderAnalytics (compute_snapshot db (User.id current_user)).

End Routes.

(** Requests that can write a [JobPosting] row, and the server's step on
    each.  A request that raises is answered with an error page and its
    transaction is not committed. *)
Inductive request : Type :=
| ReqCreateJob (current_user : User.t) (method : http_method) (form : JobForm)
| ReqEditJob (current_user : User.t) (job_id : Z) (method : http_method)
    (form : JobForm)
| ReqToggleJobStatus (current_user : User.t) (job_id : Z)
| ReqArchiveJob (current_user : User.t) (job_id : Z).

Definition committed (db : Database) (r : result (Database * response))
  : Database :=
  match r with
  | Returned (db', _) => db'
  | Raised _ => db
  end.

Definition step (w : World) (db : Database) (r : request) : Database :=
  match r with
  | ReqCreateJob u m f => committed db (create_job w db u m f)
  | ReqEditJob u j m f => committed db (edit_job w db u j m f)
  | ReqToggleJobStatus u j => fst (toggle_job_status db u j)
  | ReqArchiveJob u j => fst (archive_job db u j)
  end.

Definition run (w : World) (db : Database) (rs : list request) : Database :=
  fold_left (step w) rs db.

(* ================================================================== *)
(** * File names *)
(* ================================================================== *)

(** Strings are sequences of bytes (UTF-8).  [lower] lowers the ASCII
    letters and keeps every other byte.  Python's [str.lower] also changes
    letters outside ASCII, but none of them becomes [p], [d], [f] or [.],
    so [allowed_file] below is the function of the source on every file
    name. *)
Definition lower_char (c : ascii) : ascii :=
  let n := nat_of_ascii c in
  if Nat.leb 65 n && Nat.leb n 90 then ascii_of_nat (n + 32) else c.

Fixpoint lower (s : string) : string :=
  match s with
  | EmptyString => EmptyString
  | String c rest => String (lower_char c) (lower rest)
  end.

(** [c in s] *)
Fixpoint contains (c : ascii) (s : string) : bool :=
  match s with
  | EmptyString => false
  | String a rest => Ascii.eqb a c || contains c rest
  end.

(** The two sides of the last [c] in [s], if [c] occurs. *)
Fixpoint split_at_last (c : ascii) (s : string) : option (string * string) :=
  match s with
  | EmptyString => None
  | String a rest =>
      match split_at_last c rest with
      | Some (head, tail) => Some (String a head, tail)
      | None => if Ascii.eqb a c then Some (EmptyString, rest) else None
      end
  end.

(** [s.rsplit(c, 1)] *)
Definition rsplit_1 (c : ascii) (s : string) : list string :=
  match split_at_last c s with
  | Some (head, tail) => [head; tail]
  | None => [s]
  end.

Definition ALLOWED_EXTENSIONS : list string := ["pdf"%string].

(** [allowed_file(filename)].  The index [1] exists whenever the first
    conjunct holds. *)
Definition allowed_file (filename : string) : bool :=
  contains "."%char filename
  && match nth_error (rsplit_1 "."%char filename) 1 with
     | Some extension =>
         existsb (String.eqb (lower extension)) ALLOWED_EXTENSIONS
     | None => false
     end.

(** [str(n)] for an int. *)
Definition str_int (n : Z) : string := NilZero.string_of_int (Z.to_int n).

(* ================================================================== *)
(** * More database models *)
(* ================================================================== *)

Module Resume.

Record t : Type := mk {
  id : Z;
  user_id : Z;
  filename : string;
  original_filename : string
}.

End Resume.

Module SavedJob.

Record t : Type := mk {
  id : Z;
  user_id : Z;
  job_id : Z
}.

End SavedJob.

(** The [resumes] table and the names of the files in [UPLOAD_FOLDER]. *)
Record ResumeStore : Type := {
  resumes : list Resume.t;
  upload_folder : list string
}.

(** [file.save(path)]: the file exists afterwards. *)
Definition save_file (name : string) (folder : list string) : list string :=
  if existsb (String.eqb name) folder then folder else (folder ++ [name])%list.

(** The answer to a request whose transaction the database may refuse. *)
Inductive reply (S : Type) : Type :=
| Served (state : S) (resp : response)
| ServerError.

Arguments Served {S} state resp.
Arguments ServerError {S}.

(** What [view_job.html] is rendered with. *)
Inductive job_view : Type :=
| JobView (posting : JobPosting.t) (shown_distance : option Q)
    (already_applied : option Application.t) (is_saved : option SavedJob.t)
| JobViewNotFound.

(** What [/login] answers, and who is logged in afterwards. *)
Inductive login_response : Type :=
| LoginRedirect (endpoint : string) (flashed : list flash_msg)
| LoginPage (flashed : list flash_msg).

(** The form of [/profile/edit]. *)
Record ProfileForm : Type := {
  pf_full_name : string;
  pf_phone : string;
  pf_address : string;
  pf_city : string;
  pf_zip_code : string;
  pf_company_name : option string;
  pf_company_description : option string
}.

(* ================================================================== *)
(** * More routes *)
(* ================================================================== *)

Section MoreRoutes.

Variable w : World.

(** [werkzeug.utils.secure_filename] and
    [werkzeug.security.check_password_hash] *)
Variable secure_filename : string -> string.
Variable check_password_hash : string -> string -> bool.

Local Open Scope string_scope.

(** [/login] *)
Definition login (db : Database) (current_user : option User.t)
    (method : http_method) (email password : string)
  : option User.t * login_response :=
  match current_user with
  | Some u =>
      (Some u, LoginRedirect (dashboard_of u)
                 [flash "You are already logged in." "info"])
  | None =>
      match method with
      | GET => (None, LoginPage [])
      | POST =>
          match find (fun u => String.eqb (User.email u) email) (users db) with
          | Some user =>
              if check_password_hash (User.password_hash user) password
              then (Some user, LoginRedirect (dashboard_of user) [])
              else (None, LoginPage [flash "Invalid email or password!" "error"])
          | None =>
              (None, LoginPage [flash "Invalid email or password!" "error"])
          end
      end
  end.

(** [/jobs/<job_id>] *)
Definition view_job (db : Database) (saved : list SavedJob.t)
    (current_user : User.t) (job_id : Z) : job_view :=
  match get_job db job_id with
  | None => JobViewNotFound
  | Some j =>
      let seeker := String.eqb (User.role current_user) "job_seeker" in
      let shown :=
        if seeker
        then Some (PyNum.round
                     (calculate_distance w
                        (User.latitude current_user)
                        (User.longitude current_user)
                        (JobPosting.latitude j) (JobPosting.longitude j)) 2)
        else None in
      let already_applied :=
        if seeker
        then find (fun a => Z.eqb (Application.job_id a) job_id
                            && Z.eqb (Application.applicant_id a)
                                 (User.id current_user))
               (applications db)
        else None in
      let is_saved :=
        if seeker
        then find (fun s => Z.eqb (SavedJob.job_id s) job_id
                            && Z.eqb (SavedJob.user_id s)
                                 (User.id current_user))
               saved
        else None in
      JobView j shown already_applied is_saved
  end.

(** [/jobs/<job_id>/apply].  The columns [resume_id] and [cover_letter] are
    not represented; [resume_accepted] tells whether the database accepts
    the submitted [resume_id] (it refuses a value that breaks the foreign
    key when it enforces foreign keys).  The two column defaults read the
    clock once each: [submitted] and [updated]. *)
Definition apply_job (db : Database) (current_user : User.t) (job_id : Z)
    (method : http_method) (resume_accepted : bool) (submitted updated : Z)
  : reply Database :=
  if negb (String.eqb (User.role current_user) "job_seeker")
  then Served db (Redirect "index" [flash "Only job seekers can apply!" "error"])
  else
    match get_job db job_id with
    | None => Served db NotFound
    | Some _ =>
        if existsb (fun a => Z.eqb (Application.job_id a) job_id
                             && Z.eqb (Application.applicant_id a)
                                  (User.id current_user))
             (applications db)
        then Served db (Redirect "view_job"
                          [flash "You have already applied to this job!"
                                 "warning"])
        else
          match method with
          | GET => Served db (RenderTemplate "apply_job.html")
          | POST =>
              if resume_accepted then
                let application :=
                  Application.mk
                    (next_id (map Application.id (applications db)))
                    job_id (User.id current_user) "applied" submitted updated in
                Served {| users := users db;
                          job_postings := job_postings db;
                          applications :=
                            (applications db ++ [application])%list |}
                  (Redirect "job_seeker_dashboard"
                     [flash "Application submitted successfully!" "success"])
              else ServerError
          end
    end.

(** The application with primary key [application_id] rewritten by [f]. *)
Fixpoint update_application (application_id : Z)
    (f : Application.t -> Application.t) (rows : list Application.t)
  : list Application.t :=
  match rows with
  | [] => []
  | a :: rest =>
      if Z.eqb (Application.id a) application_id then f a :: rest
      else a :: update_application application_id f rest
  end.

(** [/employer/applications/<application_id>/update-status].  The commit
    issues an UPDATE, which stamps [updated_at] with the clock reading
    [now], only when the status really changes. *)
Definition update_application_status (db : Database) (current_user : User.t)
    (application_id : Z) (new_status : string) (now : Z) : reply Database :=
  match find (fun a => Z.eqb (Application.id a) application_id)
          (applications db) with
  | None => Served db NotFound
  | Some application =>
      match get_job db (Application.job_id application) with
      | None => ServerError
      | Some j =>
          if negb (Z.eqb (JobPosting.employer_id j) (User.id current_user))
          then Served db (Redirect "employer_dashboard" [access_denied])
          else
            let db' :=
              if String.eqb (Application.status application) new_status
              then db
              else {| users := users db;
                      job_postings := job_postings db;
                      applications :=
                        update_application application_id
                          (Application.set_status new_status now)
                          (applications db) |} in
            Served db' (Redirect "view_applications"
                          [flash "Application status updated!" "success"])
      end
  end.

(** [/resumes/upload].  [file] is the file name of [request.files['resume']]
    when the form has that field, [timestamp] the text of
    [datetime.utcnow().timestamp()]. *)
Definition upload_resume (store : ResumeStore) (current_user : User.t)
    (file : option string) (timestamp : string) : ResumeStore * response :=
  if negb (String.eqb (User.role current_user) "job_seeker")
  then (store, Redirect "index"
                 [flash "Only job seekers can upload resumes!" "error"])
  else
    let resume_count :=
      List.length
        (filter (fun r => Z.eqb (Resume.user_id r) (User.id current_user))
           (resumes store)) in
    if Nat.leb 3 resume_count
    then (store, Redirect "job_seeker_dashboard"
                   [flash "You can only upload up to 3 resumes. Please delete one first."
                          "warning"])
    else
      match file with
      | None => (store, Redirect "job_seeker_dashboard"
                          [flash "No file selected!" "error"])
      | Some name =>
          if String.eqb name ""
          then (store, Redirect "job_seeker_dashboard"
                         [flash "No file selected!" "error"])
          else if allowed_file name then
            let original_filename := secure_filename name in
            let filename :=
              str_int (User.id current_user) ++ "_" ++ timestamp ++ "_"
                ++ original_filename in
            let resume :=
              Resume.mk (next_id (map Resume.id (resumes store)))
                (User.id current_user) filename original_filename in
            ({| resumes := (resumes store ++ [resume])%list;
                upload_folder := save_file filename (upload_folder store) |},
             Redirect "job_seeker_dashboard"
               [flash "Resume uploaded successfully!" "success"])
          else (store, Redirect "job_seeker_dashboard"
                         [flash "Only PDF files are allowed!" "error"])
      end.

(** The user with primary key [user_id] rewritten by [f]. *)
Fixpoint update_user (user_id : Z) (f : User.t -> User.t)
    (rows : list User.t) : list User.t :=
  match rows with
  | [] => []
  | u :: rest =>
      if Z.eqb (User.id u) user_id then f u :: rest
      else u :: update_user user_id f rest
  end.

(** [/profile/edit].  [current_user] is the row of the logged-in user as it
    was loaded; the commit writes the assigned columns to the row of the
    table with the same primary key: name and phone, the address and its
    coordinates when [location] holds new ones, the company columns for an
    employer. *)
Definition profile_update (employer : bool) (form : ProfileForm)
    (location : option (string * string * string * Q * Q)) (u : User.t)
  : User.t :=
  let '(address, city, zip_code, lat, lng) :=
    match location with
    | Some l => l
    | None => (User.address u, User.city u, User.zip_code u,
               User.latitude u, User.longitude u)
    end in
  User.mk (User.id u) (User.email u) (User.password_hash u) (User.role u)
    (pf_full_name form) (pf_phone form) address city zip_code lat lng
    (if employer then pf_company_name form else User.company_name u)
    (if employer then pf_company_description form
     else User.company_description u).

Definition edit_profile (db : Database) (current_user : User.t)
    (method : http_method) (form : ProfileForm)
  : result (Database * response) :=
  match method with
  | GET => Returned (db, RenderTemplate "edit_profile.html")
  | POST =>
      let address_changed :=
        negb (String.eqb (pf_address form) (User.address current_user))
        || negb (String.eqb (pf_city form) (User.city current_user))
        || negb (String.eqb (pf_zip_code form) (User.zip_code current_user)) in
      let employer := String.eqb (User.role current_user) "employer" in
      let commit (location : option (string * string * string * Q * Q)) :=
        Returned ({| users := update_user (User.id current_user)
                                (profile_update employer form location)
                                (users db);
                     job_postings := job_postings db;
                     applications := applications db |},
                  Redirect "profile"
                    [flash "Profile updated successfully!" "success"]) in
      if address_changed then
        geo <- geocode_address w (pf_address form) (pf_city form)
                 (pf_zip_code form);;
        let '(lat, lng) := geo in
        if negb (truthy lat) || negb (truthy lng)
        then Returned (db, Redirect "edit_profile"
                             [flash "Could not verify new address. Please check and try again."
                                    "error"])
        else
          lat_f <- as_coordinate lat;;
          lng_f <- as_coordinate lng;;
          commit (Some (pf_address form, pf_city form, pf_zip_code form,
                        lat_f, lng_f))
      else commit None
  end.

End MoreRoutes.

(* ================================================================== *)
(** * The remaining aggregates of [analytics] *)
(* ================================================================== *)

(** [d[k] += 1] on a [defaultdict(int)], which keeps the order of first
    insertion. *)
Fixpoint dict_increment (k : string) (d : list (string * nat))
  : list (string * nat) :=
  match d with
  | [] => [(k, 1%nat)]
  | (k', n) :: rest =>
      if String.eqb k' k then (k', S n) :: rest
      else (k', n) :: dict_increment k rest
  end.

(** [apps_by_status] after the loop over [total_apps]. *)
Definition apps_by_status (apps : list Application.t) : list (string * nat) :=
  fold_left (fun d a => dict_increment (Application.status a) d) apps [].

(** [d[k] = v] on a dict. *)
Fixpoint dict_assign (k : string) (v : nat) (d : list (string * nat))
  : list (string * nat) :=
  match d with
  | [] => [(k, v)]
  | (k', n) :: rest =>
      if String.eqb k' k then (k', v) :: rest
      else (k', n) :: dict_assign k v rest
  end.

(** [Application.query.filter_by(job_id=job.id).count()] *)
Definition application_count (db : Database) (job_id : Z) : nat :=
  List.length
    (filter (fun a => Z.eqb (Application.job_id a) job_id) (applications db)).

(** [job_popularity] after the loop over the employer's postings. *)
Definition job_popularity (db : Database) (jobs : list JobPosting.t)
  : list (string * nat) :=
  fold_left
    (fun d j =>
       dict_assign (JobPosting.title j)
         (application_count db (JobPosting.id j)) d)
    jobs [].

(** [max(items, key=lambda x: x[1])]: the first item among those of the
    largest value; [best] is the largest seen so far. *)
Fixpoint max_by_value (best : string * nat) (items : list (string * nat))
  : string * nat :=
  match items with
  | [] => best
  | item :: rest =>
      if Nat.ltb (snd best) (snd item) then max_by_value item rest
      else max_by_value best rest
  end.

(** [most_popular_job] *)
Definition most_popular_job (db : Database) (employer : Z) : string * nat :=
  let jobs :=
    filter (fun j => Z.eqb (JobPosting.employer_id j) employer)
      (job_postings db) in
  match job_popularity db jobs with
  | [] => ("None"%string, 0%nat)
  | first :: rest => max_by_value first rest
  end.

Local Open Scope string_scope.

(* ================================================================== *)
(** * Vocabulary of the properties *)
(* ================================================================== *)

(** ** Numbers *)

(** The unit roundoff of binary64, [2^-53]. *)
Definition u64 : Q := 1 # 9007199254740992.

(** ** Geocoding *)

(** Replies after which the specification asks for the unresolved value:
    a transport failure, a body that does not decode, a document whose
    candidate list is empty, and a document that does not have the expected
    shape. *)
Inductive no_candidate : http_reply -> Prop :=
| nc_transport e : no_candidate (TransportFailure e)
| nc_undecodable e : no_candidate (UndecodableBody e)
| nc_empty data :
    getitem_key data "features" = Returned (PList []) ->
    no_candidate (JsonBody data)
| nc_malformed data e :
    first_candidate data = Raised e ->
    no_candidate (JsonBody data).

Definition unresolved : pyval * pyval := (PNone, PNone).

(** The test of the call sites for a resolved address:
    [not (not lat or not lng)]. *)
Definition resolved (geo : pyval * pyval) : bool :=
  truthy (fst geo) && truthy (snd geo).

(** ** Job search *)

Section SortVocabulary.

Variable A : Type.
Variable key : A -> Q.

Definition key_le (x y : A) : Prop := (key x <= key y)%Q.

(** The elements of [l] whose key is [d], in the order of [l]. *)
Definition with_key (d : Q) (l : list A) : list A :=
  filter (fun x => Qeq_bool (key x) d) l.

End SortVocabulary.

Section SearchVocabulary.

Variable w : World.

(** Distance of a posting from the seeker, as the loop computes it. *)
Definition distance_from (u : User.t) (j : JobPosting.t) : Q :=
  calculate_distance w (User.latitude u) (User.longitude u)
    (JobPosting.latitude j) (JobPosting.longitude j).

Definition entry_of (u : User.t) (j : JobPosting.t) : JobWithDistance :=
  {| job := j; distance := PyNum.round (distance_from u j) 2 |}.

End SearchVocabulary.

(** ** Life cycle of a posting *)

Definition lifecycle_status (s : string) : Prop :=
  s = "active" \/ s = "paused" \/ s = "archived".

Definition well_formed (db : Database) : Prop :=
  Forall (fun j => lifecycle_status (JobPosting.status j)) (job_postings db).

(** Row [i] of the table is the posting [id] and is archived. *)
Definition archived_at (db : Database) (i : nat) (id : Z) : Prop :=
  exists j, nth_error (job_postings db) i = Some j /\
            JobPosting.id j = id /\ JobPosting.status j = "archived".

(** ** Analytics *)

(** Number of applications whose status is [s]. *)
Definition status_count (s : string) (apps : list Application.t) : nat :=
  count_occ string_dec (map Application.status apps) s.

(** The exact percentage [c / n * 100]. *)
Definition exact_percentage (c n : nat) : Q :=
  (100 * (inject_Z (Z.of_nat c) / inject_Z (Z.of_nat n)))%Q.

(** [x] is the double nearest to a number with one decimal, [k / 10], and
    [k / 10] is a nearest such number to [target], up to the rounding noise
    of the two float operations that precede the call of [round]. *)
Definition one_decimal_of (x target : Q) : Prop :=
  exists k : Z,
    x = PyNum.fl (inject_Z k / 10) /\
    (Qabs (inject_Z k / 10 - target) <= (1 # 20) + (1 # 1000000000000))%Q.

(** Applications that left the initial status. *)
Definition responded (apps : list Application.t) : list Application.t :=
  filter (fun a => negb (String.eqb (Application.status a) "applied")) apps.

(** Elapsed time between submission and last update, in days. *)
Definition elapsed_days (a : Application.t) : Q :=
  (Application.updated_at a - Application.submitted_at a) # 86400000000.

Definition sum_Z (xs : list Z) : Z := fold_right Z.add 0%Z xs.

Definition sum_Q (xs : list Q) : Q := fold_right Qplus 0%Q xs.

(** The mean of the elapsed days, in exact arithmetic. *)
Definition mean_elapsed_days (apps : list Application.t) : Q :=
  (sum_Q (map elapsed_days apps) / inject_Z (Z.of_nat (List.length apps)))%Q.

(** The mean of the whole days elapsed, as a double. *)
Definition mean_whole_days (apps : list Application.t) : Q :=
  match apps with
  | [] => 0%Q
  | _ :: _ =>
      PyNum.truediv (sum_Z (map (fun a => Qfloor (elapsed_days a)) apps))
        (Z.of_nat (List.length apps))
  end.
(* BODY *)

(* ================================================================== *)
(** * Data of the closed examples *)
(* ================================================================== *)

(** A world for closed examples: no environment variable is set, every
    request finds the document [doc], every pair of points is [km]
    kilometres apart. *)
Definition sample_world (doc : http_reply) (km : Q) : World :=
  {| requests_get := fun _ _ => doc;
     getenv := fun _ => None;
     py_float := fun _ => Raised ValueError;
     geodesic_km := fun _ _ _ _ => km;
     ilike := fun _ _ => true;
     generate_password_hash := fun s => s |}.

Definition quiet_world : World :=
  {| requests_get := fun _ _ => TransportFailure RequestException;
     getenv := fun _ => None;
     py_float := fun _ => Raised ValueError;
     geodesic_km := fun _ _ _ _ => 0%Q;
     ilike := fun _ _ => true;
     generate_password_hash := fun s => s |}.

Definition line_world : World :=
  {| requests_get := fun _ _ => TransportFailure RequestException;
     getenv := fun _ => None;
     py_float := fun _ => Raised ValueError;
     geodesic_km := fun lat1 _ lat2 _ => (111 * Qabs (lat2 - lat1))%Q;
     ilike := fun _ _ => true;
     generate_password_hash := fun s => s |}.

(** A Mapbox document with one candidate at [(lat, lng)]. *)
Definition one_candidate (lat lng : Q) : pyval :=
  PDict [("type", PStr "FeatureCollection");
         ("features",
          PList [PDict [("geometry",
                         PDict [("type", PStr "Point");
                                ("coordinates", PList [PNum lng; PNum lat])])]])].

Definition no_candidates : pyval :=
  PDict [("type", PStr "FeatureCollection"); ("features", PList [])].

(** Inputs of the closed examples. *)
Definition employer_1 : User.t :=
  User.mk 1 "hr@acme.example" "hash" "employer" "Ada Obi" "0800" "1 Broad St"
    "Lagos" "101001" (65244 # 10000) (33792 # 10000) (Some "Acme") None.

Definition seeker_2 : User.t :=
  User.mk 2 "tunde@mail.example" "hash" "job_seeker" "Tunde Ade" "0801"
    "5 Allen Ave" "Ikeja" "100271" (65244 # 10000) (33792 # 10000) None None.

Definition job_form_1 : JobForm :=
  {| jf_title := "Cashier"; jf_description := "Till work";
     jf_category := "Retail"; jf_employment_type := "full_time";
     jf_salary_min := ""; jf_salary_max := "";
     jf_street_address := "12 Marina Road"; jf_city := "Lagos";
     jf_zip_code := "101001" |}.

Definition register_form_1 : RegisterForm :=
  {| rf_email := "tunde@mail.example"; rf_password := "s3cretpass";
     rf_confirm_password := "s3cretpass"; rf_role := "job_seeker";
     rf_full_name := "Tunde Ade"; rf_phone := "0801";
     rf_address := "5 Allen Ave"; rf_city := "Ikeja"; rf_zip_code := "100271";
     rf_company_name := None; rf_company_description := None |}.

Definition new_title : JobForm :=
  {| jf_title := "Senior cashier"; jf_description := "Till work";
     jf_category := "Retail"; jf_employment_type := "part_time";
     jf_salary_min := ""; jf_salary_max := "";
     jf_street_address := "12 Marina Road"; jf_city := "Lagos";
     jf_zip_code := "101001" |}.

(** Postings for the closed examples.  In [line_world] the distance oracle
    is a toy metric, 111 km per degree of latitude. *)
Definition posting (id : Z) (title : string) (lat : Q) (status : string)
  : JobPosting.t :=
  JobPosting.mk id 1 title "Till work" "Retail" "full_time" None None
    "12 Marina Road" "Lagos" "101001" lat (33792 # 10000) status.

Definition archived_posting : JobPosting.t :=
  JobPosting.mk 7 1 "Cashier" "Till work" "Retail" "full_time" None None
    "12 Marina Road" "Lagos" "101001" (65244 # 10000) (33792 # 10000)
    "archived".

Definition search_db : Database :=
  {| users := [seeker_2];
     job_postings :=
       [posting 1 "Far" (66244 # 10000) "active";
        posting 2 "North" (65344 # 10000) "active";
        posting 3 "Here" (65244 # 10000) "active";
        posting 4 "South" (65144 # 10000) "active";
        posting 5 "Paused" (65244 # 10000) "paused"];
     applications := [] |}.

Definition radius_10 : SearchArgs :=
  {| sa_keyword := None; sa_category := None; sa_radius := Some 10%Q |}.

(** Applications for the closed examples: [n] applications to posting 1
    with status [s], submitted at [0] and last updated after [elapsed]
    microseconds. *)
Definition applications_with (s : string) (elapsed : Z) (n : nat)
  : list Application.t :=
  map (fun i => Application.mk (Z.of_nat i) 1 2 s 0 elapsed) (seq 0 n).

Definition analytics_db (apps : list Application.t) : Database :=
  {| users := [employer_1];
     job_postings :=
       [JobPosting.mk 1 1 "Cashier" "Till work" "Retail" "full_time" None None
          "12 Marina Road" "Lagos" "101001" (65244 # 10000) (33792 # 10000)
          "active"];
     applications := apps |}.

Definition ten_applications : list Application.t :=
  (applications_with "accepted" 86400000000 3
   ++ applications_with "interview" 86400000000 2
   ++ applications_with "rejected" 86400000000 1
   ++ applications_with "applied" 0 4)%list.

(** Three answered applications, two updated at once and one after a day
    and a half. *)
Definition three_answers : list Application.t :=
  (applications_with "interview" 0 2
   ++ applications_with "rejected" 129600000000 1)%list.

(** 80 applications, 31 accepted and 49 rejected. *)
Definition eighty_applications : list Application.t :=
  (applications_with "accepted" 86400000000 31
   ++ applications_with "rejected" 86400000000 49)%list.

Definition south_entry : JobWithDistance :=
  entry_of line_world seeker_2 (posting 4 "South" (65144 # 10000) "active").

Definition rendered_radius_10 : list JobWithDistance :=
  list_sort distance
    (jobs_in_radius line_world seeker_2 10
       (search_query line_world search_db "" "")).

(* ================================================================== *)
(** * Vocabulary of the further properties *)
(* ================================================================== *)

(** The three variables that configure the service area. *)
Definition service_area_variables : list string :=
  ["SERVICE_AREA_CENTER_LAT"; "SERVICE_AREA_CENTER_LNG";
   "SERVICE_AREA_RADIUS_KM"].

(** The user who sends a request. *)
Definition requester (r : request) : User.t :=
  match r with
  | ReqCreateJob u _ _ => u
  | ReqEditJob u _ _ _ => u
  | ReqToggleJobStatus u _ => u
  | ReqArchiveJob u _ => u
  end.

(** Two postings are the same posting at the same place: same primary key,
    same owner, same address and same coordinates. *)
Definition same_place (j j' : JobPosting.t) : Prop :=
  JobPosting.id j' = JobPosting.id j /\
  JobPosting.employer_id j' = JobPosting.employer_id j /\
  JobPosting.street_address j' = JobPosting.street_address j /\
  JobPosting.city j' = JobPosting.city j /\
  JobPosting.zip_code j' = JobPosting.zip_code j /\
  JobPosting.latitude j' = JobPosting.latitude j /\
  JobPosting.longitude j' = JobPosting.longitude j.

(** The two postings agree on every represented column but the status. *)
Definition same_but_status (j j' : JobPosting.t) : Prop :=
  same_place j j' /\
  JobPosting.title j' = JobPosting.title j /\
  JobPosting.description j' = JobPosting.description j /\
  JobPosting.category j' = JobPosting.category j /\
  JobPosting.employment_type j' = JobPosting.employment_type j /\
  JobPosting.salary_min j' = JobPosting.salary_min j /\
  JobPosting.salary_max j' = JobPosting.salary_max j.

(** Primary keys of the postings. *)
Definition posting_ids (db : Database) : list Z :=
  map JobPosting.id (job_postings db).

(** What one request can do to the table of postings. *)
Inductive step_effect (db : Database) (u : User.t) (db' : Database) : Prop :=
| effect_none : db' = db -> step_effect db u db'
| effect_append (p : JobPosting.t) :
    JobPosting.id p = next_id (posting_ids db) ->
    JobPosting.employer_id p = User.id u ->
    db' = {| users := users db;
             job_postings := (job_postings db ++ [p])%list;
             applications := applications db |} ->
    step_effect db u db'
| effect_update (job_id : Z) (j : JobPosting.t)
    (f : JobPosting.t -> JobPosting.t) :
    get_job db job_id = Some j ->
    JobPosting.employer_id j = User.id u ->
    (forall p, same_place p (f p)) ->
    db' = update_job db job_id f ->
    step_effect db u db'.

(** What [create_job] has done when it stored a posting: the database
    [db'] is [db] with one more posting [p]; the requester is an employer;
    the geocoder returned numbers [lat] and [lng], neither of them zero,
    that the service-area check accepts; [p] carries them, is active,
    belongs to the requester and has a fresh primary key. *)
Definition created_inside_area (w : World) (db db' : Database) (u : User.t)
    (form : JobForm) (resp : response) : Prop :=
  exists (p : JobPosting.t) (lat lng : Q),
    db' = {| users := users db;
             job_postings := (job_postings db ++ [p])%list;
             applications := applications db |} /\
    resp = Redirect "employer_dashboard"
             [flash "Job posted successfully!" "success"] /\
    User.role u = "employer" /\
    geocode_address w (jf_street_address form) (jf_city form)
      (jf_zip_code form) = Returned (PNum lat, PNum lng) /\
    ~ (lat == 0)%Q /\ ~ (lng == 0)%Q /\
    is_within_service_area w lat lng = Returned true /\
    JobPosting.latitude p = lat /\ JobPosting.longitude p = lng /\
    JobPosting.status p = "active" /\
    JobPosting.employer_id p = User.id u /\
    ~ In (JobPosting.id p) (posting_ids db).

(** A Mapbox document with two candidates; the first one is at
    [(lat, lng)] and carries an altitude as well. *)
Definition two_candidates (lat lng : Q) : pyval :=
  PDict [("type", PStr "FeatureCollection");
         ("features",
          PList [PDict [("geometry",
                         PDict [("type", PStr "Point");
                                ("coordinates",
                                 PList [PNum lng; PNum lat; PNum 12])])];
                 PDict [("geometry",
                         PDict [("type", PStr "Point");
                                ("coordinates", PList [PNum 1; PNum 2])])]])].

(** A world whose service-area radius is not a number. *)
Definition misconfigured_world : World :=
  {| requests_get := fun _ _ => JsonBody (one_candidate (65244 # 10000) (33792 # 10000));
     getenv := fun name =>
       if String.eqb name "SERVICE_AREA_RADIUS_KM" then Some "fifty" else None;
     py_float := fun _ => Raised ValueError;
     geodesic_km := fun _ _ _ _ => 3%Q;
     ilike := fun _ _ => true;
     generate_password_hash := fun s => s |}.

Definition active_posting : JobPosting.t :=
  JobPosting.mk 8 1 "Driver" "Deliveries" "Logistics" "full_time" None None
    "3 Harbour Rd" "Lagos" "101001" (65244 # 10000) (33792 # 10000) "active".

Definition employer_3 : User.t :=
  User.mk 3 "jobs@other.example" "hash" "employer" "Bola Eze" "0803"
    "9 Ring Rd" "Ibadan" "200001" (73775 # 10000) (39470 # 10000)
    (Some "Other") None.

Definition two_postings_db : Database :=
  {| users := [employer_1; employer_3];
     job_postings := [archived_posting; active_posting];
     applications := [] |}.

(** A world in which the geocoder finds every address 3 km from the centre
    of the service area. *)
Definition lagos_world : World :=
  sample_world (JsonBody (one_candidate (65244 # 10000) (33792 # 10000))) 3.

Definition cashier_posting : JobPosting.t :=
  JobPosting.mk 1 1 "Cashier" "Till work" "Retail" "full_time" None None
    "12 Marina Road" "Lagos" "101001" (65244 # 10000) (33792 # 10000) "active".

Definition one_posting_db : Database :=
  {| users := []; job_postings := [cashier_posting]; applications := [] |}.

(** Requests of the owner of posting 8, and requests of another employer
    aimed at it. *)
Definition owner_requests : list request :=
  [ReqCreateJob employer_1 POST job_form_1;
   ReqEditJob employer_1 8 POST new_title;
   ReqToggleJobStatus employer_1 8;
   ReqArchiveJob employer_1 8].

Definition intruder_requests : list request :=
  [ReqEditJob employer_3 8 POST new_title;
   ReqToggleJobStatus employer_3 8;
   ReqArchiveJob employer_3 8;
   ReqCreateJob employer_3 POST job_form_1].

(* ================================================================== *)
(** * Vocabulary of the properties of the further routes *)
(* ================================================================== *)

(** The spellings of the extension that [allowed_file] lets through. *)
Definition pdf_spellings : list string :=
  ["pdf"; "pdF"; "pDf"; "pDF"; "Pdf"; "PdF"; "PDf"; "PDF"].

(** Number of resumes that user [uid] has stored. *)
Definition resume_count_of (uid : Z) (store : ResumeStore) : nat :=
  List.length (filter (fun r => Z.eqb (Resume.user_id r) uid) (resumes store)).

(** One upload request: who sends it, the file name and the clock text. *)
Record upload : Type := {
  up_user : User.t;
  up_file : option string;
  up_timestamp : string
}.

(** The store after a sequence of uploads. *)
Definition run_uploads (secure_filename : string -> string)
    (store : ResumeStore) (ups : list upload) : ResumeStore :=
  fold_left
    (fun st up =>
       fst (upload_resume secure_filename st (up_user up) (up_file up)
              (up_timestamp up)))
    ups store.

(** Requests that write the [applications] table. *)
Inductive application_request : Type :=
| ReqApply (current_user : User.t) (job_id : Z) (method : http_method)
    (resume_accepted : bool) (submitted updated : Z)
| ReqUpdateStatus (current_user : User.t) (application_id : Z)
    (new_status : string) (now : Z).

(** The database after a request: a refused transaction changes nothing. *)
Definition settled (db : Database) (r : reply Database) : Database :=
  match r with
  | Served db' _ => db'
  | ServerError => db
  end.

Definition application_step (db : Database) (r : application_request)
  : Database :=
  match r with
  | ReqApply u j m ok t1 t2 => settled db (apply_job db u j m ok t1 t2)
  | ReqUpdateStatus u a s now =>
      settled db (update_application_status db u a s now)
  end.

Definition run_applications (db : Database) (rs : list application_request)
  : Database :=
  fold_left application_step rs db.

(** Who applied to what. *)
Definition application_keys (db : Database) : list (Z * Z) :=
  map (fun a => (Application.job_id a, Application.applicant_id a))
    (applications db).

(** Value of key [k] in a dict of counters, 0 when the key is absent. *)
Fixpoint counter_get (k : string) (d : list (string * nat)) : nat :=
  match d with
  | [] => 0%nat
  | (k', n) :: rest => if String.eqb k' k then n else counter_get k rest
  end.

(** Sum of the values of a dict of counters. *)
Definition counter_total (d : list (string * nat)) : nat :=
  fold_right (fun kv acc => (snd kv + acc)%nat) 0%nat d.

(** Value of key [k] in a dict of counters, if the key is present. *)
Fixpoint counter_lookup (k : string) (d : list (string * nat)) : option nat :=
  match d with
  | [] => None
  | (k', n) :: rest => if String.eqb k' k then Some n else counter_lookup k rest
  end.

(** The last of [jobs] with title [t]: the posting whose count the dict
    [job_popularity] holds for [t] after the loop. *)
Definition last_titled (jobs : list JobPosting.t) (t : string)
  : option JobPosting.t :=
  find (fun j => String.eqb (JobPosting.title j) t) (rev jobs).

(** The postings of an employer, as [analytics] queries them. *)
Definition postings_of (db : Database) (employer : Z) : list JobPosting.t :=
  filter (fun j => Z.eqb (JobPosting.employer_id j) employer) (job_postings db).

(** ** Data of the closed examples *)

Definition no_resumes : ResumeStore := {| resumes := []; upload_folder := [] |}.

Definition keep_name (s : string) : string := s.

Definition five_uploads : list upload :=
  [{| up_user := seeker_2; up_file := Some "cv.pdf"; up_timestamp := "1.5" |};
   {| up_user := seeker_2; up_file := Some "cv.PDF"; up_timestamp := "2.5" |};
   {| up_user := seeker_2; up_file := Some "cv.pdf.exe"; up_timestamp := "3.5" |};
   {| up_user := seeker_2; up_file := Some "old.pdf"; up_timestamp := "4.5" |};
   {| up_user := seeker_2; up_file := Some "new.pdf"; up_timestamp := "5.5" |}].

Definition applied_once : Application.t :=
  Application.mk 1 1 2 "applied" 1000 1001.

Definition one_application_db : Database :=
  {| users := [employer_1; seeker_2];
     job_postings :=
       [JobPosting.mk 1 1 "Cashier" "Till work" "Retail" "full_time" None None
          "12 Marina Road" "Lagos" "101001" (65244 # 10000) (33792 # 10000)
          "archived"];
     applications := [] |}.

Definition apply_then_answer : list application_request :=
  [ReqApply seeker_2 1 POST true 1000 1001;
   ReqApply seeker_2 1 POST true 2000 2001;
   ReqUpdateStatus employer_1 1 "interview" 172800001000].

Definition applied_db : Database :=
  {| users := users one_application_db;
     job_postings := job_postings one_application_db;
     applications := [applied_once] |}.

(** Requests that write the [users] table. *)
Inductive user_request : Type :=
| ReqRegister (form : RegisterForm)
| ReqEditProfile (current_user : User.t) (method : http_method)
    (form : ProfileForm).

Definition user_step (w : World) (db : Database) (r : user_request)
  : Database :=
  match r with
  | ReqRegister form => committed db (register w db None POST form)
  | ReqEditProfile u m form => committed db (edit_profile w db u m form)
  end.

Definition run_users (w : World) (db : Database) (rs : list user_request)
  : Database :=
  fold_left (user_step w) rs db.

(** Every stored user has coordinates, neither of which is zero. *)
Definition located (u : User.t) : Prop :=
  ~ (User.latitude u == 0)%Q /\ ~ (User.longitude u == 0)%Q.

Definition users_well_formed (db : Database) : Prop :=
  NoDup (map User.email (users db)) /\ NoDup (map User.id (users db)) /\
  Forall located (users db).

(** What [register] has done when it created an account. *)
Definition registered (w : World) (db db' : Database) (form : RegisterForm)
    (user : User.t) : Prop :=
  db' = {| users := (users db ++ [user])%list;
           job_postings := job_postings db;
           applications := applications db |} /\
  User.id user = next_id (map User.id (users db)) /\
  User.email user = rf_email form /\
  User.password_hash user = generate_password_hash w (rf_password form) /\
  User.role user = rf_role form /\
  located user /\
  ~ In (rf_email form) (map User.email (users db)) /\
  rf_confirm_password form = rf_password form /\
  (8 <= String.length (rf_password form))%nat.

(** The form of [/profile/edit] keeps the address of the user. *)
Definition same_address (u : User.t) (form : ProfileForm) : Prop :=
  pf_address form = User.address u /\ pf_city form = User.city u /\
  pf_zip_code form = User.zip_code u.

(** Row [i] of the [users] table has the same address and coordinates in
    both databases. *)
Definition same_location (u u' : User.t) : Prop :=
  User.address u' = User.address u /\ User.city u' = User.city u /\
  User.zip_code u' = User.zip_code u /\
  User.latitude u' = User.latitude u /\ User.longitude u' = User.longitude u.

Definition profile_form_1 : ProfileForm :=
  {| pf_full_name := "Tunde A. Ade"; pf_phone := "0809";
     pf_address := "5 Allen Ave"; pf_city := "Ikeja"; pf_zip_code := "100271";
     pf_company_name := None; pf_company_description := None |}.

Definition profile_form_moved : ProfileForm :=
  {| pf_full_name := "Tunde A. Ade"; pf_phone := "0809";
     pf_address := "1 Nowhere St"; pf_city := "Ikeja"; pf_zip_code := "100271";
     pf_company_name := None; pf_company_description := None |}.

Definition seekers_db : Database :=
  {| users := [seeker_2]; job_postings := []; applications := [] |}.

(** The password check that accepts the text that was hashed; in the
    example worlds the hash of a text is the text. *)
Definition plain_check (hash password : string) : bool :=
  String.eqb hash password.

(** The account that [register_form_1] creates in the empty database. *)
Definition new_seeker : User.t :=
  User.mk 1 "tunde@mail.example" "s3cretpass" "job_seeker" "Tunde Ade" "0801"
    "5 Allen Ave" "Ikeja" "100271" (65244 # 10000) (33792 # 10000) None None.

Definition registered_db : Database :=
  {| users := [new_seeker]; job_postings := []; applications := [] |}.

(** Two postings of employer 1 with distinct titles, three applications to
    the first and one to the second. *)
Definition popular_db : Database :=
  {| users := [];
     job_postings :=
       [JobPosting.mk 1 1 "Cashier" "Till work" "Retail" "full_time" None None
          "12 Marina Road" "Lagos" "101001" (65244 # 10000) (33792 # 10000)
          "active";
        JobPosting.mk 2 1 "Clerk" "Desk work" "Office" "full_time" None None
          "12 Marina Road" "Lagos" "101001" (65244 # 10000) (33792 # 10000)
          "paused"];
     applications :=
       [Application.mk 1 1 2 "applied" 1000 1000;
        Application.mk 2 1 3 "accepted" 1000 2000;
        Application.mk 3 2 2 "applied" 1000 1000;
        Application.mk 4 1 4 "rejected" 1000 3000] |}.

Module PyNumFacts.
Import PyNum.

Lemma round_half_even_cases (q : Q) :
  let n := Qnum q in let d := Zpos (Qden q) in
  (round_half_even q = (n / d)%Z /\ (2 * (n mod d) <= d)%Z) \/
  (round_half_even q = (n / d + 1)%Z /\ (d <= 2 * (n mod d))%Z).
Proof.
  unfold round_half_even; cbv zeta.
  destruct (Z.compare_spec (2 * (Qnum q mod Z.pos (Qden q))) (Z.pos (Qden q))) as [E|E|E].
  - destruct (Z.even _); [left|right]; split; lia.
  - left; split; lia.
  - right; split; lia.
Qed.

Lemma round_half_even_near (q : Q) :
  inject_Z (round_half_even q) - q <= 1 # 2 /\
  q - inject_Z (round_half_even q) <= 1 # 2.
Proof.
  destruct (round_half_even_cases q) as [[E H]|[E H]]; rewrite E; clear E;
    destruct q as [n d]; cbn [Qnum Qden] in *;
    pose proof (Z.div_mod n (Z.pos d) ltac:(lia)) as Hdm;
    pose proof (Z.mod_pos_bound n (Z.pos d) ltac:(lia)) as Hb;
    unfold Qle, Qminus, Qplus, Qopp, inject_Z; cbn [Qnum Qden];
    rewrite ?Pos.mul_1_r; split; nia.
Qed.

Lemma round_half_even_Z (z : Z) : round_half_even (inject_Z z) = z.
Proof.
  unfold round_half_even, inject_Z; simpl.
  rewrite Z.div_1_r, Z.mod_1_r. reflexivity.
Qed.


Lemma two_neq_0 : ~ 2 == 0.
Proof. discriminate. Qed.

Lemma pow2_pos (e : Z) : 0 < 2 ^ e.
Proof. apply Qpower_0_lt. reflexivity. Qed.

Lemma pow2_plus (a b : Z) : 2 ^ (a + b) == 2 ^ a * 2 ^ b.
Proof. apply Qpower_plus, two_neq_0. Qed.

Lemma pow2_succ (a : Z) : 2 ^ (a + 1) == 2 * 2 ^ a.
Proof. rewrite pow2_plus. change (2 ^ 1) with 2. ring. Qed.

Lemma pow2_inject (e : Z) : (0 <= e)%Z -> 2 ^ e == inject_Z (2 ^ e).
Proof. intros H. rewrite Zpower_Qpower by assumption. reflexivity. Qed.

Lemma log2_bounds_Q (n : Z) :
  (0 < n)%Z ->
  2 ^ Z.log2 n <= inject_Z n /\ inject_Z n < 2 ^ (Z.log2 n + 1).
Proof.
  intros Hn.
  pose proof (Z.log2_nonneg n) as H0.
  destruct (Z.log2_spec n Hn) as [Hl Hu].
  rewrite !pow2_inject by lia. split.
  - rewrite <- Zle_Qle. exact Hl.
  - rewrite <- Zlt_Qlt. replace (Z.log2 n + 1)%Z with (Z.succ (Z.log2 n)) by lia.
    exact Hu.
Qed.

Lemma ilog2_spec (q : Q) :
  0 < q -> 2 ^ ilog2 q <= q /\ q < 2 ^ (ilog2 q + 1).
Proof.
  intros Hq. unfold ilog2.
  set (s := (Z.log2 (Qnum q) - Z.log2 (Z.pos (Qden q)))%Z).
  assert (Hn : (0 < Qnum q)%Z).
  { destruct q as [n d]. unfold Qlt in Hq. simpl in *. lia. }
  destruct (log2_bounds_Q Hn) as [Hn1 Hn2].
  destruct (log2_bounds_Q (n:=Z.pos (Qden q)) ltac:(lia)) as [Hd1 Hd2].
  assert (Hq' : q * inject_Z (Z.pos (Qden q)) == inject_Z (Qnum q)).
  { destruct q as [n d]. unfold Qeq, Qmult, inject_Z. simpl. lia. }
  assert (Hdpos : 0 < inject_Z (Z.pos (Qden q))).
  { change 0 with (inject_Z 0). rewrite <- Zlt_Qlt. lia. }
  set (D := inject_Z (Z.pos (Qden q))) in *.
  set (N := inject_Z (Qnum q)) in *.
  set (lD := Z.log2 (Z.pos (Qden q))) in *.
  set (lN := Z.log2 (Qnum q)) in *.
  assert (Hlo : 2 ^ (s - 1) < q).
  { apply Qmult_lt_r with (z := D); [assumption|].
    rewrite Hq'. apply Qlt_le_trans with (y := 2 ^ lN); [|assumption].
    replace lN with ((s - 1) + (lD + 1))%Z by (unfold s; lia).
    rewrite pow2_plus. apply Qmult_lt_l; [apply pow2_pos|assumption]. }
  assert (Hhi : q < 2 ^ (s + 1)).
  { apply Qmult_lt_r with (z := D); [assumption|].
    rewrite Hq'. apply Qlt_le_trans with (y := 2 ^ (lN + 1)); [assumption|].
    replace (lN + 1)%Z with ((s + 1) + lD)%Z by (unfold s; lia).
    rewrite pow2_plus. apply Qmult_le_l; [apply pow2_pos|assumption]. }
  destruct (Qle_bool (2 ^ s) q) eqn:E.
  - split; [apply Qle_bool_iff; exact E|exact Hhi].
  - split; [apply Qlt_le_weak; exact Hlo|].
    replace (s - 1 + 1)%Z with s by lia.
    apply Qnot_le_lt. intros H. apply Qle_bool_iff in H. congruence.
Qed.

Lemma scaled_significand (q : Q) :
  0 < q ->
  let e := (ilog2 q - 52)%Z in
  q / 2 ^ e * 2 ^ e == q /\ inject_Z (2 ^ 52) <= q / 2 ^ e /\
  q / 2 ^ e < inject_Z (2 ^ 53).
Proof.
  intros Hq e.
  pose proof (pow2_pos e) as HP.
  destruct (ilog2_spec Hq) as [Hlo Hhi].
  assert (E1 : 2 ^ ilog2 q == inject_Z (2 ^ 52) * 2 ^ e).
  { replace (ilog2 q) with (52 + e)%Z at 1 by (unfold e; lia).
    rewrite pow2_plus. reflexivity. }
  assert (E2 : 2 ^ (ilog2 q + 1) == inject_Z (2 ^ 53) * 2 ^ e).
  { replace (ilog2 q + 1)%Z with (53 + e)%Z at 1 by (unfold e; lia).
    rewrite pow2_plus. reflexivity. }
  assert (Hne : ~ 2 ^ e == 0) by (intros H; rewrite H in HP; discriminate).
  split; [field; exact Hne|]. split.
  - apply Qle_shift_div_l; [exact HP|]. rewrite <- E1. exact Hlo.
  - apply Qlt_shift_div_r; [exact HP|]. rewrite <- E2. exact Hhi.
Qed.

Lemma fl_pos_error (q : Q) :
  0 < q -> fl_pos q - q <= q * u64 /\ q - fl_pos q <= q * u64.
Proof.
  intros Hq. unfold fl_pos.
  destruct (scaled_significand Hq) as (Ht & Hlo & _).
  set (e := (ilog2 q - 52)%Z) in *.
  set (t := q / 2 ^ e) in *.
  pose proof (pow2_pos e) as HP.
  destruct (round_half_even_near t) as [H1 H2].
  set (m := inject_Z (round_half_even t)) in *.
  assert (Hu : (1 # 2) <= t * u64).
  { apply Qle_trans with (y := inject_Z (2 ^ 52) * u64); [discriminate|].
    apply Qmult_le_compat_r; [exact Hlo|discriminate]. }
  split.
  - setoid_replace (m * 2 ^ e - q) with ((m - t) * 2 ^ e)
      by (rewrite <- Ht at 1; ring).
    setoid_replace (q * u64) with (t * u64 * 2 ^ e)
      by (rewrite <- Ht at 1; ring).
    apply Qmult_le_compat_r; [|apply Qlt_le_weak; exact HP].
    eapply Qle_trans; eassumption.
  - setoid_replace (q - m * 2 ^ e) with ((t - m) * 2 ^ e)
      by (rewrite <- Ht at 1; ring).
    setoid_replace (q * u64) with (t * u64 * 2 ^ e)
      by (rewrite <- Ht at 1; ring).
    apply Qmult_le_compat_r; [|apply Qlt_le_weak; exact HP].
    eapply Qle_trans; eassumption.
Qed.

Lemma fl_0 (q : Q) : q == 0 -> fl q = 0.
Proof.
  intros H. unfold fl. rewrite (Qeq_alt q 0) in H. rewrite H. reflexivity.
Qed.

Lemma fl_of_pos (q : Q) : 0 < q -> fl q == fl_pos q.
Proof.
  intros H. unfold fl. rewrite (Qgt_alt q 0) in H. rewrite H.
  apply Qred_correct.
Qed.

Lemma fl_of_neg (q : Q) : q < 0 -> fl q == - fl_pos (- q).
Proof.
  intros H. unfold fl. rewrite (Qlt_alt q 0) in H. rewrite H.
  apply Qred_correct.
Qed.

(** Relative error of one rounding, for a non-negative argument. *)
Lemma fl_error_nonneg (q : Q) :
  0 <= q -> fl q - q <= q * u64 /\ q - fl q <= q * u64.
Proof.
  intros H. apply Qle_lt_or_eq in H. destruct H as [H|H].
  - rewrite (fl_of_pos H). apply fl_pos_error. exact H.
  - rewrite (fl_0 (Qeq_sym _ _ H)). rewrite <- H. split; discriminate.
Qed.

Lemma fl_nonneg (q : Q) : 0 <= q -> 0 <= fl q.
Proof.
  intros H. destruct (fl_error_nonneg H) as [_ H2].
  assert (H3 : 0 <= q * (1 - u64)).
  { apply Qmult_le_0_compat; [exact H|discriminate]. }
  lra.
Qed.


(** ** Monotonicity *)

Lemma round_half_even_tie (q : Q) :
  inject_Z (round_half_even q) - q == 1 # 2 \/
  q - inject_Z (round_half_even q) == 1 # 2 ->
  Z.even (round_half_even q) = true.
Proof.
  unfold round_half_even. cbv zeta.
  destruct q as [n d]. cbn [Qnum Qden].
  pose proof (Z.div_mod n (Z.pos d) ltac:(lia)) as Hdm.
  pose proof (Z.mod_pos_bound n (Z.pos d) ltac:(lia)) as Hb.
  unfold Qeq, Qminus, Qplus, Qopp, inject_Z; cbn [Qnum Qden].
  rewrite ?Pos.mul_1_r.
  destruct (Z.compare_spec (2 * (n mod Z.pos d)) (Z.pos d)) as [E|E|E].
  - intros _. destruct (Z.even (n / Z.pos d)) eqn:Ev; [exact Ev|].
    rewrite Z.even_add, Ev. reflexivity.
  - intros [H|H]; exfalso; nia.
  - intros [H|H]; exfalso; nia.
Qed.

Lemma round_half_even_mono (x y : Q) :
  x <= y -> (round_half_even x <= round_half_even y)%Z.
Proof.
  intros Hxy.
  destruct (Z_le_gt_dec (round_half_even x) (round_half_even y)) as [H|H];
    [exact H|exfalso].
  destruct (round_half_even_near x) as [Hx _].
  destruct (round_half_even_near y) as [_ Hy].
  assert (Hk : inject_Z (round_half_even y) + 1 <= inject_Z (round_half_even x)).
  { change 1 with (inject_Z 1). rewrite <- inject_Z_plus, <- Zle_Qle. lia. }
  assert (Ex : inject_Z (round_half_even x) - x == 1 # 2) by lra.
  assert (Ey : y - inject_Z (round_half_even y) == 1 # 2) by lra.
  assert (Ek : inject_Z (round_half_even x)
               == inject_Z (round_half_even y + 1)).
  { rewrite inject_Z_plus. change (inject_Z 1) with 1. lra. }
  apply -> inject_Z_injective in Ek.
  pose proof (round_half_even_tie (or_introl Ex)) as Evx.
  pose proof (round_half_even_tie (or_intror Ey)) as Evy.
  rewrite Ek, Z.even_add, Evy in Evx. discriminate.
Qed.

Lemma ilog2_mono (x y : Q) : 0 < x -> x <= y -> (ilog2 x <= ilog2 y)%Z.
Proof.
  intros Hx Hxy.
  destruct (ilog2_spec Hx) as [Hlo _].
  destruct (ilog2_spec (Qlt_le_trans _ _ _ Hx Hxy)) as [_ Hhi].
  assert (H : 2 ^ ilog2 x < 2 ^ (ilog2 y + 1)) by lra.
  apply Qpower_lt_compat_l_inv in H; [lia|reflexivity].
Qed.

Lemma fl_pos_mono (x y : Q) : 0 < x -> x <= y -> fl_pos x <= fl_pos y.
Proof.
  intros Hx Hxy.
  assert (Hy : 0 < y) by lra.
  pose proof (ilog2_mono Hx Hxy) as He.
  destruct (scaled_significand Hx) as (Etx & _ & Hx53).
  destruct (scaled_significand Hy) as (Ety & Hy52 & _).
  unfold fl_pos.
  set (ex := (ilog2 x - 52)%Z) in *. set (ey := (ilog2 y - 52)%Z) in *.
  set (tx := x / 2 ^ ex) in *. set (ty := y / 2 ^ ey) in *.
  pose proof (pow2_pos ex) as Px. pose proof (pow2_pos ey) as Py.
  destruct (Z.eq_dec (ilog2 x) (ilog2 y)) as [E|E].
  - assert (Eey : ey = ex) by (unfold ex, ey; lia).
    unfold ty. rewrite Eey. fold tx.
    apply Qmult_le_compat_r; [|lra].
    rewrite <- Zle_Qle. apply round_half_even_mono.
    unfold tx. apply Qmult_le_r with (z := 2 ^ ex); [exact Px|].
    fold tx. rewrite Etx.
    setoid_replace (y / 2 ^ ex * 2 ^ ex) with y by (field; lra).
    exact Hxy.
  - assert (Hmx : inject_Z (round_half_even tx) <= inject_Z (2 ^ 53)).
    { rewrite <- Zle_Qle. rewrite <- (round_half_even_Z (2 ^ 53)).
      apply round_half_even_mono. lra. }
    assert (Hmy : inject_Z (2 ^ 52) <= inject_Z (round_half_even ty)).
    { rewrite <- Zle_Qle. rewrite <- (round_half_even_Z (2 ^ 52)).
      apply round_half_even_mono. exact Hy52. }
    apply Qle_trans with (y := inject_Z (2 ^ 53) * 2 ^ ex);
      [apply Qmult_le_compat_r; lra|].
    apply Qle_trans with (y := inject_Z (2 ^ 52) * 2 ^ ey);
      [|apply Qmult_le_compat_r; lra].
    change (inject_Z (2 ^ 53)) with (2 ^ 53). change (inject_Z (2 ^ 52)) with (2 ^ 52).
    rewrite <- !pow2_plus.
    apply Qpower_le_compat_l; [unfold ex, ey; lia|discriminate].
Qed.

Lemma fl_pos_nonneg (x : Q) : 0 < x -> 0 <= fl_pos x.
Proof.
  intros Hx. rewrite <- (fl_of_pos Hx). apply fl_nonneg. lra.
Qed.

Lemma fl_mono (x y : Q) : x <= y -> fl x <= fl y.
Proof.
  intros Hxy.
  destruct (Q_dec x 0) as [[Hx|Hx]|Hx]; destruct (Q_dec y 0) as [[Hy|Hy]|Hy].
  - rewrite (fl_of_neg Hx), (fl_of_neg Hy).
    assert (fl_pos (- y) <= fl_pos (- x)) by (apply fl_pos_mono; lra). lra.
  - rewrite (fl_of_neg Hx).
    assert (0 <= fl_pos (- x)) by (apply fl_pos_nonneg; lra).
    assert (0 <= fl y) by (apply fl_nonneg; lra). lra.
  - rewrite (fl_of_neg Hx), (fl_0 Hy).
    assert (0 <= fl_pos (- x)) by (apply fl_pos_nonneg; lra). lra.
  - lra.
  - rewrite (fl_of_pos Hx), (fl_of_pos Hy). apply fl_pos_mono; assumption.
  - lra.
  - lra.
  - rewrite (fl_0 Hx). apply fl_nonneg. lra.
  - rewrite (fl_0 Hx), (fl_0 Hy). lra.
Qed.

Lemma pow10_pos (nd : nat) : 0 < inject_Z (10 ^ Z.of_nat nd).
Proof.
  change 0 with (inject_Z 0). rewrite <- Zlt_Qlt.
  apply Z.pow_pos_nonneg; lia.
Qed.

Lemma round_digits_mono (x y : Q) (nd : nat) :
  x <= y -> (round_digits x nd <= round_digits y nd)%Z.
Proof.
  intros H. unfold round_digits. apply round_half_even_mono.
  apply Qmult_le_compat_r; [exact H|]. apply Qlt_le_weak, pow10_pos.
Qed.

(** [round(., nd)] is monotone. *)
Lemma round_mono (x y : Q) (nd : nat) : x <= y -> round x nd <= round y nd.
Proof.
  intros H. unfold round. apply fl_mono.
  pose proof (pow10_pos nd) as Hp.
  pose proof (round_digits_mono nd H) as Hk. rewrite Zle_Qle in Hk.
  unfold Qdiv. apply Qmult_le_compat_r; [exact Hk|].
  apply Qlt_le_weak, Qinv_lt_0_compat, Hp.
Qed.

(** ** Error of [round(., 2)] *)

(** One rounding moves a number up by at most [u64] times its size. *)
Lemma fl_excess (q : Q) : fl q - q <= Qabs q * u64.
Proof.
  destruct (Qlt_le_dec q 0) as [Hneg|Hpos].
  - rewrite (fl_of_neg Hneg).
    assert (Hq : 0 < - q) by lra.
    destruct (fl_pos_error Hq) as [_ H].
    rewrite (Qabs_neg q) by lra. lra.
  - destruct (fl_error_nonneg Hpos) as [H _].
    rewrite (Qabs_pos q) by exact Hpos. exact H.
Qed.

(** [round(x, 2)] exceeds [x] by half a hundredth at most, up to the
    rounding of the result to a double. *)
Lemma round_2_excess (x : Q) :
  round x 2 - x <= (1 # 200) + (Qabs x + (1 # 200)) * u64.
Proof.
  unfold round, round_digits.
  change (inject_Z (10 ^ Z.of_nat 2)) with (100 # 1).
  destruct (round_half_even_near (x * (100 # 1))) as [H1 H2].
  set (k := inject_Z (round_half_even (x * (100 # 1)))) in *.
  assert (Hy : k / (100 # 1) == k * (1 # 100)) by (unfold Qdiv; reflexivity).
  pose proof (fl_excess (k / (100 # 1))) as Hfl.
  set (z := fl (k / (100 # 1))) in *. clearbody z.
  assert (Habs : Qabs (k / (100 # 1)) <= Qabs x + (1 # 200)).
  { rewrite Hy. apply Qabs_Qle_condition. split.
    - destruct (Qlt_le_dec x 0) as [Hx|Hx].
      + rewrite (Qabs_neg x) by lra. lra.
      + rewrite (Qabs_pos x) by exact Hx. lra.
    - destruct (Qlt_le_dec x 0) as [Hx|Hx].
      + rewrite (Qabs_neg x) by lra. lra.
      + rewrite (Qabs_pos x) by exact Hx. lra. }
  rewrite Hy in Hfl.
  set (a := Qabs (k / (100 # 1))) in *.
  assert (Ha : Qabs (k * (1 # 100)) == a) by (unfold a; rewrite Hy; reflexivity).
  rewrite Ha in Hfl.
  set (b := Qabs x) in *. clearbody a b k.
  assert (Hu : a * u64 <= (b + (1 # 200)) * u64).
  { apply Qmult_le_compat_r; [exact Habs|discriminate]. }
  lra.
Qed.

End PyNumFacts.

(* ================================================================== *)
(** * The geocoder *)
(* ================================================================== *)

Section GeocoderFacts.

Variable w : World.

Lemma try_except_returns (A : Type) (body : result A) (h : exn -> A) :
  exists v, try_except body (fun e => Returned (h e)) = Returned v.
Proof. destruct body; simpl; eauto. Qed.

Lemma geocode_address_total (address city zip_code : string) :
  exists v, geocode_address w address city zip_code = Returned v.
Proof.
  unfold geocode_address.
  apply try_except_returns with (h := fun _ => unresolved).
Qed.

Lemma first_candidate_empty (data : pyval) :
  getitem_key data "features" = Returned (PList []) ->
  first_candidate data = Returned unresolved.
Proof. intros H. unfold first_candidate. rewrite H. reflexivity. Qed.

Lemma geocode_address_no_candidate (address city zip_code : string) :
  no_candidate
    (requests_get w (geocode_url address city zip_code) (geocode_params w)) ->
  geocode_address w address city zip_code = Returned unresolved.
Proof.
  intros H. unfold geocode_address. cbv zeta.
  inversion H as [e E|e E|data Hf E|data e Hf E]; clear H; simpl.
  - reflexivity.
  - reflexivity.
  - rewrite (first_candidate_empty _ Hf). reflexivity.
  - rewrite Hf. reflexivity.
Qed.

(** When the document has a first candidate, its coordinates are what the
    geocoder returns. *)
Lemma geocode_address_candidate (address city zip_code : string)
    (data lat lng : pyval) :
  requests_get w (geocode_url address city zip_code) (geocode_params w)
    = JsonBody data ->
  first_candidate data = Returned (lat, lng) ->
  geocode_address w address city zip_code = Returned (lat, lng).
Proof.
  intros Hr Hc. unfold geocode_address. cbv zeta. rewrite Hr. simpl.
  rewrite Hc. reflexivity.
Qed.

End GeocoderFacts.

(** C4.  Whatever the provider does, [geocode_address] returns a value and
    raises nothing; after a transport failure, an undecodable body, an empty
    candidate list or a document of an unexpected shape, the value is the
    unresolved pair [(None, None)]. *)
Theorem geocode_address_unresolved_never_raises :
  forall (w : World) (address city zip_code : string),
    (exists v, geocode_address w address city zip_code = Returned v) /\
    (no_candidate
       (requests_get w (geocode_url address city zip_code) (geocode_params w)) ->
     geocode_address w address city zip_code = Returned (PNone, PNone)).
Proof.
  intros w address city zip_code. split.
  - apply geocode_address_total.
  - apply geocode_address_no_candidate.
Qed.

Lemma geocode_address_unresolved_never_raises_witness :
  no_candidate
    (requests_get (sample_world (JsonBody no_candidates) 0)
       (geocode_url "12 Marina Road" "Lagos" "101001")
       (geocode_params (sample_world (JsonBody no_candidates) 0))) /\
  geocode_address (sample_world (JsonBody no_candidates) 0)
    "12 Marina Road" "Lagos" "101001" = Returned (PNone, PNone).
Proof.
  assert (H : no_candidate
    (requests_get (sample_world (JsonBody no_candidates) 0)
       (geocode_url "12 Marina Road" "Lagos" "101001")
       (geocode_params (sample_world (JsonBody no_candidates) 0)))).
  { apply nc_empty. reflexivity. }
  split; [exact H|].
  exact (proj2 (geocode_address_unresolved_never_raises
                  (sample_world (JsonBody no_candidates) 0)
                  "12 Marina Road" "Lagos" "101001") H).
Defined.

(* ================================================================== *)
(** * Address verification and the service area *)
(* ================================================================== *)

Lemma resolved_guard (lat lng : pyval) :
  negb (truthy lat) || negb (truthy lng) = negb (resolved (lat, lng)).
Proof. unfold resolved. simpl. destruct (truthy lat), (truthy lng); reflexivity. Qed.

Lemma truthy_zero (q : Q) : (q == 0)%Q -> truthy (PNum q) = false.
Proof.
  intros H. simpl. unfold PyNum.is_zero.
  rewrite (Qeq_eq_bool _ _ H). reflexivity.
Qed.

Lemma truthy_nonzero (q : Q) : ~ (q == 0)%Q -> truthy (PNum q) = true.
Proof.
  intros H. simpl. unfold PyNum.is_zero.
  destruct (Qeq_bool q 0) eqn:E; [|reflexivity].
  apply Qeq_bool_eq in E. contradiction.
Qed.

Lemma unresolved_zero (lat lng : Q) :
  (lat == 0 \/ lng == 0)%Q -> resolved (PNum lat, PNum lng) = false.
Proof.
  intros [H|H]; unfold resolved; cbn [fst snd]; rewrite (truthy_zero H).
  - reflexivity.
  - apply andb_false_r.
Qed.

Lemma flash_messages_differ : service_area_error <> address_error.
Proof. discriminate. Qed.

Section CallSites.

Variable w : World.

Lemma register_unresolved (db : Database) (form : RegisterForm)
    (geo : pyval * pyval) :
  rf_password form = rf_confirm_password form ->
  (8 <= String.length (rf_password form))%nat ->
  existsb (fun u => String.eqb (User.email u) (rf_email form)) (users db)
    = false ->
  geocode_address w (rf_address form) (rf_city form) (rf_zip_code form)
    = Returned geo ->
  resolved geo = false ->
  register w db None POST form
    = Returned (db, Redirect "register" [address_error]).
Proof.
  intros Hpw Hlen Hnew Hgeo Hres. unfold register.
  rewrite Hpw, String.eqb_refl. cbn [negb].
  destruct (Nat.ltb_spec (String.length (rf_confirm_password form)) 8) as [Hlt|_].
  - rewrite Hpw in Hlen. lia.
  - rewrite Hnew, Hgeo. destruct geo as [lat lng]. cbn [bind].
    rewrite resolved_guard, Hres. reflexivity.
Qed.

Lemma create_job_unresolved (db : Database) (u : User.t) (form : JobForm)
    (geo : pyval * pyval) :
  User.role u = "employer" ->
  geocode_address w (jf_street_address form) (jf_city form) (jf_zip_code form)
    = Returned geo ->
  resolved geo = false ->
  create_job w db u POST form
    = Returned (db, Redirect "create_job" [address_error]).
Proof.
  intros Hrole Hgeo Hres. unfold create_job.
  rewrite Hrole. change (negb ("employer" =? "employer")) with false. cbv iota.
  rewrite Hgeo. destruct geo as [lat lng]. cbn [bind].
  rewrite resolved_guard, Hres. reflexivity.
Qed.

Lemma is_within_service_area_spec (clat clng rad lat lng : Q) :
  getenv_float w "SERVICE_AREA_CENTER_LAT" 0 = Returned clat ->
  getenv_float w "SERVICE_AREA_CENTER_LNG" 0 = Returned clng ->
  getenv_float w "SERVICE_AREA_RADIUS_KM" 50 = Returned rad ->
  is_within_service_area w lat lng
    = Returned (Qle_bool (calculate_distance w clat clng lat lng) rad).
Proof.
  intros H1 H2 H3. unfold is_within_service_area.
  rewrite H1, H2, H3. reflexivity.
Qed.

Lemma create_job_outside (db : Database) (u : User.t) (form : JobForm)
    (lat lng : Q) :
  User.role u = "employer" ->
  geocode_address w (jf_street_address form) (jf_city form) (jf_zip_code form)
    = Returned (PNum lat, PNum lng) ->
  resolved (PNum lat, PNum lng) = true ->
  is_within_service_area w lat lng = Returned false ->
  create_job w db u POST form
    = Returned (db, Redirect "create_job" [service_area_error]).
Proof.
  intros Hrole Hgeo Hres Hout. unfold create_job.
  rewrite Hrole. change (negb ("employer" =? "employer")) with false. cbv iota.
  rewrite Hgeo. cbn [bind]. rewrite resolved_guard, Hres. cbn [negb as_coordinate bind].
  rewrite Hout. reflexivity.
Qed.

End CallSites.

(** C5.  With the service area read from the environment as centre
    [(clat, clng)] and radius [rad]: [is_within_service_area] answers true
    exactly when the distance between the centre and the location is at most
    [rad], the boundary included; and creating a posting at an address that
    resolves (both coordinates pass the address check of the route) but lies
    outside the area is refused with the service-area message, which is not
    the message of an unresolved address, and leaves the database as it
    was. *)
Theorem service_area_check_blocks_creation :
  forall (w : World) (clat clng rad : Q),
    getenv_float w "SERVICE_AREA_CENTER_LAT" 0 = Returned clat ->
    getenv_float w "SERVICE_AREA_CENTER_LNG" 0 = Returned clng ->
    getenv_float w "SERVICE_AREA_RADIUS_KM" 50 = Returned rad ->
    (forall lat lng : Q,
        exists b : bool,
          is_within_service_area w lat lng = Returned b /\
          (b = true <-> (calculate_distance w clat clng lat lng <= rad)%Q)) /\
    (forall (db : Database) (u : User.t) (form : JobForm) (lat lng : Q),
        User.role u = "employer" ->
        geocode_address w (jf_street_address form) (jf_city form)
          (jf_zip_code form) = Returned (PNum lat, PNum lng) ->
        resolved (PNum lat, PNum lng) = true ->
        ~ (calculate_distance w clat clng lat lng <= rad)%Q ->
        create_job w db u POST form
          = Returned (db, Redirect "create_job" [service_area_error])) /\
    service_area_error <> address_error.
Proof.
  intros w clat clng rad H1 H2 H3. split; [|split].
  - intros lat lng. eexists. split.
    + apply (is_within_service_area_spec w lat lng H1 H2 H3).
    + apply Qle_bool_iff.
  - intros db u form lat lng Hrole Hgeo Hres Hfar.
    apply create_job_outside with (lat := lat) (lng := lng); try assumption.
    rewrite (is_within_service_area_spec w lat lng H1 H2 H3).
    destruct (Qle_bool _ rad) eqn:E; [|reflexivity].
    apply Qle_bool_iff in E. contradiction.
  - exact flash_messages_differ.
Qed.

(** A posting 60 km from the centre of a 50 km service area. *)
Lemma service_area_check_blocks_creation_witness :
  let w := sample_world (JsonBody (one_candidate (65244 # 10000) (33792 # 10000))) 60 in
  create_job w empty_db employer_1 POST job_form_1
    = Returned (empty_db, Redirect "create_job" [service_area_error]).
Proof.
  intros w.
  refine (proj1 (proj2 (@service_area_check_blocks_creation w 0 0 50 _ _ _))
            empty_db employer_1 job_form_1 (65244 # 10000) (33792 # 10000)
            _ _ _ _)%Q.
  - reflexivity.
  - reflexivity.
  - reflexivity.
  - reflexivity.
  - reflexivity.
  - reflexivity.
  - vm_compute. intros H. apply H. reflexivity.
Defined.

(** C10.  When the geocoder finds a first candidate whose latitude or
    longitude is the number zero, [geocode_address] does return these
    coordinates, yet registration and job creation take the address for
    unresolved: both answer with the address-verification message and write
    nothing. *)
Theorem zero_coordinate_treated_as_unresolved :
  forall (w : World) (db : Database) (data : pyval) (lat lng : Q),
    first_candidate data = Returned (PNum lat, PNum lng) ->
    (lat == 0 \/ lng == 0)%Q ->
    (forall form : RegisterForm,
        requests_get w
          (geocode_url (rf_address form) (rf_city form) (rf_zip_code form))
          (geocode_params w) = JsonBody data ->
        rf_password form = rf_confirm_password form ->
        (8 <= String.length (rf_password form))%nat ->
        existsb (fun u => String.eqb (User.email u) (rf_email form)) (users db)
          = false ->
        geocode_address w (rf_address form) (rf_city form) (rf_zip_code form)
          = Returned (PNum lat, PNum lng) /\
        register w db None POST form
          = Returned (db, Redirect "register" [address_error])) /\
    (forall (u : User.t) (form : JobForm),
        requests_get w
          (geocode_url (jf_street_address form) (jf_city form)
             (jf_zip_code form))
          (geocode_params w) = JsonBody data ->
        User.role u = "employer" ->
        geocode_address w (jf_street_address form) (jf_city form)
          (jf_zip_code form) = Returned (PNum lat, PNum lng) /\
        create_job w db u POST form
          = Returned (db, Redirect "create_job" [address_error])).
Proof.
  intros w db data lat lng Hc Hz. split.
  - intros form Hr Hpw Hlen Hnew.
    pose proof (geocode_address_candidate w _ _ _ Hr Hc) as Hgeo.
    split; [exact Hgeo|].
    apply register_unresolved with (geo := (PNum lat, PNum lng));
      auto using unresolved_zero.
  - intros u form Hr Hrole.
    pose proof (geocode_address_candidate w _ _ _ Hr Hc) as Hgeo.
    split; [exact Hgeo|].
    apply create_job_unresolved with (geo := (PNum lat, PNum lng));
      auto using unresolved_zero.
Qed.

(** An address on the equator, at longitude 10. *)
Lemma zero_coordinate_treated_as_unresolved_witness :
  let w := sample_world (JsonBody (one_candidate 0 10)) 1113 in
  (geocode_address w "5 Allen Ave" "Ikeja" "100271" = Returned (PNum 0, PNum 10) /\
   register w empty_db None POST register_form_1
     = Returned (empty_db, Redirect "register" [address_error])) /\
  (geocode_address w "12 Marina Road" "Lagos" "101001"
     = Returned (PNum 0, PNum 10) /\
   create_job w empty_db employer_1 POST job_form_1
     = Returned (empty_db, Redirect "create_job" [address_error])).
Proof.
  intros w.
  pose proof (@zero_coordinate_treated_as_unresolved w empty_db
                (one_candidate 0 10) 0 10 eq_refl
                (or_introl (Qeq_refl 0))) as [Hreg Hjob].
  split.
  - apply (Hreg register_form_1); try reflexivity. simpl. lia.
  - apply (Hjob employer_1 job_form_1); reflexivity.
Defined.

(* ================================================================== *)
(** * Life cycle of a job posting *)
(* ================================================================== *)

Section RowUpdates.

Variable job_id : Z.
Variable f : JobPosting.t -> JobPosting.t.

(** [update_row] rewrites the row that [find] yields and no other. *)
Lemma update_row_nth (rows : list JobPosting.t) (i : nat) (j : JobPosting.t) :
  nth_error rows i = Some j ->
  nth_error (update_row job_id f rows) i = Some j \/
  (find (fun r => Z.eqb (JobPosting.id r) job_id) rows = Some j /\
   nth_error (update_row job_id f rows) i = Some (f j)).
Proof.
  revert i. induction rows as [|r rows IH]; intros [|i] H; simpl in *;
    try discriminate.
  - injection H as ->. destruct (Z.eqb (JobPosting.id j) job_id); auto.
  - destruct (Z.eqb (JobPosting.id r) job_id).
    + left. exact H.
    + destruct (IH i H) as [E|[E1 E2]]; auto.
Qed.

Lemma update_row_Forall (P : JobPosting.t -> Prop) (rows : list JobPosting.t) :
  (forall j, find (fun r => Z.eqb (JobPosting.id r) job_id) rows = Some j ->
             P j -> P (f j)) ->
  Forall P rows -> Forall P (update_row job_id f rows).
Proof.
  induction rows as [|r rows IH]; intros Hf H; simpl in *; [constructor|].
  inversion H as [|? ? Hr Hrows]; subst.
  destruct (Z.eqb (JobPosting.id r) job_id).
  - constructor; auto.
  - constructor; auto.
Qed.

End RowUpdates.

Section Lifecycle.

Variable w : World.

Lemma archived_after_update (db : Database) (job_id : Z)
    (f : JobPosting.t -> JobPosting.t) (i : nat) (id : Z) :
  (forall j, get_job db job_id = Some j -> JobPosting.status j = "archived" ->
             JobPosting.id (f j) = JobPosting.id j /\
             JobPosting.status (f j) = "archived") ->
  archived_at db i id -> archived_at (update_job db job_id f) i id.
Proof.
  intros Hf (j & Hn & Hid & Hst). unfold archived_at, update_job. cbn [job_postings].
  destruct (update_row_nth job_id f _ _ Hn) as [E|[E1 E2]].
  - exists j. auto.
  - destruct (Hf j E1 Hst) as [Hid' Hst'].
    exists (f j). rewrite Hid'. auto.
Qed.

Lemma archived_after_append (db : Database) (p : JobPosting.t) (i : nat) (id : Z) :
  archived_at db i id ->
  archived_at {| users := users db;
                 job_postings := job_postings db ++ [p];
                 applications := applications db |} i id.
Proof.
  intros (j & Hn & Hid & Hst). exists j. cbn [job_postings].
  rewrite nth_error_app1; auto.
  apply nth_error_Some. congruence.
Qed.

Lemma create_job_cases (db : Database) (u : User.t) (m : http_method)
    (form : JobForm) :
  committed db (create_job w db u m form) = db \/
  exists p, JobPosting.status p = "active" /\
    committed db (create_job w db u m form)
      = {| users := users db;
           job_postings := job_postings db ++ [p];
           applications := applications db |}.
Proof.
  unfold create_job.
  destruct (negb (User.role u =? "employer")); [left; reflexivity|].
  destruct m; [left; reflexivity|].
  destruct (geocode_address w _ _ _) as [[lat lng]|e]; [|left; reflexivity].
  cbn [bind].
  destruct (negb (truthy lat) || negb (truthy lng)); [left; reflexivity|].
  destruct (as_coordinate lat) as [lat_f|e]; [|left; reflexivity].
  destruct (as_coordinate lng) as [lng_f|e]; [|left; reflexivity].
  cbn [bind].
  destruct (is_within_service_area w lat_f lng_f) as [[|]|e];
    [|left; reflexivity|left; reflexivity].
  cbn [bind negb].
  destruct (salary_of w (jf_salary_min form)) as [smin|e]; [|left; reflexivity].
  destruct (salary_of w (jf_salary_max form)) as [smax|e]; [|left; reflexivity].
  right. eexists. split; [|reflexivity]. reflexivity.
Qed.

Lemma edit_job_cases (db : Database) (u : User.t) (job_id : Z)
    (m : http_method) (form : JobForm) :
  committed db (edit_job w db u job_id m form) = db \/
  exists f,
    (forall p, JobPosting.id (f p) = JobPosting.id p /\
               JobPosting.status (f p) = JobPosting.status p) /\
    committed db (edit_job w db u job_id m form) = update_job db job_id f.
Proof.
  unfold edit_job.
  destruct (get_job db job_id) as [j|]; [|left; reflexivity].
  destruct (negb _); [left; reflexivity|].
  destruct m; [left; reflexivity|].
  destruct (salary_of w (jf_salary_min form)) as [smin|e]; [|left; reflexivity].
  destruct (salary_of w (jf_salary_max form)) as [smax|e]; [|left; reflexivity].
  right. eexists. split; [|reflexivity]. intros p. split; reflexivity.
Qed.

(** One request keeps an archived posting archived. *)
Lemma step_keeps_archived (db : Database) (r : request) (i : nat) (id : Z) :
  archived_at db i id -> archived_at (step w db r) i id.
Proof.
  intros H. destruct r as [u m form|u job_id m form|u job_id|u job_id];
    cbn [step].
  - destruct (create_job_cases db u m form) as [->|(p & _ & ->)];
      auto using archived_after_append.
  - destruct (edit_job_cases db u job_id m form) as [->|(f & Hf & ->)]; auto.
    apply archived_after_update; auto.
    intros j _ Hst. destruct (Hf j) as [-> ->]. auto.
  - unfold toggle_job_status.
    destruct (get_job db job_id) as [j|] eqn:Hget; [|exact H].
    destruct (negb _); [exact H|].
    destruct (JobPosting.status j =? "active") eqn:Ea.
    + cbn [fst]. apply archived_after_update; auto.
      intros j' Hj' Hst. rewrite Hget in Hj'. injection Hj' as <-.
      rewrite Hst in Ea. discriminate.
    + destruct (JobPosting.status j =? "paused") eqn:Ep; [|exact H].
      cbn [fst]. apply archived_after_update; auto.
      intros j' Hj' Hst. rewrite Hget in Hj'. injection Hj' as <-.
      rewrite Hst in Ep. discriminate.
  - unfold archive_job.
    destruct (get_job db job_id) as [j|]; [|exact H].
    destruct (negb _); [exact H|].
    cbn [fst]. apply archived_after_update; auto.
Qed.

(** One request keeps every status inside the life cycle. *)
Lemma step_well_formed (db : Database) (r : request) :
  well_formed db -> well_formed (step w db r).
Proof.
  unfold well_formed. intros H.
  destruct r as [u m form|u job_id m form|u job_id|u job_id]; cbn [step].
  - destruct (create_job_cases db u m form) as [->|(p & Hp & ->)]; auto.
    cbn [job_postings]. apply Forall_app. split; auto.
    constructor; [|constructor]. left. exact Hp.
  - destruct (edit_job_cases db u job_id m form) as [->|(f & Hf & ->)]; auto.
    cbn [update_job job_postings]. apply update_row_Forall; auto.
    intros j _ Hj. destruct (Hf j) as [_ ->]. exact Hj.
  - unfold toggle_job_status.
    destruct (get_job db job_id) as [j|]; [|exact H].
    destruct (negb _); [exact H|].
    destruct (JobPosting.status j =? "active").
    + cbn [fst update_job job_postings]. apply update_row_Forall; auto.
      intros; right; left; reflexivity.
    + destruct (JobPosting.status j =? "paused"); [|exact H].
      cbn [fst update_job job_postings]. apply update_row_Forall; auto.
      intros; left; reflexivity.
  - unfold archive_job.
    destruct (get_job db job_id) as [j|]; [|exact H].
    destruct (negb _); [exact H|].
    cbn [fst update_job job_postings]. apply update_row_Forall; auto.
    intros; right; right; reflexivity.
Qed.

Lemma run_well_formed (rs : list request) (db : Database) :
  well_formed db -> well_formed (run w db rs).
Proof.
  revert db. induction rs as [|r rs IH]; intros db H; cbn; auto.
  apply IH, step_well_formed, H.
Qed.

Lemma run_keeps_archived (rs : list request) (db : Database) (i : nat) (id : Z) :
  archived_at db i id -> archived_at (run w db rs) i id.
Proof.
  revert db. induction rs as [|r rs IH]; intros db H; cbn; auto.
  apply IH, step_keeps_archived, H.
Qed.

End Lifecycle.

(** C8.  Starting from the empty database, whatever requests are served,
    the status of every posting is active, paused or archived; and from any
    database, a posting that is archived is still that posting, archived,
    after any sequence of job creations, edits, status toggles and
    archivings. *)
Theorem archived_is_a_one_way_ratchet :
  forall (w : World) (rs : list request),
    well_formed (run w empty_db rs) /\
    (forall (db : Database) (i : nat) (id : Z),
        archived_at db i id -> archived_at (run w db rs) i id).
Proof.
  intros w rs. split.
  - apply run_well_formed. constructor.
  - intros db i id. apply run_keeps_archived.
Qed.

Lemma archived_is_a_one_way_ratchet_witness :
  archived_at
    (run quiet_world
       {| users := [employer_1]; job_postings := [archived_posting];
          applications := [] |}
       [ReqToggleJobStatus employer_1 7; ReqEditJob employer_1 7 POST new_title;
        ReqToggleJobStatus employer_1 7; ReqArchiveJob employer_1 7])
    0 7.
Proof.
  apply (proj2 (archived_is_a_one_way_ratchet quiet_world _)).
  exists archived_posting. repeat split.
Defined.

(* ================================================================== *)
(** * Sorting by a key *)
(* ================================================================== *)

Section ListSortFacts.

Variable A : Type.
Variable key : A -> Q.

Lemma key_lt_true (x y : A) : key_lt key x y = true <-> (key x < key y)%Q.
Proof.
  unfold key_lt. rewrite negb_true_iff. split; intros H.
  - apply Qnot_le_lt. intros C. apply Qle_bool_iff in C. congruence.
  - destruct (Qle_bool (key y) (key x)) eqn:E; [|reflexivity].
    apply Qle_bool_iff in E. apply Qle_not_lt in E. contradiction.
Qed.

Lemma key_lt_false (x y : A) : key_lt key x y = false <-> (key y <= key x)%Q.
Proof.
  unfold key_lt. rewrite negb_false_iff. apply Qle_bool_iff.
Qed.

Lemma insert_sorted_perm (x : A) (l : list A) :
  Permutation (x :: l) (insert_sorted key x l).
Proof.
  induction l as [|y t IH]; simpl; [reflexivity|].
  destruct (key_lt key y x); [|reflexivity].
  rewrite perm_swap. constructor. exact IH.
Qed.

Lemma list_sort_perm (l : list A) : Permutation l (list_sort key l).
Proof.
  induction l as [|x t IH]; simpl; [constructor|].
  rewrite <- insert_sorted_perm. constructor. exact IH.
Qed.

Lemma insert_sorted_sorted (x : A) (l : list A) :
  StronglySorted (key_le key) l -> StronglySorted (key_le key) (insert_sorted key x l).
Proof.
  induction 1 as [|y t Hs IH Hy]; simpl.
  - repeat constructor.
  - destruct (key_lt key y x) eqn:E.
    + apply key_lt_true in E. constructor; [exact IH|].
      apply (Permutation_Forall (insert_sorted_perm x t)).
      constructor; [apply Qlt_le_weak; exact E|exact Hy].
    + apply key_lt_false in E. constructor.
      * constructor; assumption.
      * constructor; [exact E|].
        apply Forall_impl with (P := key_le key y); [|exact Hy].
        intros z Hz. unfold key_le in *. apply Qle_trans with (y := key y); assumption.
Qed.

Lemma list_sort_sorted (l : list A) : StronglySorted (key_le key) (list_sort key l).
Proof.
  induction l as [|x t IH]; simpl; [constructor|].
  apply insert_sorted_sorted, IH.
Qed.

(** Insertion walks past strictly smaller keys only, so it never overtakes an
    element with the same key. *)
Lemma with_key_insert (d : Q) (x : A) (l : list A) :
  with_key key d (insert_sorted key x l) = with_key key d (x :: l).
Proof.
  induction l as [|y t IH]; [reflexivity|].
  cbn [insert_sorted]. destruct (key_lt key y x) eqn:E; [|reflexivity].
  apply key_lt_true in E.
  unfold with_key in *. cbn [filter] in *. rewrite IH.
  destruct (Qeq_bool (key x) d) eqn:Ex; [|reflexivity].
  destruct (Qeq_bool (key y) d) eqn:Ey; [|reflexivity].
  apply Qeq_bool_eq in Ex, Ey. rewrite Ex, Ey in E.
  exfalso. exact (Qlt_irrefl _ E).
Qed.

Lemma list_sort_stable (d : Q) (l : list A) :
  with_key key d (list_sort key l) = with_key key d l.
Proof.
  induction l as [|x t IH]; [reflexivity|].
  cbn [list_sort fold_right]. rewrite with_key_insert.
  unfold with_key in *. cbn [filter]. fold (list_sort key t). rewrite IH. reflexivity.
Qed.

End ListSortFacts.

(* ================================================================== *)
(** * The job search *)
(* ================================================================== *)

Section SearchFacts.

Variable w : World.

Lemma jobs_in_radius_acc (u : User.t) (r : Q) (jobs : list JobPosting.t)
    (acc : list JobWithDistance) :
  fold_left
    (fun acc j =>
       let dist :=
         calculate_distance w (User.latitude u) (User.longitude u)
           (JobPosting.latitude j) (JobPosting.longitude j) in
       if PyNum.le dist r
       then (acc ++ [{| job := j; distance := PyNum.round dist 2 |}])%list
       else acc)
    jobs acc
  = (acc ++ map (entry_of w u)
             (filter (fun j => Qle_bool (distance_from w u j) r) jobs))%list.
Proof.
  revert acc. induction jobs as [|j jobs IH]; intros acc; cbn [fold_left filter map].
  - rewrite app_nil_r. reflexivity.
  - rewrite IH. unfold PyNum.le. fold (distance_from w u j).
    destruct (Qle_bool (distance_from w u j) r); cbn [map].
    + rewrite <- app_assoc. reflexivity.
    + reflexivity.
Qed.

(** The loop keeps, in order, the postings at most [r] away. *)
Lemma jobs_in_radius_filter (u : User.t) (r : Q) (jobs : list JobPosting.t) :
  jobs_in_radius w u r jobs
  = map (entry_of w u) (filter (fun j => Qle_bool (distance_from w u j) r) jobs).
Proof. unfold jobs_in_radius. rewrite jobs_in_radius_acc. reflexivity. Qed.

Lemma in_jobs_in_radius (u : User.t) (r : Q) (jobs : list JobPosting.t)
    (e : JobWithDistance) :
  In e (jobs_in_radius w u r jobs) <->
  In (job e) jobs /\ (distance_from w u (job e) <= r)%Q /\
  distance e = PyNum.round (distance_from w u (job e)) 2.
Proof.
  rewrite jobs_in_radius_filter, in_map_iff. split.
  - intros (j & <- & Hj). apply filter_In in Hj. destruct Hj as [Hj Hd].
    apply Qle_bool_iff in Hd. cbn. auto.
  - intros (Hj & Hd & He). exists (job e). split.
    + destruct e as [j d]. cbn in *. subst d. reflexivity.
    + apply filter_In. split; [exact Hj|]. apply Qle_bool_iff. exact Hd.
Qed.

Lemma search_query_active (db : Database) (kw cat : string) (j : JobPosting.t) :
  In j (search_query w db kw cat) ->
  In j (job_postings db) /\ JobPosting.status j = "active".
Proof.
  unfold search_query. intros H.
  assert (H1 : In j (filter (fun j => JobPosting.status j =? "active")
                       (job_postings db))).
  { destruct (nonempty cat); [apply filter_In in H; destruct H as [H _]|];
      (destruct (nonempty kw); [apply filter_In in H; destruct H as [H _]|]);
      exact H. }
  apply filter_In in H1. destruct H1 as [H1 H2].
  apply String.eqb_eq in H2. auto.
Qed.

(** What [search_jobs] renders for a job seeker. *)
Lemma search_jobs_rendered (db : Database) (u : User.t) (args : SearchArgs)
    (l : list JobWithDistance) (kw cat : string) (r : Q) :
  search_jobs w db u args = RenderSearch l kw cat r ->
  User.role u = "job_seeker" /\
  kw = match sa_keyword args with Some k => k | None => "" end /\
  cat = match sa_category args with Some c => c | None => "" end /\
  r = match sa_radius args with Some x => x | None => 25%Q end /\
  l = list_sort distance (jobs_in_radius w u r (search_query w db kw cat)).
Proof.
  unfold search_jobs. destruct (User.role u =? "job_seeker") eqn:E; cbn [negb].
  - intros H. injection H as <- <- <- <-. apply String.eqb_eq in E. auto.
  - discriminate.
Qed.

End SearchFacts.

(** C1 (as amended).  Every entry rendered by the search is a posting of the
    query whose computed distance from the seeker is at most the radius; the
    distance shown in the entry is that distance rounded to two decimals,
    hence at most the radius rounded to two decimals, which is above the
    radius by no more than [0.005 + (|r| + 0.005) * 2^-53]: half a hundredth
    from the decimal rounding, the rest from storing the result as a double.
    A posting of the query whose computed distance exceeds the radius is in
    no entry, and one whose distance is within the radius has its entry. *)
Theorem search_results_within_radius :
  forall (w : World) (db : Database) (u : User.t) (args : SearchArgs)
         (l : list JobWithDistance) (kw cat : string) (r : Q),
    search_jobs w db u args = RenderSearch l kw cat r ->
    (forall e : JobWithDistance,
        In e l ->
        In (job e) (search_query w db kw cat) /\
        (distance_from w u (job e) <= r)%Q /\
        distance e = PyNum.round (distance_from w u (job e)) 2 /\
        (distance e <= PyNum.round r 2)%Q /\
        (distance e - r <= (1 # 200) + (Qabs r + (1 # 200)) * u64)%Q) /\
    (forall j : JobPosting.t,
        In j (search_query w db kw cat) ->
        (r < distance_from w u j)%Q -> ~ In j (map job l)) /\
    (forall j : JobPosting.t,
        In j (search_query w db kw cat) ->
        (distance_from w u j <= r)%Q -> In (entry_of w u j) l).
Proof.
  intros w db u args l kw cat r H.
  apply search_jobs_rendered in H. destruct H as (_ & _ & _ & _ & ->).
  set (found := jobs_in_radius w u r (search_query w db kw cat)).
  assert (Hin : forall e, In e (list_sort distance found) <-> In e found).
  { intros e. split; apply Permutation_in;
      [apply Permutation_sym|]; apply list_sort_perm. }
  split; [|split].
  - intros e He. apply Hin, in_jobs_in_radius in He.
    destruct He as (Hj & Hd & Hr).
    assert (Hle : (distance e <= PyNum.round r 2)%Q)
      by (rewrite Hr; apply PyNumFacts.round_mono, Hd).
    repeat split; try assumption.
    pose proof (PyNumFacts.round_2_excess r) as Hx.
    apply Qle_trans with (y := (PyNum.round r 2 - r)%Q); [|exact Hx].
    apply Qplus_le_compat; [exact Hle|apply Qle_refl].
  - intros j Hj Hfar Hjl. apply in_map_iff in Hjl.
    destruct Hjl as (e & <- & He). apply Hin, in_jobs_in_radius in He.
    destruct He as (_ & Hd & _). apply Qle_not_lt in Hd. contradiction.
  - intros j Hj Hd. apply Hin, in_jobs_in_radius. cbn. auto.
Qed.

(** C2.  The rendered entries are in non-decreasing order of their
    distance, they are the entries found by the loop, and those at any one
    distance are in the order in which the loop met them. *)
Theorem search_results_sorted_stable :
  forall (w : World) (db : Database) (u : User.t) (args : SearchArgs)
         (l : list JobWithDistance) (kw cat : string) (r : Q),
    search_jobs w db u args = RenderSearch l kw cat r ->
    StronglySorted (fun a b => (distance a <= distance b)%Q) l /\
    Permutation (jobs_in_radius w u r (search_query w db kw cat)) l /\
    (forall d : Q,
        with_key distance d l
        = with_key distance d
            (jobs_in_radius w u r (search_query w db kw cat))).
Proof.
  intros w db u args l kw cat r H.
  apply search_jobs_rendered in H. destruct H as (_ & _ & _ & _ & ->).
  split; [|split].
  - apply (list_sort_sorted distance).
  - apply list_sort_perm.
  - intros d. apply list_sort_stable.
Qed.

(** The search orders by distance, keeps ties in table order and drops what
    is too far or not active. *)
Example search_jobs_example :
  match search_jobs line_world search_db seeker_2 radius_10 with
  | RenderSearch l _ _ _ => map (fun e => JobPosting.id (job e)) l
  | _ => []
  end = [3; 2; 4]%Z.
Proof. vm_compute. reflexivity. Qed.

Lemma search_jobs_renders_example :
  search_jobs line_world search_db seeker_2 radius_10
  = RenderSearch rendered_radius_10 "" "" 10.
Proof. reflexivity. Qed.

Lemma search_results_within_radius_witness :
  (distance_from line_world seeker_2 (job south_entry) <= 10)%Q /\
  (distance south_entry <= PyNum.round 10 2)%Q.
Proof.
  assert (He : In south_entry rendered_radius_10)
    by (vm_compute; right; right; left; reflexivity).
  pose proof (proj1 (search_results_within_radius _ _ _ _
                       search_jobs_renders_example) south_entry He) as H.
  destruct H as (_ & Hd & _ & Hr & _).
  split; [exact Hd|exact Hr].
Defined.

Lemma search_results_sorted_stable_witness :
  StronglySorted (fun a b => (distance a <= distance b)%Q) rendered_radius_10.
Proof.
  exact (proj1 (search_results_sorted_stable _ _ _ _
                  search_jobs_renders_example)).
Defined.

(** C1 as stated fails: a posting whose computed distance is 0.1875 km is
    kept by a search of radius 0.1875 km, and its entry shows
    [round(0.1875, 2)], the double nearest to 0.19, which exceeds the
    radius.  The same happens for every computed distance [d] and radius
    [r] with [d <= r < round(d, 2)]. *)
Lemma search_result_beyond_radius :
  let w := sample_world (TransportFailure RequestException) (3 # 16) in
  let args := {| sa_keyword := None; sa_category := None;
                 sa_radius := Some (3 # 16)%Q |} in
  exists e l,
    search_jobs w search_db seeker_2 args = RenderSearch l "" "" (3 # 16) /\
    (0 <= 3 # 16)%Q /\
    In e l /\
    ~ (distance e <= 3 # 16)%Q.
Proof.
  intros w args.
  exists (entry_of w seeker_2 (posting 1 "Far" (66244 # 10000) "active")).
  eexists. split; [vm_compute; reflexivity|].
  split; [discriminate|]. split; [left; vm_compute; reflexivity|].
  vm_compute. intros H. apply H. reflexivity.
Qed.

(** The excess over the radius can be above half a hundredth:
    [round(0.375, 2)] is the double nearest to 0.38, which lies above
    0.38. *)
Example round_2_excess_above_half_hundredth :
  ((1 # 200) < PyNum.round (3 # 8) 2 - (3 # 8))%Q.
Proof. vm_compute. reflexivity. Qed.

(* ================================================================== *)
(** * Funnel analytics *)
(* ================================================================== *)

Module PercentFacts.
Import PyNum PyNumFacts.
Local Open Scope Q_scope.

Lemma fl_upper (q : Q) : 0 <= q -> fl q <= q * (1 + u64).
Proof. intros H. destruct (fl_error_nonneg H). lra. Qed.

Lemma fl_lower (q : Q) : 0 <= q -> q * (1 - u64) <= fl q.
Proof. intros H. destruct (fl_error_nonneg H). lra. Qed.

Lemma ratio_bounds (c n : nat) :
  (c <= n)%nat -> (0 < n)%nat ->
  0 <= inject_Z (Z.of_nat c) / inject_Z (Z.of_nat n) <= 1.
Proof.
  intros Hc Hn.
  assert (H0 : 0 < inject_Z (Z.of_nat n)).
  { change 0 with (inject_Z 0). rewrite <- Zlt_Qlt. lia. }
  assert (H1 : 0 <= inject_Z (Z.of_nat c)).
  { change 0 with (inject_Z 0). rewrite <- Zle_Qle. lia. }
  assert (H2 : inject_Z (Z.of_nat c) <= inject_Z (Z.of_nat n)).
  { rewrite <- Zle_Qle. lia. }
  split.
  - apply Qle_shift_div_l; [exact H0|lra].
  - apply Qle_shift_div_r; [exact H0|lra].
Qed.

Lemma percentage_S (c m : nat) :
  percentage c (S m)
  = fl (fl (inject_Z (Z.of_nat c) / inject_Z (Z.of_nat (S m))) * 100).
Proof. reflexivity. Qed.

(** The two roundings of [count / total * 100] move the exact percentage by
    a relative [(1 + u)^2] at most. *)
Lemma percentage_bounds (c n : nat) :
  (0 < n)%nat ->
  0 <= inject_Z (Z.of_nat c) / inject_Z (Z.of_nat n) ->
  exact_percentage c n * (1 - u64) * (1 - u64) <= percentage c n /\
  percentage c n <= exact_percentage c n * (1 + u64) * (1 + u64) /\
  0 <= percentage c n.
Proof.
  intros Hn Hp. destruct n as [|m]; [lia|].
  rewrite percentage_S. unfold exact_percentage.
  set (p := inject_Z (Z.of_nat c) / inject_Z (Z.of_nat (S m))) in *.
  pose proof (fl_upper Hp) as Ha1. pose proof (fl_lower Hp) as Ha2.
  pose proof (fl_nonneg Hp) as Ha0.
  set (a := fl p) in *.
  assert (Ha100 : 0 <= a * 100) by lra.
  pose proof (fl_upper Ha100) as Hx1. pose proof (fl_lower Ha100) as Hx2.
  pose proof (fl_nonneg Ha100) as Hx0.
  set (x := fl (a * 100)) in *.
  unfold u64 in *. repeat split; lra.
Qed.

Lemma round_digits_1 (x : Q) : round_digits x 1 = round_half_even (x * 10).
Proof. reflexivity. Qed.

Lemma round_1 (x : Q) : round x 1 = fl (inject_Z (round_digits x 1) / 10).
Proof. reflexivity. Qed.

Lemma tenths_scale (k : Q) : k / 10 == k * (1 # 10).
Proof. reflexivity. Qed.

(** A rate of the snapshot shows the exact percentage to one decimal. *)
Lemma rate_one_decimal (c n : nat) :
  (c <= n)%nat -> (0 < n)%nat ->
  one_decimal_of (round (percentage c n) 1) (exact_percentage c n).
Proof.
  intros Hc Hn. exists (round_digits (percentage c n) 1).
  split; [apply round_1|].
  destruct (ratio_bounds Hc Hn) as [Hp0 Hp1].
  destruct (percentage_bounds c Hn Hp0) as (Hlo & Hhi & _).
  rewrite round_digits_1.
  destruct (round_half_even_near (percentage c n * 10)) as [H1 H2].
  unfold exact_percentage in *.
  set (p := inject_Z (Z.of_nat c) / inject_Z (Z.of_nat n)) in *.
  set (k := inject_Z (round_half_even (percentage c n * 10))) in *.
  set (x := percentage c n) in *.
  clearbody p k x. unfold u64 in *.
  rewrite (tenths_scale k).
  apply Qabs_Qle_condition. split; lra.
Qed.

(** Two rates over disjoint groups of applications add up to 100.1 at
    most, counted in tenths. *)
Lemma two_rates_tenths (a r n : nat) :
  (a + r <= n)%nat ->
  (round_digits (percentage a n) 1 + round_digits (percentage r n) 1
   <= 1001)%Z.
Proof.
  intros H. destruct n as [|m].
  - vm_compute. discriminate.
  - assert (Hn : (0 < S m)%nat) by lia.
    destruct (@ratio_bounds a (S m) ltac:(lia) Hn) as [Ha0 _].
    destruct (@ratio_bounds r (S m) ltac:(lia) Hn) as [Hr0 _].
    destruct (@ratio_bounds (a + r) (S m) H Hn) as [_ Hs1].
    destruct (percentage_bounds a Hn Ha0) as (_ & Hxa & _).
    destruct (percentage_bounds r Hn Hr0) as (_ & Hxr & _).
    rewrite !round_digits_1.
    destruct (round_half_even_near (percentage a (S m) * 10)) as [Hka _].
    destruct (round_half_even_near (percentage r (S m) * 10)) as [Hkr _].
    unfold exact_percentage in *.
    assert (Hsum : inject_Z (Z.of_nat (a + r)) / inject_Z (Z.of_nat (S m))
                   == inject_Z (Z.of_nat a) / inject_Z (Z.of_nat (S m))
                      + inject_Z (Z.of_nat r) / inject_Z (Z.of_nat (S m))).
    { rewrite Nat2Z.inj_add, inject_Z_plus. unfold Qdiv. ring. }
    rewrite Hsum in Hs1.
    set (pa := inject_Z (Z.of_nat a) / inject_Z (Z.of_nat (S m))) in *.
    set (pr := inject_Z (Z.of_nat r) / inject_Z (Z.of_nat (S m))) in *.
    set (xa := percentage a (S m)) in *. set (xr := percentage r (S m)) in *.
    assert (Hlt : inject_Z (round_half_even (xa * 10)
                            + round_half_even (xr * 10)) < inject_Z 1002).
    { rewrite inject_Z_plus. change (inject_Z 1002) with 1002.
      clearbody pa pr xa xr. unfold u64 in *. lra. }
    rewrite <- Zlt_Qlt in Hlt. lia.
Qed.

End PercentFacts.

Section AnalyticsFacts.

Lemma count_with_status_eq (s : string) (apps : list Application.t) :
  count_with_status s apps = status_count s apps.
Proof.
  unfold count_with_status, status_count.
  induction apps as [|a apps IH]; [reflexivity|].
  cbn [filter map count_occ].
  destruct (string_dec (Application.status a) s) as [E|E].
  - apply String.eqb_eq in E. rewrite E. cbn [List.length]. rewrite IH. reflexivity.
  - apply String.eqb_neq in E. rewrite E. exact IH.
Qed.

Lemma count_responded_eq (apps : list Application.t) :
  count_responded apps = (List.length apps - status_count "applied" apps)%nat.
Proof.
  unfold count_responded, status_count.
  induction apps as [|a apps IH]; [reflexivity|].
  cbn [filter map count_occ List.length].
  pose proof (count_occ_bound string_dec "applied" (map Application.status apps)) as Hb.
  rewrite length_map in Hb.
  destruct (string_dec (Application.status a) "applied") as [E|E].
  - apply String.eqb_eq in E. rewrite E. cbn [negb]. rewrite IH. lia.
  - apply String.eqb_neq in E. rewrite E. cbn [negb List.length]. rewrite IH. lia.
Qed.

Lemma status_count_le (s : string) (apps : list Application.t) :
  (status_count s apps <= List.length apps)%nat.
Proof.
  unfold status_count.
  pose proof (count_occ_bound string_dec s (map Application.status apps)) as Hb.
  rewrite length_map in Hb. exact Hb.
Qed.

(** An application has one status: two different statuses count disjoint
    groups. *)
Lemma two_statuses_le (s t : string) (apps : list Application.t) :
  s <> t ->
  (status_count s apps + status_count t apps <= List.length apps)%nat.
Proof.
  intros Hst. unfold status_count.
  induction apps as [|a apps IH]; [reflexivity|].
  cbn [map count_occ List.length].
  destruct (string_dec (Application.status a) s) as [E1|E1];
    destruct (string_dec (Application.status a) t) as [E2|E2];
    try lia. congruence.
Qed.

Lemma response_times_acc (apps : list Application.t) (acc : list Z) :
  fold_left
    (fun acc a =>
       if negb (String.eqb (Application.status a) "applied")
       then (acc ++ [timedelta_days (Application.updated_at a)
                       (Application.submitted_at a)])%list
       else acc)
    apps acc
  = (acc ++ map (fun a => Qfloor (elapsed_days a)) (responded apps))%list.
Proof.
  revert acc. induction apps as [|a apps IH]; intros acc; cbn [fold_left].
  - cbn. rewrite app_nil_r. reflexivity.
  - rewrite IH. unfold responded. cbn [filter].
    destruct (negb (Application.status a =? "applied")); [|reflexivity].
    cbn [map]. rewrite <- app_assoc. reflexivity.
Qed.

Lemma response_times_eq (apps : list Application.t) :
  response_times apps = map (fun a => Qfloor (elapsed_days a)) (responded apps).
Proof. unfold response_times. rewrite response_times_acc. reflexivity. Qed.

Lemma fold_left_add (xs : list Z) (acc : Z) :
  fold_left Z.add xs acc = (acc + sum_Z xs)%Z.
Proof.
  revert acc. induction xs as [|x xs IH]; intros acc; cbn [fold_left sum_Z fold_right].
  - lia.
  - rewrite IH. unfold sum_Z. lia.
Qed.

Lemma average_response_times (apps : list Application.t) :
  average (response_times apps) = mean_whole_days (responded apps).
Proof.
  rewrite response_times_eq. unfold average, mean_whole_days.
  destruct (responded apps) as [|a rest]; [reflexivity|].
  cbn [map]. rewrite fold_left_add, Z.add_0_l.
  cbn [List.length]. rewrite length_map. reflexivity.
Qed.

End AnalyticsFacts.

(** C3.  For an employer the snapshot's four rates are
    [round(count / total * 100, 1)], with [count] the number of the
    employer's applications that are accepted, in interview, rejected, or
    not in the initial status; each is 0 when there is no application, and
    otherwise shows the exact percentage to one decimal.  With 10
    applications, 3 accepted, 2 in interview, 1 rejected and 4 applied, the
    rates are 30.0, 20.0, 10.0 and 60.0. *)
Theorem analytics_rates_one_decimal :
  forall (db : Database) (u : User.t),
    User.role u = "employer" ->
    exists s : AnalyticsSnapshot,
      analytics db u = RenderAnalytics s /\
      let apps := employer_applications db (User.id u) in
      let n := List.length apps in
      let accepted := status_count "accepted" apps in
      let interviews := status_count "interview" apps in
      let rejected := status_count "rejected" apps in
      let answered := (n - status_count "applied" apps)%nat in
      (acceptance_rate s = PyNum.round (percentage accepted n) 1 /\
       interview_rate s = PyNum.round (percentage interviews n) 1 /\
       rejection_rate s = PyNum.round (percentage rejected n) 1 /\
       response_rate s = PyNum.round (percentage answered n) 1) /\
      (n = 0%nat ->
       acceptance_rate s = 0%Q /\ interview_rate s = 0%Q /\
       rejection_rate s = 0%Q /\ response_rate s = 0%Q) /\
      ((0 < n)%nat ->
       one_decimal_of (acceptance_rate s) (exact_percentage accepted n) /\
       one_decimal_of (interview_rate s) (exact_percentage interviews n) /\
       one_decimal_of (rejection_rate s) (exact_percentage rejected n) /\
       one_decimal_of (response_rate s) (exact_percentage answered n)) /\
      (n = 10%nat -> accepted = 3%nat -> interviews = 2%nat ->
       rejected = 1%nat -> status_count "applied" apps = 4%nat ->
       acceptance_rate s = 30%Q /\ interview_rate s = 20%Q /\
       rejection_rate s = 10%Q /\ response_rate s = 60%Q).
Proof.
  intros db u Hrole. eexists. split.
  - unfold analytics. rewrite Hrole. reflexivity.
  - cbv zeta. unfold compute_snapshot.
    cbn [acceptance_rate interview_rate rejection_rate response_rate].
    rewrite !count_with_status_eq, count_responded_eq.
    set (apps := employer_applications db (User.id u)).
    split; [repeat split|split; [|split]].
    + intros ->. repeat split; reflexivity.
    + intros Hn.
      pose proof (status_count_le "accepted" apps).
      pose proof (status_count_le "interview" apps).
      pose proof (status_count_le "rejected" apps).
      repeat split; apply PercentFacts.rate_one_decimal; lia.
    + intros -> -> -> -> ->. repeat split; vm_compute; reflexivity.
Qed.

Lemma analytics_rates_one_decimal_witness :
  let s := compute_snapshot (analytics_db ten_applications) 1 in
  acceptance_rate s = 30%Q /\ interview_rate s = 20%Q /\
  rejection_rate s = 10%Q /\ response_rate s = 60%Q.
Proof.
  destruct (@analytics_rates_one_decimal (analytics_db ten_applications)
              employer_1 eq_refl) as (s & Hs & _ & _ & _ & H).
  injection Hs as <-.
  apply H; vm_compute; reflexivity.
Defined.

(** C6 (as amended).  The snapshot's average response time is computed
    from the whole days elapsed between submission and last update (the
    floor of the elapsed days) of the employer's applications whose status
    is not 'applied': it is their mean as a double, rounded to one decimal,
    and 0 when there is no such application. *)
Theorem avg_response_time_whole_days :
  forall (db : Database) (employer : Z),
    let answered := responded (employer_applications db employer) in
    avg_response_time (compute_snapshot db employer)
      = PyNum.round (mean_whole_days answered) 1 /\
    (answered = [] ->
     avg_response_time (compute_snapshot db employer) = 0%Q).
Proof.
  intros db employer answered. unfold compute_snapshot.
  cbn [avg_response_time]. rewrite average_response_times.
  fold answered. split; [reflexivity|].
  intros ->. reflexivity.
Qed.

Lemma avg_response_time_whole_days_witness :
  avg_response_time
    (compute_snapshot (analytics_db (applications_with "applied" 0 4)) 1)
  = 0%Q.
Proof.
  apply (proj2 (avg_response_time_whole_days
                  (analytics_db (applications_with "applied" 0 4)) 1)).
  reflexivity.
Defined.

(** C6 as stated fails: the elapsed times are 0, 0 and 1.5 days, whose mean
    is 0.5 day; the snapshot shows [round((0 + 0 + 1) / 3, 1)], the double
    nearest to 0.3, which is neither that mean nor the mean 1/3 of the whole
    days. *)
Lemma avg_response_time_is_not_the_mean :
  let db := analytics_db three_answers in
  let answered := responded (employer_applications db 1) in
  (mean_elapsed_days answered == 1 # 2)%Q /\
  avg_response_time (compute_snapshot db 1) = PyNum.fl (3 # 10) /\
  ~ (avg_response_time (compute_snapshot db 1) == mean_elapsed_days answered)%Q /\
  ~ (avg_response_time (compute_snapshot db 1) == 1 # 3)%Q.
Proof.
  vm_compute. split; [reflexivity|]. split; [reflexivity|].
  split; intros H; discriminate H.
Qed.

(** C7 (as amended).  The two rates are the doubles nearest to [ka / 10]
    and [kr / 10] for integers [ka] and [kr], the numbers of tenths that
    [round] prints, and [ka + kr] is at most 1001: read as numbers with one
    decimal, the acceptance rate and the rejection rate add up to 100.1 at
    most. *)
Theorem acceptance_plus_rejection_bound :
  forall (db : Database) (employer : Z),
    let apps := employer_applications db employer in
    let n := List.length apps in
    let ka :=
      PyNum.round_digits (percentage (status_count "accepted" apps) n) 1 in
    let kr :=
      PyNum.round_digits (percentage (status_count "rejected" apps) n) 1 in
    acceptance_rate (compute_snapshot db employer)
      = PyNum.fl (inject_Z ka / 10) /\
    rejection_rate (compute_snapshot db employer)
      = PyNum.fl (inject_Z kr / 10) /\
    (ka + kr <= 1001)%Z.
Proof.
  intros db employer apps n ka kr. unfold compute_snapshot.
  cbn [acceptance_rate rejection_rate]. rewrite !count_with_status_eq.
  fold apps. fold n. repeat split.
  apply PercentFacts.two_rates_tenths.
  apply two_statuses_le. discriminate.
Qed.

(** C7 as stated fails: 31 of 80 is 38.75 percent, shown as 38.8; 49 of 80
    comes out of the two float operations just above 61.25 and is shown as
    61.3; the two rates add up to more than 100. *)
Lemma acceptance_plus_rejection_above_100 :
  let s := compute_snapshot (analytics_db eighty_applications) 1 in
  acceptance_rate s = PyNum.fl (388 # 10) /\
  rejection_rate s = PyNum.fl (613 # 10) /\
  ~ (acceptance_rate s + rejection_rate s <= 100)%Q.
Proof.
  vm_compute. split; [reflexivity|]. split; [reflexivity|].
  intros H. apply H. reflexivity.
Qed.

(* ================================================================== *)
(** * Further properties: geocoder and service area *)
(* ================================================================== *)

(** X1.  When the decoded document lists at least one candidate whose
    geometry carries the coordinates [[lng, lat, ...]], the geocoder returns
    [(lat, lng)]: Mapbox's longitude-first order is swapped, and neither the
    other candidates nor further coordinates matter. *)
Theorem geocode_address_first_candidate :
  forall (w : World) (address city zip_code : string)
         (data first geometry lng lat : pyval) (others more : list pyval),
    requests_get w (geocode_url address city zip_code) (geocode_params w)
      = JsonBody data ->
    getitem_key data "features" = Returned (PList (first :: others)) ->
    getitem_key first "geometry" = Returned geometry ->
    getitem_key geometry "coordinates" = Returned (PList (lng :: lat :: more)) ->
    geocode_address w address city zip_code = Returned (lat, lng).
Proof.
  intros w address city zip_code data first geometry lng lat others more
    Hr Hf Hg Hc.
  unfold geocode_address. cbv zeta. rewrite Hr. cbn [response_json bind].
  unfold first_candidate. rewrite Hf. cbn [bind truthy getitem_index nth_error].
  rewrite Hg. cbn [bind]. rewrite Hc. reflexivity.
Qed.

Lemma geocode_address_first_candidate_witness :
  geocode_address
    (sample_world (JsonBody (two_candidates (65244 # 10000) (33792 # 10000))) 0)
    "12 Marina Road" "Lagos" "101001"
  = Returned (PNum (65244 # 10000), PNum (33792 # 10000)).
Proof.
  eapply geocode_address_first_candidate; reflexivity.
Defined.

(** X2.  With none of the three service-area variables set, the area is the
    disc of 50 km around latitude 0, longitude 0. *)
Theorem service_area_defaults :
  forall (w : World) (lat lng : Q),
    (forall name, In name service_area_variables -> getenv w name = None) ->
    is_within_service_area w lat lng
      = Returned (Qle_bool (geodesic_km w 0 0 lat lng) 50).
Proof.
  intros w lat lng H. unfold is_within_service_area, getenv_float.
  rewrite !H by (cbn; auto). reflexivity.
Qed.

Lemma service_area_defaults_witness :
  is_within_service_area (sample_world (TransportFailure RequestException) 60)
    (65244 # 10000) (33792 # 10000)
  = Returned false.
Proof.
  rewrite service_area_defaults; [reflexivity|].
  intros name _. reflexivity.
Defined.

Lemma getenv_float_cases (w : World) (name : string) (default : Q) :
  (exists q, getenv_float w name default = Returned q) \/
  (exists e, getenv_float w name default = Raised e).
Proof. destruct (getenv_float w name default); eauto. Qed.

Lemma getenv_float_malformed (w : World) (name s : string) (default : Q)
    (e : exn) :
  getenv w name = Some s -> py_float w s = Raised e ->
  getenv_float w name default = Raised e.
Proof. intros H1 H2. unfold getenv_float. rewrite H1. exact H2. Qed.

Lemma is_within_service_area_malformed (w : World) (name s : string) (e : exn)
    (lat lng : Q) :
  In name service_area_variables ->
  getenv w name = Some s -> py_float w s = Raised e ->
  exists e', is_within_service_area w lat lng = Raised e'.
Proof.
  intros Hin Hs He. unfold is_within_service_area.
  destruct (getenv_float_cases w "SERVICE_AREA_CENTER_LAT" 0) as [[a Ha]|[x Ha]];
    rewrite Ha; cbn [bind]; [|eauto].
  destruct (getenv_float_cases w "SERVICE_AREA_CENTER_LNG" 0) as [[b Hb]|[x Hb]];
    rewrite Hb; cbn [bind]; [|eauto].
  destruct (getenv_float_cases w "SERVICE_AREA_RADIUS_KM" 50) as [[c Hc]|[x Hc]];
    rewrite Hc; cbn [bind]; [|eauto].
  exfalso. cbn in Hin. destruct Hin as [<-|[<-|[<-|[]]]].
  - rewrite (getenv_float_malformed w _ 0 Hs He) in Ha. discriminate.
  - rewrite (getenv_float_malformed w _ 0 Hs He) in Hb. discriminate.
  - rewrite (getenv_float_malformed w _ 50 Hs He) in Hc. discriminate.
Qed.

(** X3.  When one of the three service-area variables is set to a text that
    [float] rejects, [is_within_service_area] raises for every location, and
    so does the creation of a posting at any address that resolves: the
    request fails and no posting is stored. *)
Theorem service_area_misconfigured :
  forall (w : World) (name s : string) (e : exn),
    In name service_area_variables ->
    getenv w name = Some s ->
    py_float w s = Raised e ->
    (forall lat lng : Q,
        exists e', is_within_service_area w lat lng = Raised e') /\
    (forall (db : Database) (u : User.t) (form : JobForm) (lat lng : Q),
        User.role u = "employer" ->
        geocode_address w (jf_street_address form) (jf_city form)
          (jf_zip_code form) = Returned (PNum lat, PNum lng) ->
        resolved (PNum lat, PNum lng) = true ->
        (exists e', create_job w db u POST form = Raised e') /\
        step w db (ReqCreateJob u POST form) = db).
Proof.
  intros w name s e Hin Hs He. split.
  - intros lat lng. eapply is_within_service_area_malformed; eassumption.
  - intros db u form lat lng Hrole Hgeo Hres.
    destruct (is_within_service_area_malformed w lat lng Hin Hs He) as [e' He'].
    assert (Hc : create_job w db u POST form = Raised e').
    { unfold create_job. rewrite Hrole.
      change (negb ("employer" =? "employer")) with false. cbv iota.
      rewrite Hgeo. cbn [bind]. rewrite resolved_guard, Hres.
      cbn [negb as_coordinate bind]. rewrite He'. reflexivity. }
    split; [eauto|]. cbn [step]. rewrite Hc. reflexivity.
Qed.

Lemma service_area_misconfigured_witness :
  (exists e', create_job misconfigured_world empty_db employer_1 POST job_form_1
              = Raised e') /\
  step misconfigured_world empty_db (ReqCreateJob employer_1 POST job_form_1)
    = empty_db.
Proof.
  refine (proj2 (@service_area_misconfigured misconfigured_world
                   "SERVICE_AREA_RADIUS_KM" "fifty" ValueError _ _ _)
            empty_db employer_1 job_form_1 (65244 # 10000)%Q (33792 # 10000)%Q
            _ _ _).
  - right; right; left; reflexivity.
  - reflexivity.
  - reflexivity.
  - reflexivity.
  - reflexivity.
  - reflexivity.
Defined.

(* ================================================================== *)
(** * Further properties: creating and changing postings *)
(* ================================================================== *)

Lemma next_id_above (ids : list Z) (x : Z) : In x ids -> (x < next_id ids)%Z.
Proof.
  unfold next_id. induction ids as [|y ids IH]; cbn [In fold_right]; [tauto|].
  intros [->|H]; [lia|]. specialize (IH H). lia.
Qed.

Lemma next_id_fresh (ids : list Z) : ~ In (next_id ids) ids.
Proof. intros H. apply next_id_above in H. lia. Qed.

Lemma as_coordinate_number (v : pyval) (q : Q) :
  as_coordinate v = Returned q -> v = PNum q.
Proof. destruct v; cbn; intros H; try discriminate. injection H as ->. reflexivity. Qed.

Lemma truthy_number (q : Q) : truthy (PNum q) = true -> ~ (q == 0)%Q.
Proof.
  cbn. unfold PyNum.is_zero. intros H E.
  rewrite (Qeq_eq_bool _ _ E) in H. discriminate.
Qed.

(** X4.  [create_job] writes nothing unless it stores exactly one new
    posting; when it does, the requester is an employer who posted the
    form, the geocoder returned numeric coordinates that are both non-zero
    and that [is_within_service_area] accepts, and the new posting carries
    these coordinates, is active, belongs to the requester and has a primary
    key that no other posting has. *)
Theorem create_job_stores_only_inside_area :
  forall (w : World) (db db' : Database) (u : User.t) (m : http_method)
         (form : JobForm) (resp : response),
    create_job w db u m form = Returned (db', resp) ->
    db' = db \/ (m = POST /\ created_inside_area w db db' u form resp).
Proof.
  intros w db db' u m form resp. unfold create_job.
  destruct (User.role u =? "employer") eqn:Hrole; cbn [negb];
    [|intros H; injection H as <- _; auto].
  apply String.eqb_eq in Hrole.
  destruct m; [intros H; injection H as <- _; auto|].
  destruct (geocode_address w _ _ _) as [[lat lng]|e] eqn:Hgeo; [|discriminate].
  cbn [bind].
  destruct (truthy lat) eqn:Hla; cbn [negb orb];
    [|intros H; injection H as <- _; auto].
  destruct (truthy lng) eqn:Hlo; cbn [negb];
    [|intros H; injection H as <- _; auto].
  destruct (as_coordinate lat) as [lat_f|e] eqn:Ela; [|discriminate].
  destruct (as_coordinate lng) as [lng_f|e] eqn:Elo; [|discriminate].
  apply as_coordinate_number in Ela, Elo. subst lat lng.
  cbn [bind].
  destruct (is_within_service_area w lat_f lng_f) as [[|]|e] eqn:Hin;
    cbn [bind negb]; [|intros H; injection H as <- _; auto|discriminate].
  destruct (salary_of w (jf_salary_min form)) as [smin|e]; [|discriminate].
  destruct (salary_of w (jf_salary_max form)) as [smax|e]; [|discriminate].
  cbn [bind]. intros H. injection H as <- <-. right. split; [reflexivity|].
  eexists. exists lat_f, lng_f.
  split; [reflexivity|]. split; [reflexivity|].
  repeat split; try reflexivity; try assumption.
  - apply truthy_number, Hla.
  - apply truthy_number, Hlo.
  - apply next_id_fresh.
Qed.

Lemma create_job_stores_only_inside_area_witness :
  created_inside_area lagos_world empty_db one_posting_db employer_1 job_form_1
    (Redirect "employer_dashboard" [flash "Job posted successfully!" "success"]).
Proof.
  destruct (@create_job_stores_only_inside_area lagos_world empty_db
              one_posting_db employer_1 POST job_form_1
              (Redirect "employer_dashboard"
                 [flash "Job posted successfully!" "success"]) eq_refl)
    as [H|[_ H]].
  - discriminate H.
  - exact H.
Defined.

Section RowUpdateFacts.

Variable job_id : Z.
Variable f : JobPosting.t -> JobPosting.t.

Lemma update_row_ids (rows : list JobPosting.t) :
  (forall j, JobPosting.id (f j) = JobPosting.id j) ->
  map JobPosting.id (update_row job_id f rows) = map JobPosting.id rows.
Proof.
  intros Hf. induction rows as [|r rows IH]; [reflexivity|].
  cbn [update_row]. destruct (Z.eqb (JobPosting.id r) job_id); cbn [map].
  - rewrite Hf. reflexivity.
  - rewrite IH. reflexivity.
Qed.

Lemma find_update_row (rows : list JobPosting.t) (j : JobPosting.t) :
  (forall j, JobPosting.id (f j) = JobPosting.id j) ->
  find (fun r => Z.eqb (JobPosting.id r) job_id) rows = Some j ->
  find (fun r => Z.eqb (JobPosting.id r) job_id) (update_row job_id f rows)
  = Some (f j).
Proof.
  intros Hf. induction rows as [|r rows IH]; [discriminate|].
  cbn [update_row find]. destruct (Z.eqb (JobPosting.id r) job_id) eqn:E.
  - intros H. injection H as ->. cbn [find]. rewrite Hf, E. reflexivity.
  - intros H. cbn [find]. rewrite E. auto.
Qed.

End RowUpdateFacts.

Lemma get_job_update (db : Database) (job_id : Z)
    (f : JobPosting.t -> JobPosting.t) (j : JobPosting.t) :
  (forall j, JobPosting.id (f j) = JobPosting.id j) ->
  get_job db job_id = Some j ->
  get_job (update_job db job_id f) job_id = Some (f j).
Proof. intros Hf H. unfold get_job, update_job. cbn [job_postings]. apply find_update_row; assumption. Qed.

Section OwnerRequests.

Variables (db : Database) (u : User.t) (job_id : Z) (j : JobPosting.t).
Hypothesis Hget : get_job db job_id = Some j.
Hypothesis Hown : JobPosting.employer_id j = User.id u.

Lemma toggle_active :
  JobPosting.status j = "active" ->
  toggle_job_status db u job_id
  = (update_job db job_id (JobPosting.set_status "paused"),
     Redirect "employer_dashboard" [flash "Job paused successfully!" "success"]).
Proof.
  intros Hst. unfold toggle_job_status.
  rewrite Hget, Hown, Z.eqb_refl, Hst. reflexivity.
Qed.

Lemma toggle_paused :
  JobPosting.status j = "paused" ->
  toggle_job_status db u job_id
  = (update_job db job_id (JobPosting.set_status "active"),
     Redirect "employer_dashboard"
       [flash "Job activated successfully!" "success"]).
Proof.
  intros Hst. unfold toggle_job_status.
  rewrite Hget, Hown, Z.eqb_refl, Hst. reflexivity.
Qed.

Lemma archive_owned :
  archive_job db u job_id
  = (update_job db job_id (JobPosting.set_status "archived"),
     Redirect "employer_dashboard"
       [flash "Job archived successfully!" "success"]).
Proof.
  unfold archive_job. rewrite Hget, Hown, Z.eqb_refl. reflexivity.
Qed.

End OwnerRequests.

Lemma set_status_keeps_id (s : string) (p : JobPosting.t) :
  JobPosting.id (JobPosting.set_status s p) = JobPosting.id p.
Proof. reflexivity. Qed.

Lemma set_status_same_but_status (s : string) (p : JobPosting.t) :
  same_but_status p (JobPosting.set_status s p).
Proof. repeat split. Qed.

Lemma same_but_status_trans (a b c : JobPosting.t) :
  same_but_status a b -> same_but_status b c -> same_but_status a c.
Proof.
  unfold same_but_status.
  unfold same_place.
  intros (A0 & A1 & A2 & A3 & A4 & A5 & A6) (B0 & B1 & B2 & B3 & B4 & B5 & B6).
  destruct A0 as (A01 & A02 & A03 & A04 & A05 & A06 & A07).
  destruct B0 as (B01 & B02 & B03 & B04 & B05 & B06 & B07).
  repeat split; congruence.
Qed.

Lemma update_job_spares (db : Database) (job_id : Z)
    (f : JobPosting.t -> JobPosting.t) (i : nat) (p : JobPosting.t) :
  nth_error (job_postings db) i = Some p ->
  JobPosting.id p <> job_id ->
  nth_error (job_postings (update_job db job_id f)) i = Some p.
Proof.
  intros H Hid. unfold update_job. cbn [job_postings].
  destruct (update_row_nth job_id f _ _ H) as [E|[E _]]; [exact E|].
  apply find_some in E. destruct E as [_ E]. apply Z.eqb_eq in E.
  contradiction.
Qed.

Lemma toggle_job_status_spares (db : Database) (u : User.t) (job_id : Z)
    (i : nat) (p : JobPosting.t) :
  nth_error (job_postings db) i = Some p ->
  JobPosting.id p <> job_id ->
  nth_error (job_postings (fst (toggle_job_status db u job_id))) i = Some p.
Proof.
  intros H Hid. unfold toggle_job_status.
  destruct (get_job db job_id) as [j|]; [|exact H].
  destruct (negb _); [exact H|].
  destruct (String.eqb (JobPosting.status j) "active");
    [apply update_job_spares; assumption|].
  destruct (String.eqb (JobPosting.status j) "paused");
    [apply update_job_spares; assumption|exact H].
Qed.

Lemma archive_job_spares (db : Database) (u : User.t) (job_id : Z)
    (i : nat) (p : JobPosting.t) :
  nth_error (job_postings db) i = Some p ->
  JobPosting.id p <> job_id ->
  nth_error (job_postings (fst (archive_job db u job_id))) i = Some p.
Proof.
  intros H Hid. unfold archive_job.
  destruct (get_job db job_id) as [j|]; [|exact H].
  destruct (negb _); [exact H|].
  apply update_job_spares; assumption.
Qed.

(** X5.  For the owner of a posting that is active or paused,
    [toggle_job_status] flips the status between the two, so that a second
    toggle brings the status back; archiving an archived posting leaves it
    archived.  In both cases the posting keeps every other represented
    column, and every other posting stays as it is. *)
Theorem toggle_twice_and_archive_twice :
  forall (db : Database) (u : User.t) (job_id : Z) (j : JobPosting.t),
    get_job db job_id = Some j ->
    JobPosting.employer_id j = User.id u ->
    let toggled := fst (toggle_job_status db u job_id) in
    let toggled_twice := fst (toggle_job_status toggled u job_id) in
    let archived := fst (archive_job db u job_id) in
    let archived_twice := fst (archive_job archived u job_id) in
    (JobPosting.status j = "active" \/ JobPosting.status j = "paused" ->
     exists j1 j2 : JobPosting.t,
       get_job toggled job_id = Some j1 /\
       get_job toggled_twice job_id = Some j2 /\
       (JobPosting.status j = "active" -> JobPosting.status j1 = "paused") /\
       (JobPosting.status j = "paused" -> JobPosting.status j1 = "active") /\
       JobPosting.status j2 = JobPosting.status j /\
       same_but_status j j2) /\
    (exists a1 a2 : JobPosting.t,
       get_job archived job_id = Some a1 /\
       get_job archived_twice job_id = Some a2 /\
       JobPosting.status a1 = "archived" /\
       JobPosting.status a2 = "archived" /\
       same_but_status j a2) /\
    (forall (i : nat) (p : JobPosting.t),
        nth_error (job_postings db) i = Some p ->
        JobPosting.id p <> job_id ->
        nth_error (job_postings toggled_twice) i = Some p /\
        nth_error (job_postings archived_twice) i = Some p).
Proof.
  intros db u job_id j Hget Hown. cbv zeta. split; [|split].
  - intros [Hst|Hst].
    + rewrite (@toggle_active db u job_id j Hget Hown Hst). cbn [fst].
      assert (H1 : get_job (update_job db job_id (JobPosting.set_status "paused"))
                     job_id = Some (JobPosting.set_status "paused" j))
        by (apply get_job_update; [apply set_status_keeps_id|exact Hget]).
      rewrite (@toggle_paused _ u job_id _ H1 Hown eq_refl). cbn [fst].
      exists (JobPosting.set_status "paused" j),
             (JobPosting.set_status "active" (JobPosting.set_status "paused" j)).
      split; [exact H1|]. split.
      { apply get_job_update; [apply set_status_keeps_id|exact H1]. }
      split; [reflexivity|]. split; [intros H; rewrite Hst in H; discriminate H|].
      split; [symmetry; exact Hst|].
      eapply same_but_status_trans; apply set_status_same_but_status.
    + rewrite (@toggle_paused db u job_id j Hget Hown Hst). cbn [fst].
      assert (H1 : get_job (update_job db job_id (JobPosting.set_status "active"))
                     job_id = Some (JobPosting.set_status "active" j))
        by (apply get_job_update; [apply set_status_keeps_id|exact Hget]).
      rewrite (@toggle_active _ u job_id _ H1 Hown eq_refl). cbn [fst].
      exists (JobPosting.set_status "active" j),
             (JobPosting.set_status "paused" (JobPosting.set_status "active" j)).
      split; [exact H1|]. split.
      { apply get_job_update; [apply set_status_keeps_id|exact H1]. }
      split; [intros H; rewrite Hst in H; discriminate H|].
      split; [reflexivity|]. split; [symmetry; exact Hst|].
      eapply same_but_status_trans; apply set_status_same_but_status.
  - rewrite (@archive_owned db u job_id j Hget Hown). cbn [fst].
    assert (H1 : get_job (update_job db job_id (JobPosting.set_status "archived"))
                   job_id = Some (JobPosting.set_status "archived" j))
      by (apply get_job_update; [apply set_status_keeps_id|exact Hget]).
    rewrite (@archive_owned _ u job_id _ H1 Hown). cbn [fst].
    exists (JobPosting.set_status "archived" j),
           (JobPosting.set_status "archived" (JobPosting.set_status "archived" j)).
    split; [exact H1|]. split.
    { apply get_job_update; [apply set_status_keeps_id|exact H1]. }
    split; [reflexivity|]. split; [reflexivity|].
    eapply same_but_status_trans; apply set_status_same_but_status.
  - intros i p Hp Hid. split.
    + apply toggle_job_status_spares; [|exact Hid].
      apply toggle_job_status_spares; assumption.
    + apply archive_job_spares; [|exact Hid].
      apply archive_job_spares; assumption.
Qed.

Lemma toggle_twice_and_archive_twice_witness :
  exists j1 j2 : JobPosting.t,
    get_job (fst (toggle_job_status two_postings_db employer_1 8)) 8
      = Some j1 /\
    get_job (fst (toggle_job_status
                    (fst (toggle_job_status two_postings_db employer_1 8))
                    employer_1 8)) 8 = Some j2 /\
    (JobPosting.status active_posting = "active" ->
     JobPosting.status j1 = "paused") /\
    (JobPosting.status active_posting = "paused" ->
     JobPosting.status j1 = "active") /\
    JobPosting.status j2 = JobPosting.status active_posting /\
    same_but_status active_posting j2.
Proof.
  apply (proj1 (@toggle_twice_and_archive_twice two_postings_db employer_1 8
                  active_posting eq_refl eq_refl)).
  left. reflexivity.
Defined.

Lemma same_place_refl (j : JobPosting.t) : same_place j j.
Proof. repeat split. Qed.

Lemma same_place_trans (a b c : JobPosting.t) :
  same_place a b -> same_place b c -> same_place a c.
Proof.
  unfold same_place. intros (A1 & A2 & A3 & A4 & A5 & A6 & A7)
    (B1 & B2 & B3 & B4 & B5 & B6 & B7).
  repeat split; congruence.
Qed.

Section StepEffects.

Variable w : World.

Lemma create_job_effect (db : Database) (u : User.t) (m : http_method)
    (form : JobForm) :
  step_effect db u (committed db (create_job w db u m form)).
Proof.
  unfold create_job.
  destruct (negb (User.role u =? "employer")); [apply effect_none; reflexivity|].
  destruct m; [apply effect_none; reflexivity|].
  destruct (geocode_address w _ _ _) as [[lat lng]|e]; [|apply effect_none; reflexivity].
  cbn [bind].
  destruct (negb (truthy lat) || negb (truthy lng)); [apply effect_none; reflexivity|].
  destruct (as_coordinate lat) as [lat_f|e]; [|apply effect_none; reflexivity].
  destruct (as_coordinate lng) as [lng_f|e]; [|apply effect_none; reflexivity].
  cbn [bind].
  destruct (is_within_service_area w lat_f lng_f) as [[|]|e];
    [|apply effect_none; reflexivity|apply effect_none; reflexivity].
  cbn [bind negb].
  destruct (salary_of w (jf_salary_min form)) as [smin|e]; [|apply effect_none; reflexivity].
  destruct (salary_of w (jf_salary_max form)) as [smax|e]; [|apply effect_none; reflexivity].
  eapply effect_append; [| |reflexivity]; reflexivity.
Qed.

Lemma owner_of_eqb (j : JobPosting.t) (u : User.t) :
  negb (Z.eqb (JobPosting.employer_id j) (User.id u)) = false ->
  JobPosting.employer_id j = User.id u.
Proof. intros H. apply negb_false_iff, Z.eqb_eq in H. exact H. Qed.

Lemma edit_job_effect (db : Database) (u : User.t) (job_id : Z)
    (m : http_method) (form : JobForm) :
  step_effect db u (committed db (edit_job w db u job_id m form)).
Proof.
  unfold edit_job.
  destruct (get_job db job_id) as [j|] eqn:Hget; [|apply effect_none; reflexivity].
  destruct (negb _) eqn:Hown; [apply effect_none; reflexivity|].
  apply owner_of_eqb in Hown.
  destruct m; [apply effect_none; reflexivity|].
  destruct (salary_of w (jf_salary_min form)) as [smin|e]; [|apply effect_none; reflexivity].
  destruct (salary_of w (jf_salary_max form)) as [smax|e]; [|apply effect_none; reflexivity].
  eapply effect_update; [exact Hget|exact Hown| |reflexivity].
  intros p. repeat split.
Qed.

Lemma toggle_job_status_effect (db : Database) (u : User.t) (job_id : Z) :
  step_effect db u (fst (toggle_job_status db u job_id)).
Proof.
  unfold toggle_job_status.
  destruct (get_job db job_id) as [j|] eqn:Hget; [|apply effect_none; reflexivity].
  destruct (negb _) eqn:Hown; [apply effect_none; reflexivity|].
  apply owner_of_eqb in Hown.
  destruct (JobPosting.status j =? "active").
  - eapply effect_update; [exact Hget|exact Hown| |reflexivity].
    intros p. repeat split.
  - destruct (JobPosting.status j =? "paused"); [|apply effect_none; reflexivity].
    eapply effect_update; [exact Hget|exact Hown| |reflexivity].
    intros p. repeat split.
Qed.

Lemma archive_job_effect (db : Database) (u : User.t) (job_id : Z) :
  step_effect db u (fst (archive_job db u job_id)).
Proof.
  unfold archive_job.
  destruct (get_job db job_id) as [j|] eqn:Hget; [|apply effect_none; reflexivity].
  destruct (negb _) eqn:Hown; [apply effect_none; reflexivity|].
  apply owner_of_eqb in Hown.
  eapply effect_update; [exact Hget|exact Hown| |reflexivity].
  intros p. repeat split.
Qed.

Lemma step_has_effect (db : Database) (r : request) :
  step_effect db (requester r) (step w db r).
Proof.
  destruct r; cbn [step requester].
  - apply create_job_effect.
  - apply edit_job_effect.
  - apply toggle_job_status_effect.
  - apply archive_job_effect.
Qed.

Lemma step_keeps_ids_unique (db : Database) (r : request) :
  NoDup (posting_ids db) -> NoDup (posting_ids (step w db r)).
Proof.
  intros H. destruct (step_has_effect db r) as [->|p Hid _ ->|job_id j f _ _ Hf ->].
  - exact H.
  - unfold posting_ids. cbn [job_postings]. rewrite map_app. cbn [map].
    apply NoDup_app_remove_l with (l := []).
    cbn [app]. apply Permutation_NoDup with (l := (JobPosting.id p :: posting_ids db)).
    + apply Permutation_cons_append.
    + constructor; [|exact H]. rewrite Hid. apply next_id_fresh.
  - unfold posting_ids, update_job. cbn [job_postings].
    rewrite update_row_ids; [exact H|]. intros p. apply (Hf p).
Qed.

Lemma step_keeps_place (db : Database) (r : request) (i : nat)
    (j : JobPosting.t) :
  nth_error (job_postings db) i = Some j ->
  exists j', nth_error (job_postings (step w db r)) i = Some j' /\
             same_place j j'.
Proof.
  intros H. destruct (step_has_effect db r) as [->|p _ _ ->|job_id j0 f _ _ Hf ->].
  - exists j. split; [exact H|apply same_place_refl].
  - exists j. split; [|apply same_place_refl]. cbn [job_postings].
    rewrite nth_error_app1; [exact H|]. apply nth_error_Some. congruence.
  - unfold update_job. cbn [job_postings].
    destruct (update_row_nth job_id f _ _ H) as [E|[_ E]].
    + exists j. split; [exact E|apply same_place_refl].
    + exists (f j). split; [exact E|apply Hf].
Qed.

Lemma step_spares_others (db : Database) (r : request) (i : nat)
    (j : JobPosting.t) :
  nth_error (job_postings db) i = Some j ->
  JobPosting.employer_id j <> User.id (requester r) ->
  nth_error (job_postings (step w db r)) i = Some j.
Proof.
  intros H Hother.
  destruct (step_has_effect db r) as [->|p _ _ ->|job_id j0 f Hget Hown _ ->].
  - exact H.
  - cbn [job_postings]. rewrite nth_error_app1; [exact H|].
    apply nth_error_Some. congruence.
  - unfold update_job. cbn [job_postings].
    destruct (update_row_nth job_id f _ _ H) as [E|[E _]]; [exact E|].
    unfold get_job in Hget. rewrite Hget in E. injection E as ->.
    contradiction.
Qed.

End StepEffects.

(** X6.  Primary keys of postings stay unique: if no two postings share an
    id, no sequence of job creations, edits, toggles and archivings makes
    two postings share one. *)
Theorem posting_ids_stay_unique :
  forall (w : World) (rs : list request) (db : Database),
    NoDup (posting_ids db) -> NoDup (posting_ids (run w db rs)).
Proof.
  intros w rs. induction rs as [|r rs IH]; intros db H; cbn; [exact H|].
  apply IH, step_keeps_ids_unique, H.
Qed.

(** X7.  No request deletes a posting or moves it: after any sequence of
    requests, row [i] of the table is still the same posting, with the same
    owner, street address, city, postal code, latitude and longitude.  In
    particular [edit_job] keeps the location stored at creation. *)
Theorem postings_keep_their_place :
  forall (w : World) (rs : list request) (db : Database) (i : nat)
         (j : JobPosting.t),
    nth_error (job_postings db) i = Some j ->
    exists j', nth_error (job_postings (run w db rs)) i = Some j' /\
               same_place j j'.
Proof.
  intros w rs. induction rs as [|r rs IH]; intros db i j H; cbn [run fold_left].
  - exists j. split; [exact H|apply same_place_refl].
  - destruct (step_keeps_place w db r i H) as (j1 & H1 & S1).
    destruct (IH _ i j1 H1) as (j2 & H2 & S2).
    exists j2. split; [exact H2|]. eapply same_place_trans; eassumption.
Qed.

(** X8.  A posting changes only through requests of its owner: requests
    sent by other users, whatever they are, leave it exactly as it is. *)
Theorem postings_change_only_by_owner :
  forall (w : World) (rs : list request) (db : Database) (i : nat)
         (j : JobPosting.t),
    nth_error (job_postings db) i = Some j ->
    Forall (fun r => JobPosting.employer_id j <> User.id (requester r)) rs ->
    nth_error (job_postings (run w db rs)) i = Some j.
Proof.
  intros w rs. induction rs as [|r rs IH]; intros db i j H Hrs; cbn [run fold_left].
  - exact H.
  - inversion Hrs as [|? ? Hr Hrest]; subst.
    apply IH; [|exact Hrest]. apply step_spares_others; assumption.
Qed.

Lemma two_postings_ids_unique : NoDup (posting_ids two_postings_db).
Proof.
  change (posting_ids two_postings_db) with [7; 8]%Z.
  constructor; [intros [H|[]]; discriminate H|].
  constructor; [intros []|constructor].
Qed.

Lemma posting_ids_stay_unique_witness :
  NoDup (posting_ids (run lagos_world two_postings_db owner_requests)).
Proof.
  apply posting_ids_stay_unique. exact two_postings_ids_unique.
Defined.

Lemma postings_keep_their_place_witness :
  exists j',
    nth_error (job_postings (run lagos_world two_postings_db owner_requests)) 1
      = Some j' /\
    same_place active_posting j'.
Proof.
  apply postings_keep_their_place. reflexivity.
Defined.

Lemma postings_change_only_by_owner_witness :
  nth_error (job_postings (run lagos_world two_postings_db intruder_requests)) 1
  = Some active_posting.
Proof.
  apply postings_change_only_by_owner; [reflexivity|].
  repeat constructor; intros H; discriminate H.
Defined.

(* ================================================================== *)
(** * Further properties: the job search *)
(* ================================================================== *)

Section SearchQueryFacts.

Variable w : World.

Lemma nonempty_false (s : string) : nonempty s = false <-> s = "".
Proof.
  unfold nonempty. rewrite negb_false_iff. apply String.eqb_eq.
Qed.

Lemma nonempty_true (s : string) : nonempty s = true <-> s <> "".
Proof.
  unfold nonempty. rewrite negb_true_iff. apply String.eqb_neq.
Qed.

(** The postings that the query of [search_jobs] selects. *)
Lemma in_search_query (db : Database) (kw cat : string) (j : JobPosting.t) :
  In j (search_query w db kw cat) <->
  In j (job_postings db) /\
  JobPosting.status j = "active" /\
  (kw = "" \/
   ilike w (JobPosting.title j) ("%" ++ kw ++ "%") = true \/
   ilike w (JobPosting.description j) ("%" ++ kw ++ "%") = true) /\
  (cat = "" \/ JobPosting.category j = cat).
Proof.
  unfold search_query.
  destruct (nonempty cat) eqn:Hc; destruct (nonempty kw) eqn:Hk;
    rewrite ?filter_In, ?orb_true_iff, ?String.eqb_eq;
    [apply nonempty_true in Hc; apply nonempty_true in Hk
    |apply nonempty_true in Hc; apply nonempty_false in Hk
    |apply nonempty_false in Hc; apply nonempty_true in Hk
    |apply nonempty_false in Hc; apply nonempty_false in Hk].
  - intuition congruence.
  - intuition congruence.
  - intuition congruence.
  - intuition congruence.
Qed.

End SearchQueryFacts.

(** X9.  For a job seeker the search renders an entry for exactly the
    postings that are active, match the keyword (when one is given: [ILIKE]
    on the title or on the description) and the category (when one is given:
    equality), and whose computed distance is within the radius, which is
    25 km when the request names none; a user of another role is sent
    away. *)
Theorem search_lists_exactly_the_matches :
  forall (w : World) (db : Database) (u : User.t) (args : SearchArgs),
    let kw := match sa_keyword args with Some k => k | None => "" end in
    let cat := match sa_category args with Some c => c | None => "" end in
    let r := match sa_radius args with Some x => x | None => 25%Q end in
    (User.role u <> "job_seeker" ->
     search_jobs w db u args = Redirect "index" [access_denied]) /\
    (User.role u = "job_seeker" ->
     exists l : list JobWithDistance,
       search_jobs w db u args = RenderSearch l kw cat r /\
       forall e : JobWithDistance,
         In e l <->
         In (job e) (job_postings db) /\
         JobPosting.status (job e) = "active" /\
         (kw = "" \/
          ilike w (JobPosting.title (job e)) ("%" ++ kw ++ "%") = true \/
          ilike w (JobPosting.description (job e)) ("%" ++ kw ++ "%") = true) /\
         (cat = "" \/ JobPosting.category (job e) = cat) /\
         (distance_from w u (job e) <= r)%Q /\
         distance e = PyNum.round (distance_from w u (job e)) 2).
Proof.
  intros w db u args kw cat r. split.
  - intros H. unfold search_jobs. apply String.eqb_neq in H. rewrite H. reflexivity.
  - intros H. eexists. split.
    + unfold search_jobs. rewrite H. reflexivity.
    + intros e. fold kw cat r.
      assert (Hp : forall l : list JobWithDistance,
                 In e (list_sort distance l) <-> In e l).
      { intros l. split; apply Permutation_in;
          [apply Permutation_sym|]; apply list_sort_perm. }
      rewrite Hp, in_jobs_in_radius, in_search_query. tauto.
Qed.

Lemma search_lists_exactly_the_matches_witness :
  exists l : list JobWithDistance,
    search_jobs line_world search_db seeker_2 radius_10
      = RenderSearch l "" "" 10 /\
    forall e : JobWithDistance,
      In e l <->
      In (job e) (job_postings search_db) /\
      JobPosting.status (job e) = "active" /\
      ("" = "" \/
       ilike line_world (JobPosting.title (job e)) ("%" ++ "" ++ "%") = true \/
       ilike line_world (JobPosting.description (job e)) ("%" ++ "" ++ "%")
         = true) /\
      ("" = "" \/ JobPosting.category (job e) = "") /\
      (distance_from line_world seeker_2 (job e) <= 10)%Q /\
      distance e = PyNum.round (distance_from line_world seeker_2 (job e)) 2.
Proof.
  exact (proj2 (search_lists_exactly_the_matches line_world search_db seeker_2
                  radius_10) eq_refl).
Defined.

(** X10.  A larger radius never loses a result: every entry rendered for
    radius [r1] is rendered for any radius [r2] above it, the rest of the
    request being the same. *)
Theorem search_grows_with_radius :
  forall (w : World) (db : Database) (u : User.t) (kw cat : option string)
         (r1 r2 : Q) (l1 l2 : list JobWithDistance) (k1 c1 k2 c2 : string)
         (x1 x2 : Q),
    (r1 <= r2)%Q ->
    search_jobs w db u
      {| sa_keyword := kw; sa_category := cat; sa_radius := Some r1 |}
      = RenderSearch l1 k1 c1 x1 ->
    search_jobs w db u
      {| sa_keyword := kw; sa_category := cat; sa_radius := Some r2 |}
      = RenderSearch l2 k2 c2 x2 ->
    incl l1 l2.
Proof.
  intros w db u kw cat r1 r2 l1 l2 k1 c1 k2 c2 x1 x2 Hr H1 H2.
  apply search_jobs_rendered in H1, H2. cbn [sa_keyword sa_category sa_radius] in *.
  destruct H1 as (_ & -> & -> & -> & ->). destruct H2 as (_ & -> & -> & -> & ->).
  intros e He.
  apply (Permutation_in _ (list_sort_perm distance _)).
  apply (Permutation_in _ (Permutation_sym (list_sort_perm distance _))) in He.
  apply in_jobs_in_radius in He. apply in_jobs_in_radius.
  destruct He as (Hj & Hd & Heq). repeat split; try assumption.
  apply Qle_trans with (y := r1); assumption.
Qed.

Lemma search_grows_with_radius_witness :
  incl rendered_radius_10
    (list_sort distance
       (jobs_in_radius line_world seeker_2 200
          (search_query line_world search_db "" ""))).
Proof.
  apply (@search_grows_with_radius line_world search_db seeker_2 None None
           10 200 _ _ "" "" "" "" 10 200).
  - discriminate.
  - reflexivity.
  - reflexivity.
Defined.

(* ================================================================== *)
(** * Further properties: analytics *)
(* ================================================================== *)

Module RateFacts.
Import PyNum PyNumFacts.
Local Open Scope Q_scope.

(** Rounding does not depend on how a rational is written. *)
Lemma fl_comp (x y : Q) : x == y -> fl x == fl y.
Proof.
  intros H. apply Qle_antisym; apply fl_mono; rewrite H; apply Qle_refl.
Qed.

Lemma ratio_mono (c1 c2 n : nat) :
  (c1 <= c2)%nat -> (0 < n)%nat ->
  inject_Z (Z.of_nat c1) / inject_Z (Z.of_nat n)
  <= inject_Z (Z.of_nat c2) / inject_Z (Z.of_nat n).
Proof.
  intros Hc Hn. unfold Qdiv. apply Qmult_le_compat_r.
  - rewrite <- Zle_Qle. lia.
  - apply Qlt_le_weak, Qinv_lt_0_compat.
    change 0 with (inject_Z 0). rewrite <- Zlt_Qlt. lia.
Qed.

(** A larger count gives a larger percentage, roundings included. *)
Lemma percentage_mono (c1 c2 n : nat) :
  (c1 <= c2)%nat -> percentage c1 n <= percentage c2 n.
Proof.
  intros Hc. destruct n as [|m]; [apply Qle_refl|].
  rewrite !PercentFacts.percentage_S. apply fl_mono.
  apply Qmult_le_compat_r; [|discriminate].
  apply fl_mono, ratio_mono; [exact Hc|lia].
Qed.

Lemma percentage_all (n : nat) : (0 < n)%nat -> percentage n n == 100.
Proof.
  intros Hn. destruct n as [|m]; [lia|].
  rewrite PercentFacts.percentage_S.
  assert (H1 : inject_Z (Z.of_nat (S m)) / inject_Z (Z.of_nat (S m)) == 1).
  { apply Qmult_inv_r. intros E.
    assert (H0 : 0 < inject_Z (Z.of_nat (S m))).
    { change 0 with (inject_Z 0). rewrite <- Zlt_Qlt. lia. }
    rewrite E in H0. discriminate. }
  assert (H2 : fl (inject_Z (Z.of_nat (S m)) / inject_Z (Z.of_nat (S m))) == 1).
  { rewrite (fl_comp H1). reflexivity. }
  assert (H3 : fl (inject_Z (Z.of_nat (S m)) / inject_Z (Z.of_nat (S m))) * 100
               == 100) by (rewrite H2; reflexivity).
  rewrite (fl_comp H3). reflexivity.
Qed.

Lemma percentage_range (c n : nat) :
  (c <= n)%nat -> 0 <= percentage c n <= 100.
Proof.
  intros Hc. destruct n as [|m].
  - cbn. split; discriminate.
  - split.
    + change 0 with (percentage 0 (S m)). apply percentage_mono. lia.
    + rewrite <- (@percentage_all (S m)) by lia. apply percentage_mono, Hc.
Qed.

Lemma rate_range (c n : nat) :
  (c <= n)%nat -> 0 <= round (percentage c n) 1 <= 100.
Proof.
  intros Hc. destruct (percentage_range Hc) as [H0 H1]. split.
  - change 0 with (round 0 1). apply round_mono, H0.
  - change 100 with (round 100 1). apply round_mono, H1.
Qed.

Lemma rate_mono (c1 c2 n : nat) :
  (c1 <= c2)%nat -> round (percentage c1 n) 1 <= round (percentage c2 n) 1.
Proof. intros H. apply round_mono, percentage_mono, H. Qed.

End RateFacts.

Section SnapshotFacts.

Lemma filter_length_mono (A : Type) (p q : A -> bool) (l : list A) :
  (forall x, p x = true -> q x = true) ->
  (List.length (filter p l) <= List.length (filter q l))%nat.
Proof.
  intros H. induction l as [|x l IH]; [reflexivity|]. cbn [filter].
  destruct (p x) eqn:Hp.
  - rewrite (H x Hp). cbn [List.length]. lia.
  - destruct (q x); cbn [List.length]; lia.
Qed.

Lemma count_with_status_le (s : string) (apps : list Application.t) :
  (count_with_status s apps <= List.length apps)%nat.
Proof. unfold count_with_status. apply filter_length_le. Qed.

Lemma count_responded_le (apps : list Application.t) :
  (count_responded apps <= List.length apps)%nat.
Proof. unfold count_responded. apply filter_length_le. Qed.

(** Whoever has a status other than 'applied' counts as responded. *)
Lemma count_with_status_responded (s : string) (apps : list Application.t) :
  s <> "applied" -> (count_with_status s apps <= count_responded apps)%nat.
Proof.
  intros Hs. unfold count_with_status, count_responded.
  apply filter_length_mono. intros a Ha. apply String.eqb_eq in Ha.
  apply negb_true_iff, String.eqb_neq. congruence.
Qed.

Lemma lifecycle_counts (jobs : list JobPosting.t) :
  Forall (fun j => lifecycle_status (JobPosting.status j)) jobs ->
  (count_jobs_with_status "active" jobs + count_jobs_with_status "paused" jobs
   + count_jobs_with_status "archived" jobs = List.length jobs)%nat.
Proof.
  unfold count_jobs_with_status.
  induction 1 as [|j jobs Hj _ IH]; [reflexivity|].
  cbn [filter List.length].
  destruct Hj as [E|[E|E]]; rewrite E;
    cbn [String.eqb Ascii.eqb Bool.eqb List.length]; lia.
Qed.

Lemma sum_Z_nonneg (xs : list Z) :
  Forall (fun x => 0 <= x)%Z xs -> (0 <= sum_Z xs)%Z.
Proof.
  induction 1 as [|x xs Hx _ IH]; cbn [sum_Z fold_right]; [lia|].
  unfold sum_Z in IH. lia.
Qed.

Lemma mean_whole_days_nonneg (apps : list Application.t) :
  Forall (fun a => (Application.submitted_at a <= Application.updated_at a)%Z)
    apps ->
  (0 <= mean_whole_days apps)%Q.
Proof.
  intros H. unfold mean_whole_days. destruct apps as [|a rest]; [discriminate|].
  unfold PyNum.truediv. apply PyNumFacts.fl_nonneg.
  apply Qle_shift_div_l.
  - change 0%Q with (inject_Z 0). rewrite <- Zlt_Qlt. cbn [List.length]. lia.
  - rewrite Qmult_0_l. change 0%Q with (inject_Z 0). rewrite <- Zle_Qle.
    apply sum_Z_nonneg. apply Forall_map.
    apply Forall_impl with (2 := H). intros x Hx.
    unfold elapsed_days. cbn [Qfloor]. apply Z.div_pos; lia.
Qed.

End SnapshotFacts.

(** X11.  Every rate of the snapshot lies between 0 and 100, and the
    response rate is at least the acceptance rate, the interview rate and
    the rejection rate. *)
Theorem rates_are_percentages :
  forall (db : Database) (employer : Z),
    let s := compute_snapshot db employer in
    (0 <= acceptance_rate s <= 100 /\ 0 <= interview_rate s <= 100 /\
     0 <= rejection_rate s <= 100 /\ 0 <= response_rate s <= 100)%Q /\
    (acceptance_rate s <= response_rate s /\
     interview_rate s <= response_rate s /\
     rejection_rate s <= response_rate s)%Q.
Proof.
  intros db employer. unfold compute_snapshot.
  cbn [acceptance_rate interview_rate rejection_rate response_rate].
  set (apps := employer_applications db employer).
  split.
  - repeat split;
      apply RateFacts.rate_range;
      auto using count_with_status_le, count_responded_le.
  - repeat split; apply RateFacts.rate_mono, count_with_status_responded;
      discriminate.
Qed.

(** X12.  As long as every posting has a status of the life cycle, which
    holds for every database built by requests from the empty one, the
    snapshot's active, paused and archived counts add up to its number of
    postings. *)
Theorem job_counts_add_up :
  forall (w : World) (rs : list request) (employer : Z),
    let s := compute_snapshot (run w empty_db rs) employer in
    (active_jobs s + paused_jobs s + archived_jobs s = total_jobs s)%nat.
Proof.
  intros w rs employer. unfold compute_snapshot.
  cbn [active_jobs paused_jobs archived_jobs total_jobs].
  apply lifecycle_counts.
  assert (H : well_formed (run w empty_db rs))
    by (apply run_well_formed; constructor).
  unfold well_formed in H. rewrite Forall_forall in *.
  intros j Hj. apply filter_In in Hj. apply H. tauto.
Qed.

(** X13.  When no answered application of the employer was updated before
    it was submitted, the average response time of the snapshot is not
    negative. *)
Theorem avg_response_time_nonneg :
  forall (db : Database) (employer : Z),
    Forall (fun a => (Application.submitted_at a <= Application.updated_at a)%Z)
      (responded (employer_applications db employer)) ->
    (0 <= avg_response_time (compute_snapshot db employer))%Q.
Proof.
  intros db employer H. unfold compute_snapshot. cbn [avg_response_time].
  rewrite average_response_times.
  change 0%Q with (PyNum.round 0 1).
  apply PyNumFacts.round_mono, mean_whole_days_nonneg, H.
Qed.

Lemma avg_response_time_nonneg_witness :
  (0 <= avg_response_time (compute_snapshot (analytics_db three_answers) 1))%Q.
Proof.
  apply avg_response_time_nonneg.
  change (responded (employer_applications (analytics_db three_answers) 1))
    with three_answers.
  repeat constructor; intros H; discriminate H.
Defined.

(** X14.  The snapshot of an employer depends on the applications to that
    employer's postings only: an application to a posting of another
    employer, or to no posting at all, does not change it. *)
Theorem snapshot_ignores_other_employers :
  forall (db : Database) (employer : Z) (a : Application.t),
    (forall j, get_job db (Application.job_id a) = Some j ->
               JobPosting.employer_id j <> employer) ->
    compute_snapshot
      {| users := users db; job_postings := job_postings db;
         applications := (applications db ++ [a])%list |} employer
    = compute_snapshot db employer.
Proof.
  intros db employer a H.
  assert (E : employer_applications
                {| users := users db; job_postings := job_postings db;
                   applications := (applications db ++ [a])%list |} employer
              = employer_applications db employer).
  { unfold employer_applications. cbn [applications].
    rewrite filter_app. cbn [filter].
    change (get_job {| users := users db; job_postings := job_postings db;
                       applications := (applications db ++ [a])%list |}
              (Application.job_id a))
      with (get_job db (Application.job_id a)).
    destruct (get_job db (Application.job_id a)) as [j|] eqn:Hj.
    - specialize (H j eq_refl). apply Z.eqb_neq in H. rewrite H.
      rewrite app_nil_r. apply filter_ext. intros x. reflexivity.
    - rewrite app_nil_r. apply filter_ext. intros x. reflexivity. }
  unfold compute_snapshot. rewrite E. reflexivity.
Qed.

Lemma snapshot_ignores_other_employers_witness :
  compute_snapshot
    {| users := users (analytics_db ten_applications);
       job_postings := job_postings (analytics_db ten_applications);
       applications :=
         (applications (analytics_db ten_applications)
          ++ [Application.mk 99 1 2 "accepted" 0 0])%list |} 3
  = compute_snapshot (analytics_db ten_applications) 3.
Proof.
  apply snapshot_ignores_other_employers.
  intros j Hj. injection Hj as <-. intros H. discriminate H.
Defined.

(* ================================================================== *)
(** * Further properties: resume files *)
(* ================================================================== *)

Section SplitFacts.

Variable c : ascii.

Lemma split_at_last_none (s : string) :
  split_at_last c s = None <-> contains c s = false.
Proof.
  induction s as [|a rest IH]; cbn [split_at_last contains]; [tauto|].
  destruct (split_at_last c rest) as [[h t]|].
  - split; [discriminate|]. intros H. apply orb_false_iff in H.
    destruct H as [_ H]. apply IH in H. discriminate.
  - destruct (Ascii.eqb a c); cbn [orb].
    + split; discriminate.
    + split; intros _; [apply IH|]; reflexivity.
Qed.

Lemma split_at_last_some (s head tail : string) :
  split_at_last c s = Some (head, tail) <->
  s = head ++ String c tail /\ contains c tail = false.
Proof.
  revert head. induction s as [|a rest IH]; intros head; cbn [split_at_last].
  - split; [discriminate|]. intros [H _]. destruct head; discriminate.
  - destruct (split_at_last c rest) as [[h t]|] eqn:E.
    + split.
      * intros H. injection H as <- <-.
        destruct (proj1 (IH h) eq_refl) as [-> Ht]. auto.
      * intros [H Ht]. destruct head as [|b head'].
        -- cbn in H. injection H as -> ->.
           apply split_at_last_none in Ht. congruence.
        -- cbn in H. injection H as -> Hrest.
           assert (Some (h, t) = Some (head', tail)) as Heq
             by (apply IH; auto).
           injection Heq as -> ->. reflexivity.
    + apply split_at_last_none in E. split.
      * destruct (Ascii.eqb a c) eqn:Ea; [|discriminate].
        apply Ascii.eqb_eq in Ea. intros H. injection H as <- <-.
        subst a. auto.
      * intros [H Ht]. destruct head as [|b head'].
        -- cbn in H. injection H as -> ->. rewrite Ascii.eqb_refl. reflexivity.
        -- cbn in H. injection H as -> Hrest. exfalso.
           assert (Hc : contains c rest = true).
           { rewrite Hrest. clear. induction head' as [|x h IH];
               cbn [append contains].
             - rewrite Ascii.eqb_refl. reflexivity.
             - rewrite IH. apply orb_true_r. }
           congruence.
Qed.

End SplitFacts.

Lemma contains_middle (c : ascii) (head tail : string) :
  contains c (head ++ String c tail) = true.
Proof.
  induction head as [|x h IH]; cbn [append contains].
  - rewrite Ascii.eqb_refl. reflexivity.
  - rewrite IH. apply orb_true_r.
Qed.

Lemma lower_char_p (c : ascii) :
  lower_char c = "p"%char <-> c = "p"%char \/ c = "P"%char.
Proof.
  split.
  - destruct c as [[] [] [] [] [] [] [] []]; vm_compute; intros H;
      try discriminate H; auto.
  - intros [->| ->]; reflexivity.
Qed.

Lemma lower_char_d (c : ascii) :
  lower_char c = "d"%char <-> c = "d"%char \/ c = "D"%char.
Proof.
  split.
  - destruct c as [[] [] [] [] [] [] [] []]; vm_compute; intros H;
      try discriminate H; auto.
  - intros [->| ->]; reflexivity.
Qed.

Lemma lower_char_f (c : ascii) :
  lower_char c = "f"%char <-> c = "f"%char \/ c = "F"%char.
Proof.
  split.
  - destruct c as [[] [] [] [] [] [] [] []]; vm_compute; intros H;
      try discriminate H; auto.
  - intros [->| ->]; reflexivity.
Qed.

Lemma lower_pdf (ext : string) : lower ext = "pdf" <-> In ext pdf_spellings.
Proof.
  split.
  - destruct ext as [|a [|b [|c [|x rest]]]]; cbn [lower]; intros H;
      try discriminate H.
    injection H as Ha Hb Hc.
    apply lower_char_p in Ha. apply lower_char_d in Hb. apply lower_char_f in Hc.
    unfold pdf_spellings. cbn [In].
    destruct Ha as [->| ->], Hb as [->| ->], Hc as [->| ->]; tauto.
  - unfold pdf_spellings. cbn [In].
    intros [<-|[<-|[<-|[<-|[<-|[<-|[<-|[<-|[]]]]]]]]]; reflexivity.
Qed.

(** X15.  [allowed_file] accepts exactly the names that end in a dot
    followed by [pdf] in any mix of upper and lower case: only the text
    after the last dot counts, and a name without a dot is refused. *)
Theorem allowed_file_iff_pdf_extension :
  forall filename : string,
    allowed_file filename = true <->
    exists stem ext : string,
      filename = stem ++ "." ++ ext /\ In ext pdf_spellings.
Proof.
  intros filename. unfold allowed_file, rsplit_1. split.
  - intros H. apply andb_true_iff in H. destruct H as [Hdot H].
    destruct (split_at_last "." filename) as [[head tail]|] eqn:E.
    + cbn [nth_error] in H. unfold ALLOWED_EXTENSIONS in H. cbn [existsb] in H.
      rewrite orb_false_r in H. apply String.eqb_eq in H.
      apply split_at_last_some in E. destruct E as [-> _].
      exists head, tail. split; [reflexivity|]. apply lower_pdf. exact H.
    + cbn [nth_error] in H. discriminate.
  - intros (stem & ext & -> & Hext).
    assert (Hnodot : contains "." ext = false).
    { unfold pdf_spellings in Hext. cbn [In] in Hext.
      destruct Hext as [<-|[<-|[<-|[<-|[<-|[<-|[<-|[<-|[]]]]]]]]];
        reflexivity. }
    assert (E : split_at_last "." (stem ++ "." ++ ext) = Some (stem, ext))
      by (apply split_at_last_some; auto).
    assert (Hc : contains "." (stem ++ "." ++ ext) = true)
      by apply contains_middle.
    rewrite Hc, E. cbn [nth_error andb]. unfold ALLOWED_EXTENSIONS.
    cbn [existsb]. apply lower_pdf in Hext. rewrite Hext. reflexivity.
Qed.

Example allowed_file_examples :
  map allowed_file ["cv.pdf"; "cv.PDF"; "a.b.Pdf"; ".pdf"; "cv.pdf.exe";
                    "cv.docx"; "pdf"; "cv.pdf."; ""]
  = [true; true; true; true; false; false; false; false; false].
Proof. reflexivity. Qed.

Section UploadFacts.

Variable secure_filename : string -> string.

(** What an upload does to the table: nothing, or one more row for the
    requester, who had fewer than three and sent an allowed file name. *)
Lemma upload_resume_effect (store : ResumeStore) (u : User.t)
    (file : option string) (timestamp : string) :
  let store' := fst (upload_resume secure_filename store u file timestamp) in
  store' = store \/
  exists (name : string) (r : Resume.t),
    file = Some name /\ name <> "" /\ allowed_file name = true /\
    User.role u = "job_seeker" /\
    (resume_count_of (User.id u) store < 3)%nat /\
    Resume.user_id r = User.id u /\
    Resume.original_filename r = secure_filename name /\
    Resume.filename r
      = str_int (User.id u) ++ "_" ++ timestamp ++ "_" ++ secure_filename name /\
    ~ In (Resume.id r) (map Resume.id (resumes store)) /\
    resumes store' = (resumes store ++ [r])%list /\
    In (Resume.filename r) (upload_folder store').
Proof.
  cbv zeta. unfold upload_resume.
  destruct (User.role u =? "job_seeker") eqn:Hrole; cbn [negb]; [|left; reflexivity].
  apply String.eqb_eq in Hrole.
  destruct (Nat.leb_spec 3
              (List.length
                 (filter (fun r => Z.eqb (Resume.user_id r) (User.id u))
                    (resumes store)))) as [Hfull|Hroom]; [left; reflexivity|].
  destruct file as [name|]; [|left; reflexivity].
  destruct (name =? "") eqn:Hname; [left; reflexivity|].
  apply String.eqb_neq in Hname.
  destruct (allowed_file name) eqn:Hallowed; [|left; reflexivity].
  right. exists name. eexists. cbn [fst resumes upload_folder].
  repeat split; try reflexivity; try assumption.
  - cbn [Resume.id]. apply next_id_fresh.
  - unfold save_file.
    destruct (existsb _ (upload_folder store)) eqn:E.
    + apply existsb_exists in E. destruct E as (x & Hx & Ex).
      apply String.eqb_eq in Ex. subst x. exact Hx.
    + apply in_or_app. right. left. reflexivity.
Qed.

Lemma resume_count_app (uid : Z) (rows : list Resume.t) (r : Resume.t)
    (folder folder' : list string) :
  resume_count_of uid {| resumes := (rows ++ [r])%list; upload_folder := folder' |}
  = (resume_count_of uid {| resumes := rows; upload_folder := folder |}
     + (if Z.eqb (Resume.user_id r) uid then 1 else 0))%nat.
Proof.
  unfold resume_count_of. cbn [resumes]. rewrite filter_app, length_app.
  cbn [filter]. destruct (Z.eqb (Resume.user_id r) uid); reflexivity.
Qed.

Lemma upload_keeps_limit (store : ResumeStore) (u : User.t)
    (file : option string) (timestamp : string) (uid : Z) :
  (resume_count_of uid store <= 3)%nat ->
  (resume_count_of uid
     (fst (upload_resume secure_filename store u file timestamp)) <= 3)%nat.
Proof.
  intros H.
  destruct (upload_resume_effect store u file timestamp)
    as [->|(name & r & _ & _ & _ & _ & Hroom & Hr & _ & _ & _ & Hrows & _)];
    [exact H|].
  set (store' := fst (upload_resume secure_filename store u file timestamp)) in *.
  unfold resume_count_of in *. rewrite Hrows, filter_app, length_app.
  cbn [filter]. rewrite Hr.
  destruct (Z.eqb_spec (User.id u) uid) as [E|E]; cbn [List.length].
  - subst uid. lia.
  - lia.
Qed.

End UploadFacts.

(** X16.  An upload either changes nothing or stores exactly one resume:
    this happens only for a job seeker who has fewer than three resumes and
    sends a non-empty file name that [allowed_file] accepts; the new row
    belongs to the requester, has a fresh primary key, and its file is in
    the upload folder afterwards. *)
Theorem upload_stores_only_allowed_files :
  forall (secure_filename : string -> string) (store : ResumeStore)
         (u : User.t) (file : option string) (timestamp : string),
    let store' := fst (upload_resume secure_filename store u file timestamp) in
    store' = store \/
    exists (name : string) (r : Resume.t),
      file = Some name /\ name <> "" /\ allowed_file name = true /\
      User.role u = "job_seeker" /\
      (resume_count_of (User.id u) store < 3)%nat /\
      Resume.user_id r = User.id u /\
      Resume.original_filename r = secure_filename name /\
      Resume.filename r
        = str_int (User.id u) ++ "_" ++ timestamp ++ "_" ++ secure_filename name /\
      ~ In (Resume.id r) (map Resume.id (resumes store)) /\
      resumes store' = (resumes store ++ [r])%list /\
      In (Resume.filename r) (upload_folder store').
Proof. intros. apply upload_resume_effect. Qed.

(** X17.  No sequence of uploads takes a user beyond three resumes: a user
    who has at most three resumes still has at most three afterwards. *)
Theorem uploads_keep_resume_limit :
  forall (secure_filename : string -> string) (ups : list upload)
         (store : ResumeStore) (uid : Z),
    (resume_count_of uid store <= 3)%nat ->
    (resume_count_of uid (run_uploads secure_filename store ups) <= 3)%nat.
Proof.
  intros sf ups. induction ups as [|up ups IH]; intros store uid H;
    cbn [run_uploads fold_left]; [exact H|].
  apply IH, upload_keeps_limit, H.
Qed.

Example five_uploads_store_three :
  map Resume.original_filename
    (resumes (run_uploads keep_name no_resumes five_uploads))
  = ["cv.pdf"; "cv.PDF"; "old.pdf"].
Proof. reflexivity. Qed.

Lemma uploads_keep_resume_limit_witness :
  (resume_count_of 2 (run_uploads keep_name no_resumes five_uploads) <= 3)%nat.
Proof.
  apply uploads_keep_resume_limit. cbn. lia.
Defined.

(* ================================================================== *)
(** * Further properties: applications *)
(* ================================================================== *)

Section ApplicationRows.

Variable application_id : Z.
Variable f : Application.t -> Application.t.

Lemma update_application_keys (rows : list Application.t) :
  (forall a, Application.job_id (f a) = Application.job_id a /\
             Application.applicant_id (f a) = Application.applicant_id a) ->
  map (fun a => (Application.job_id a, Application.applicant_id a))
    (update_application application_id f rows)
  = map (fun a => (Application.job_id a, Application.applicant_id a)) rows.
Proof.
  intros Hf. induction rows as [|a rows IH]; [reflexivity|].
  cbn [update_application]. destruct (Z.eqb (Application.id a) application_id);
    cbn [map].
  - destruct (Hf a) as [-> ->]. reflexivity.
  - rewrite IH. reflexivity.
Qed.

(** Filtering by a test that [f] does not change commutes with the update,
    as long as the row that is found passes the test. *)
Lemma update_application_filter (p : Application.t -> bool)
    (rows : list Application.t) (a : Application.t) :
  (forall x, p (f x) = p x) ->
  find (fun x => Z.eqb (Application.id x) application_id) rows = Some a ->
  p a = true ->
  filter p (update_application application_id f rows)
  = update_application application_id f (filter p rows) /\
  find (fun x => Z.eqb (Application.id x) application_id) (filter p rows)
  = Some a.
Proof.
  intros Hp. induction rows as [|x rows IH]; [discriminate|].
  cbn [find update_application filter].
  destruct (Z.eqb (Application.id x) application_id) eqn:E.
  - intros H Ha. injection H as ->. cbn [filter]. rewrite Hp, Ha.
    cbn [update_application find]. rewrite E. auto.
  - intros H Ha. destruct (IH H Ha) as [IH1 IH2]. cbn [filter].
    destruct (p x); cbn [update_application find]; rewrite ?E, ?IH1; auto.
Qed.

End ApplicationRows.

Lemma existsb_key_in (rows : list Application.t) (job_id uid : Z) :
  existsb (fun a => Z.eqb (Application.job_id a) job_id
                    && Z.eqb (Application.applicant_id a) uid) rows = false ->
  ~ In (job_id, uid)
      (map (fun a => (Application.job_id a, Application.applicant_id a)) rows).
Proof.
  intros H Hin. apply in_map_iff in Hin. destruct Hin as (a & Ha & Hin).
  injection Ha as H1 H2.
  assert (E : existsb (fun a => Z.eqb (Application.job_id a) job_id
                    && Z.eqb (Application.applicant_id a) uid) rows = true).
  { apply existsb_exists. exists a. split; [exact Hin|].
    rewrite H1, H2, !Z.eqb_refl. reflexivity. }
  congruence.
Qed.

Lemma application_step_keys (db : Database) (r : application_request) :
  NoDup (application_keys db) -> NoDup (application_keys (application_step db r)).
Proof.
  intros H. destruct r as [u job_id m ok t1 t2|u aid s now]; cbn [application_step].
  - unfold apply_job.
    destruct (negb (User.role u =? "job_seeker")); [exact H|].
    destruct (get_job db job_id); [|exact H].
    destruct (existsb _ (applications db)) eqn:Hex; [exact H|].
    destruct m; [exact H|]. destruct ok; [|exact H].
    cbn [settled]. unfold application_keys. cbn [applications].
    rewrite map_app. cbn [map Application.job_id Application.applicant_id].
    apply Permutation_NoDup
      with (l := ((job_id, User.id u) :: application_keys db)).
    + apply Permutation_cons_append.
    + constructor; [|exact H]. apply existsb_key_in, Hex.
  - unfold update_application_status.
    destruct (find _ (applications db)) as [a|]; [|exact H].
    destruct (get_job db (Application.job_id a)); [|exact H].
    destruct (negb _); [exact H|].
    destruct (Application.status a =? s); [exact H|].
    cbn [settled]. unfold application_keys. cbn [applications].
    rewrite update_application_keys; [exact H|].
    intros x. split; reflexivity.
Qed.

(** X18.  Nobody ever holds two applications to the same posting: if the
    pairs (posting, applicant) are all different, they still are after any
    sequence of applications and status updates. *)
Theorem one_application_per_posting :
  forall (rs : list application_request) (db : Database),
    NoDup (application_keys db) ->
    NoDup (application_keys (run_applications db rs)).
Proof.
  intros rs. induction rs as [|r rs IH]; intros db H;
    cbn [run_applications fold_left]; [exact H|].
  apply IH, application_step_keys, H.
Qed.

Lemma one_application_per_posting_witness :
  NoDup (application_keys (run_applications one_application_db apply_then_answer)).
Proof.
  apply one_application_per_posting. constructor.
Defined.

Example apply_then_answer_result :
  applications (run_applications one_application_db apply_then_answer)
  = [Application.mk 1 1 2 "interview" 1000 172800001000].
Proof. reflexivity. Qed.

Section ApplicationsAndAnalytics.

Lemma response_times_app (l1 l2 : list Application.t) :
  response_times (l1 ++ l2) = (response_times l1 ++ response_times l2)%list.
Proof.
  rewrite !response_times_eq. unfold responded. rewrite filter_app, map_app.
  reflexivity.
Qed.

Lemma employer_applications_app (db : Database) (a : Application.t)
    (employer : Z) :
  employer_applications
    {| users := users db; job_postings := job_postings db;
       applications := (applications db ++ [a])%list |} employer
  = (employer_applications db employer
     ++ match get_job db (Application.job_id a) with
        | Some j => if Z.eqb (JobPosting.employer_id j) employer then [a] else []
        | None => []
        end)%list.
Proof.
  unfold employer_applications. cbn [applications]. rewrite filter_app.
  f_equal. cbn [filter].
  change (get_job {| users := users db; job_postings := job_postings db;
                     applications := (applications db ++ [a])%list |}
            (Application.job_id a))
    with (get_job db (Application.job_id a)).
  destruct (get_job db (Application.job_id a)) as [j|]; [|reflexivity].
  destruct (Z.eqb (JobPosting.employer_id j) employer); reflexivity.
Qed.

Lemma apply_job_success (db : Database) (u : User.t) (job_id : Z)
    (j : JobPosting.t) (t1 t2 : Z) :
  User.role u = "job_seeker" ->
  get_job db job_id = Some j ->
  ~ In (job_id, User.id u) (application_keys db) ->
  apply_job db u job_id POST true t1 t2
  = Served
      {| users := users db; job_postings := job_postings db;
         applications :=
           (applications db
            ++ [Application.mk (next_id (map Application.id (applications db)))
                  job_id (User.id u) "applied" t1 t2])%list |}
      (Redirect "job_seeker_dashboard"
         [flash "Application submitted successfully!" "success"]).
Proof.
  intros Hrole Hget Hnew. unfold apply_job. rewrite Hrole, Hget.
  change (negb ("job_seeker" =? "job_seeker")) with false. cbv iota.
  destruct (existsb _ (applications db)) eqn:Hex; [|reflexivity].
  exfalso. apply Hnew. apply existsb_exists in Hex.
  destruct Hex as (a & Hin & Ha). apply andb_true_iff in Ha.
  destruct Ha as [H1 H2]. apply Z.eqb_eq in H1, H2.
  unfold application_keys. apply in_map_iff. exists a. rewrite H1, H2. auto.
Qed.

End ApplicationsAndAnalytics.

(** X19.  A job seeker who has not yet applied to an existing posting, and
    whose resume reference the database accepts, gets an application with
    status 'applied' by posting the form, whatever the status of the
    posting (active, paused or archived).  In the owner's snapshot the total
    grows by one while the numbers of accepted, interviewed, rejected and
    answered applications and the average response time stay as they were;
    the snapshots of the other employers do not change. *)
Theorem applying_adds_an_unanswered_application :
  forall (db : Database) (u : User.t) (job_id : Z) (j : JobPosting.t)
         (t1 t2 : Z),
    User.role u = "job_seeker" ->
    get_job db job_id = Some j ->
    ~ In (job_id, User.id u) (application_keys db) ->
    exists (db' : Database) (a : Application.t),
      apply_job db u job_id POST true t1 t2
        = Served db' (Redirect "job_seeker_dashboard"
                        [flash "Application submitted successfully!" "success"]) /\
      applications db' = (applications db ++ [a])%list /\
      Application.status a = "applied" /\
      Application.job_id a = job_id /\
      Application.applicant_id a = User.id u /\
      (let owner := JobPosting.employer_id j in
       let before := employer_applications db owner in
       let after := employer_applications db' owner in
       List.length after = S (List.length before) /\
       count_with_status "accepted" after = count_with_status "accepted" before /\
       count_with_status "interview" after = count_with_status "interview" before /\
       count_with_status "rejected" after = count_with_status "rejected" before /\
       count_responded after = count_responded before /\
       avg_response_time (compute_snapshot db' owner)
       = avg_response_time (compute_snapshot db owner)) /\
      (forall other : Z,
          other <> JobPosting.employer_id j ->
          compute_snapshot db' other = compute_snapshot db other).
Proof.
  intros db u job_id j t1 t2 Hrole Hget Hnew.
  eexists. eexists. split; [apply (@apply_job_success db u job_id j t1 t2 Hrole Hget Hnew)|].
  split; [reflexivity|]. repeat (split; [reflexivity|]).
  split.
  - cbv zeta. rewrite employer_applications_app.
    cbn [Application.job_id]. rewrite Hget, Z.eqb_refl.
    unfold compute_snapshot. cbn [avg_response_time].
    rewrite employer_applications_app. cbn [Application.job_id].
    rewrite Hget, Z.eqb_refl.
    unfold count_with_status, count_responded.
    rewrite !filter_app, !length_app, response_times_app.
    cbn. rewrite app_nil_r. repeat split; lia.
  - intros other Hother. unfold compute_snapshot.
    rewrite employer_applications_app. cbn [Application.job_id].
    rewrite Hget. apply not_eq_sym, Z.eqb_neq in Hother. rewrite Hother.
    rewrite app_nil_r. reflexivity.
Qed.

Lemma applying_adds_an_unanswered_application_witness :
  exists (db' : Database) (a : Application.t),
    apply_job one_application_db seeker_2 1 POST true 1000 1001
      = Served db' (Redirect "job_seeker_dashboard"
                      [flash "Application submitted successfully!" "success"]) /\
    applications db' = (applications one_application_db ++ [a])%list /\
    Application.status a = "applied".
Proof.
  destruct (@applying_adds_an_unanswered_application one_application_db
              seeker_2 1 _ 1000 1001 eq_refl eq_refl (fun H => H))
    as (db' & a & H1 & H2 & H3 & _).
  exists db', a. auto.
Defined.

Section StatusUpdates.

Lemma count_responded_update (application_id : Z) (s : string) (now : Z)
    (rows : list Application.t) (a : Application.t) :
  find (fun x => Z.eqb (Application.id x) application_id) rows = Some a ->
  Application.status a = "applied" ->
  s <> "applied" ->
  count_responded
    (update_application application_id (Application.set_status s now) rows)
  = S (count_responded rows) /\
  List.length
    (update_application application_id (Application.set_status s now) rows)
  = List.length rows /\
  In (Application.set_status s now a)
    (update_application application_id (Application.set_status s now) rows).
Proof.
  intros Hfind Ha Hs. unfold count_responded.
  induction rows as [|x rows IH]; [discriminate|].
  cbn [find update_application] in *.
  destruct (Z.eqb (Application.id x) application_id).
  - injection Hfind as ->. cbn [filter List.length Application.status Application.set_status].
    rewrite Ha. apply String.eqb_neq in Hs. rewrite Hs.
    cbn [negb String.eqb List.length]. change ("applied" =? "applied") with true.
    cbn [negb]. repeat split. left. reflexivity.
  - destruct (IH Hfind) as (IH1 & IH2 & IH3). cbn [filter List.length].
    destruct (negb (Application.status x =? "applied")); cbn [List.length];
      rewrite ?IH1, ?IH2; repeat split; try reflexivity; right; exact IH3.
Qed.

Lemma employer_applications_update (db : Database) (application_id : Z)
    (s : string) (now : Z) (a : Application.t) (j : JobPosting.t) :
  find (fun x => Z.eqb (Application.id x) application_id) (applications db)
    = Some a ->
  get_job db (Application.job_id a) = Some j ->
  employer_applications
    {| users := users db; job_postings := job_postings db;
       applications :=
         update_application application_id (Application.set_status s now)
           (applications db) |} (JobPosting.employer_id j)
  = update_application application_id (Application.set_status s now)
      (employer_applications db (JobPosting.employer_id j)) /\
  find (fun x => Z.eqb (Application.id x) application_id)
    (employer_applications db (JobPosting.employer_id j)) = Some a.
Proof.
  intros Hfind Hget. unfold employer_applications. cbn [applications].
  apply update_application_filter with (a := a).
  - intros x. reflexivity.
  - exact Hfind.
  - change (get_job {| users := users db; job_postings := job_postings db;
                     applications := update_application application_id
                       (Application.set_status s now) (applications db) |}
              (Application.job_id a))
      with (get_job db (Application.job_id a)).
    rewrite Hget. apply Z.eqb_refl.
Qed.

End StatusUpdates.

(** X20.  When the owner of the posting moves an application from
    'applied' to any other status, at a time that is not before its
    submission, the application joins the answered ones of the owner's
    snapshot: their number grows by one, the total stays, and the response
    times gain the whole days elapsed since the submission, which are not
    negative. *)
Theorem answering_counts_as_response :
  forall (db : Database) (u : User.t) (application_id : Z) (s : string)
         (now : Z) (a : Application.t) (j : JobPosting.t),
    find (fun x => Z.eqb (Application.id x) application_id) (applications db)
      = Some a ->
    get_job db (Application.job_id a) = Some j ->
    JobPosting.employer_id j = User.id u ->
    Application.status a = "applied" ->
    s <> "applied" ->
    (Application.submitted_at a <= now)%Z ->
    exists db' : Database,
      update_application_status db u application_id s now
        = Served db' (Redirect "view_applications"
                        [flash "Application status updated!" "success"]) /\
      let before := employer_applications db (User.id u) in
      let after := employer_applications db' (User.id u) in
      count_responded after = S (count_responded before) /\
      List.length after = List.length before /\
      In (timedelta_days now (Application.submitted_at a))
        (response_times after) /\
      (0 <= timedelta_days now (Application.submitted_at a))%Z.
Proof.
  intros db u application_id s now a j Hfind Hget Hown Ha Hs Hnow.
  eexists. split.
  - unfold update_application_status. rewrite Hfind, Hget, Hown, Z.eqb_refl.
    cbn [negb]. rewrite Ha.
    assert (E : ("applied" =? s) = false) by (apply String.eqb_neq; congruence).
    rewrite E. reflexivity.
  - cbv zeta. rewrite <- Hown.
    destruct (@employer_applications_update db application_id s now a j Hfind Hget)
      as [E1 E2].
    rewrite E1.
    destruct (@count_responded_update application_id s now _ a E2 Ha Hs)
      as (C1 & C2 & C3).
    repeat split; try assumption.
    + rewrite response_times_eq.
      change (timedelta_days now (Application.submitted_at a))
        with (Qfloor (elapsed_days (Application.set_status s now a))).
      apply (in_map (fun x => Qfloor (elapsed_days x))).
      apply filter_In. split; [exact C3|].
      cbn [Application.status Application.set_status].
      apply negb_true_iff, String.eqb_neq. exact Hs.
    + unfold timedelta_days. apply Z.div_pos; lia.
Qed.

Lemma answering_counts_as_response_witness :
  exists db' : Database,
    update_application_status applied_db employer_1 1 "interview" 172800001000
    = Served db' (Redirect "view_applications"
                    [flash "Application status updated!" "success"]) /\
    In 2%Z (response_times (employer_applications db' 1)).
Proof.
  destruct (@answering_counts_as_response applied_db employer_1 1 "interview"
              172800001000 applied_once _ eq_refl eq_refl eq_refl eq_refl)
    as (db' & H1 & _ & _ & H2 & _).
  - intros H. discriminate H.
  - intros H. discriminate H.
  - exists db'. split; [exact H1|exact H2].
Defined.

(** X21.  A status update by a user who does not own the posting of the
    application changes nothing, and an update by the owner changes no
    application other than the one addressed. *)
Theorem status_update_touches_one_owned_application :
  forall (db : Database) (u : User.t) (application_id : Z) (s : string)
         (now : Z),
    let db' := settled db (update_application_status db u application_id s now) in
    users db' = users db /\ job_postings db' = job_postings db /\
    (forall (a : Application.t) (j : JobPosting.t),
        find (fun x => Z.eqb (Application.id x) application_id)
          (applications db) = Some a ->
        get_job db (Application.job_id a) = Some j ->
        JobPosting.employer_id j <> User.id u ->
        db' = db) /\
    (forall (i : nat) (a : Application.t),
        nth_error (applications db) i = Some a ->
        Application.id a <> application_id ->
        nth_error (applications db') i = Some a).
Proof.
  intros db u application_id s now. cbv zeta.
  assert (Hrows : forall (i : nat) (a : Application.t),
             nth_error (applications db) i = Some a ->
             Application.id a <> application_id ->
             nth_error
               (update_application application_id
                  (Application.set_status s now) (applications db)) i
             = Some a).
  { induction (applications db) as [|x rows IH]; intros [|i] a Hi Hid;
      cbn [nth_error update_application] in *; try discriminate.
    - injection Hi as ->. apply Z.eqb_neq in Hid. rewrite Hid. reflexivity.
    - destruct (Z.eqb (Application.id x) application_id); cbn [nth_error];
        [exact Hi|apply IH; assumption]. }
  unfold update_application_status.
  destruct (find _ (applications db)) as [a0|] eqn:Hfind.
  2: { cbn [settled]. split; [reflexivity|]. split; [reflexivity|].
       split; [intros a j H; discriminate H|]. intros i a Hi _. exact Hi. }
  destruct (get_job db (Application.job_id a0)) as [j0|] eqn:Hget.
  2: { cbn [settled]. split; [reflexivity|]. split; [reflexivity|].
       split; [|intros i a Hi _; exact Hi].
       intros a j Ha Hj _. injection Ha as <-. rewrite Hget in Hj.
       discriminate Hj. }
  destruct (Z.eqb (JobPosting.employer_id j0) (User.id u)) eqn:Hown; cbn [negb].
  - apply Z.eqb_eq in Hown.
    assert (Hmine : forall (a : Application.t) (j : JobPosting.t),
               Some a0 = Some a ->
               get_job db (Application.job_id a) = Some j ->
               JobPosting.employer_id j <> User.id u -> False).
    { intros a j Ha Hj Hother. injection Ha as <-. rewrite Hget in Hj.
      injection Hj as <-. contradiction. }
    destruct (Application.status a0 =? s); cbn [settled].
    + split; [reflexivity|]. split; [reflexivity|]. split.
      * intros a j Ha Hj Hother. reflexivity.
      * intros i a Hi _. exact Hi.
    + split; [reflexivity|]. split; [reflexivity|]. split.
      * intros a j Ha Hj Hother. exfalso. eapply Hmine; eassumption.
      * cbn [applications]. exact Hrows.
  - cbn [settled]. split; [reflexivity|]. split; [reflexivity|]. split.
    + intros a j Ha Hj Hother. reflexivity.
    + intros i a Hi _. exact Hi.
Qed.

Lemma status_update_touches_one_owned_application_witness :
  settled applied_db
    (update_application_status applied_db employer_3 1 "rejected" 5000)
  = applied_db.
Proof.
  refine (proj1 (proj2 (proj2 (@status_update_touches_one_owned_application
           applied_db employer_3 1 "rejected" 5000))) applied_once _
           eq_refl eq_refl _).
  intros H. discriminate H.
Defined.

(* ================================================================== *)
(** * Further properties: the page of a posting *)
(* ================================================================== *)

Lemma find_by_unique_id (rows : list JobPosting.t) (j : JobPosting.t) :
  NoDup (map JobPosting.id rows) -> In j rows ->
  find (fun r => Z.eqb (JobPosting.id r) (JobPosting.id j)) rows = Some j.
Proof.
  induction rows as [|r rows IH]; intros Hnd Hin; [destruct Hin|].
  cbn [map] in Hnd. inversion Hnd as [|? ? Hnot Hrest]; subst.
  cbn [find]. destruct Hin as [->|Hin].
  - rewrite Z.eqb_refl. reflexivity.
  - destruct (Z.eqb_spec (JobPosting.id r) (JobPosting.id j)) as [E|E].
    + exfalso. apply Hnot. rewrite E. apply in_map. exact Hin.
    + apply IH; assumption.
Qed.

(** X22.  The page of a posting shows a job seeker the distance that the
    search shows for that posting: when the search renders an entry and
    primary keys are unique, [view_job] on the entry's posting finds that
    posting and displays the entry's distance. *)
Theorem view_job_shows_the_search_distance :
  forall (w : World) (db : Database) (saved : list SavedJob.t) (u : User.t)
         (args : SearchArgs) (l : list JobWithDistance) (kw cat : string)
         (r : Q) (e : JobWithDistance),
    NoDup (posting_ids db) ->
    search_jobs w db u args = RenderSearch l kw cat r ->
    In e l ->
    exists (applied : option Application.t) (is_saved : option SavedJob.t),
      view_job w db saved u (JobPosting.id (job e))
      = JobView (job e) (Some (distance e)) applied is_saved.
Proof.
  intros w db saved u args l kw cat r e Hnd Hs He.
  apply search_jobs_rendered in Hs. destruct Hs as (Hrole & _ & _ & _ & ->).
  apply (Permutation_in _ (Permutation_sym (list_sort_perm distance _))) in He.
  apply in_jobs_in_radius in He. destruct He as (Hj & _ & Hd).
  apply search_query_active in Hj. destruct Hj as [Hj _].
  unfold view_job, get_job.
  rewrite (find_by_unique_id _ _ Hnd Hj), Hrole.
  change ("job_seeker" =? "job_seeker") with true. cbv iota.
  eexists. eexists. rewrite Hd. reflexivity.
Qed.

Lemma search_db_ids_unique : NoDup (posting_ids search_db).
Proof.
  change (posting_ids search_db) with [1; 2; 3; 4; 5]%Z.
  repeat constructor; cbn [In]; intros H;
    repeat (destruct H as [H|H]; [discriminate H|]); exact H.
Qed.

Lemma view_job_shows_the_search_distance_witness :
  exists (applied : option Application.t) (is_saved : option SavedJob.t),
    view_job line_world search_db [] seeker_2 (JobPosting.id (job south_entry))
    = JobView (job south_entry) (Some (distance south_entry)) applied is_saved.
Proof.
  apply (@view_job_shows_the_search_distance line_world search_db [] seeker_2
           radius_10 rendered_radius_10 "" "" 10 south_entry
           search_db_ids_unique search_jobs_renders_example).
  vm_compute. right. right. left. reflexivity.
Defined.

(* ================================================================== *)
(** * Further properties: accounts *)
(* ================================================================== *)

Lemma existsb_email_not_in (e : string) (l : list User.t) :
  existsb (fun u => String.eqb (User.email u) e) l = false ->
  ~ In e (map User.email l).
Proof.
  induction l as [|u l IH]; cbn [existsb map In]; [tauto|].
  intros H. apply orb_false_iff in H. destruct H as [Hu Hl].
  intros [E|E].
  - rewrite E, String.eqb_refl in Hu. discriminate Hu.
  - exact (IH Hl E).
Qed.

Lemma find_email_last (e : string) (l : list User.t) (u : User.t) :
  ~ In e (map User.email l) -> User.email u = e ->
  find (fun x => String.eqb (User.email x) e) (l ++ [u]) = Some u.
Proof.
  intros Hnot Hu. induction l as [|x l IH]; cbn [app find].
  - rewrite Hu, String.eqb_refl. reflexivity.
  - destruct (String.eqb_spec (User.email x) e) as [E|E].
    + exfalso. apply Hnot. left. exact E.
    + apply IH. intros H. apply Hnot. right. exact H.
Qed.

Lemma register_cases (w : World) (db db' : Database) (cu : option User.t)
    (m : http_method) (form : RegisterForm) (resp : response) :
  register w db cu m form = Returned (db', resp) ->
  (db' = db /\ forall fl, resp <> Redirect "login" fl) \/
  (cu = None /\ m = POST /\
   resp = Redirect "login"
            [flash "Registration successful! Please log in." "success"] /\
   exists user, registered w db db' form user).
Proof.
  unfold register.
  destruct cu as [u|].
  { intros H. injection H as <- <-. left. split; [reflexivity|].
    intros fl E. unfold dashboard_of in E.
    destruct (User.role u =? "employer"); discriminate E. }
  destruct m.
  { intros H. injection H as <- <-. left. split; [reflexivity|]. discriminate. }
  destruct (rf_password form =? rf_confirm_password form) eqn:Hpw; cbn [negb].
  2:{ intros H. injection H as <- <-. left. split; [reflexivity|]. discriminate. }
  apply String.eqb_eq in Hpw.
  destruct (Nat.ltb_spec (String.length (rf_password form)) 8) as [Hlen|Hlen].
  { intros H. injection H as <- <-. left. split; [reflexivity|]. discriminate. }
  destruct (existsb _ (users db)) eqn:Hnew.
  { intros H. injection H as <- <-. left. split; [reflexivity|]. discriminate. }
  apply existsb_email_not_in in Hnew.
  destruct (geocode_address w _ _ _) as [[lat lng]|e]; [|discriminate].
  cbn [bind].
  destruct (truthy lat) eqn:Hlat; cbn [negb orb].
  2:{ intros H. injection H as <- <-. left. split; [reflexivity|]. discriminate. }
  destruct (truthy lng) eqn:Hlng; cbn [negb].
  2:{ intros H. injection H as <- <-. left. split; [reflexivity|]. discriminate. }
  destruct (as_coordinate lat) as [lat_f|e] eqn:Elat; [|discriminate].
  destruct (as_coordinate lng) as [lng_f|e] eqn:Elng; [|discriminate].
  cbn [bind]. intros H. injection H as <- <-. right.
  apply as_coordinate_number in Elat, Elng. subst lat lng.
  apply truthy_number in Hlat, Hlng.
  repeat split; try reflexivity.
  eexists. unfold registered, located.
  repeat split; try reflexivity; cbn; auto.
Qed.

(** X23.  An account that [register] has just created can log in: with the
    e-mail address and the password of the form, [login] authenticates the
    new user and redirects to the dashboard of the chosen role, provided
    the password check accepts the password whose hash was stored.  The
    password has at least 8 characters and no earlier account had the
    e-mail address. *)
Theorem registered_user_can_log_in :
  forall (w : World) (check_password_hash : string -> string -> bool)
         (db db' : Database) (form : RegisterForm) (fl : list flash_msg),
    register w db None POST form = Returned (db', Redirect "login" fl) ->
    check_password_hash (generate_password_hash w (rf_password form))
      (rf_password form) = true ->
    exists user : User.t,
      login check_password_hash db' None POST (rf_email form)
        (rf_password form)
      = (Some user, LoginRedirect (dashboard_of user) []) /\
      In user (users db') /\
      User.email user = rf_email form /\
      User.role user = rf_role form /\
      (8 <= String.length (rf_password form))%nat /\
      ~ In (rf_email form) (map User.email (users db)).
Proof.
  intros w check db db' form fl Hreg Hcheck.
  apply register_cases in Hreg.
  destruct Hreg as [[_ Hno]|(_ & _ & _ & user & Hr)].
  { exfalso. exact (Hno fl eq_refl). }
  destruct Hr as (-> & _ & Hmail & Hhash & Hrole & _ & Hnew & _ & Hlen).
  exists user. unfold login. cbn [users].
  rewrite (find_email_last _ _ Hnew Hmail), Hhash, Hcheck.
  repeat split; auto.
  apply in_or_app. right. left. reflexivity.
Qed.

Lemma registered_user_can_log_in_witness :
  exists user : User.t,
    login plain_check registered_db None POST (rf_email register_form_1) (rf_password register_form_1)
    = (Some user, LoginRedirect (dashboard_of user) []) /\
    In user (users registered_db) /\
    User.email user = rf_email register_form_1 /\
    User.role user = rf_role register_form_1 /\
    (8 <= String.length (rf_password register_form_1))%nat /\
    ~ In (rf_email register_form_1) (map User.email (users empty_db)).
Proof.
  apply (@registered_user_can_log_in lagos_world plain_check empty_db
           registered_db register_form_1
           [flash "Registration successful! Please log in." "success"]).
  - vm_compute. reflexivity.
  - reflexivity.
Defined.

(* ================================================================== *)
(** * Further properties: the profile *)
(* ================================================================== *)

Section UpdateUser.

Variable user_id : Z.
Variable f : User.t -> User.t.

Lemma update_user_map (B : Type) (col : User.t -> B) (rows : list User.t) :
  (forall u, col (f u) = col u) ->
  map col (update_user user_id f rows) = map col rows.
Proof.
  intros Hf. induction rows as [|u rows IH]; [reflexivity|].
  cbn [update_user]. destruct (Z.eqb (User.id u) user_id); cbn [map].
  - rewrite Hf. reflexivity.
  - rewrite IH. reflexivity.
Qed.

Lemma update_user_Forall (P : User.t -> Prop) (rows : list User.t) :
  (forall u, P u -> P (f u)) ->
  Forall P rows -> Forall P (update_user user_id f rows).
Proof.
  intros Hf. induction 1 as [|u rows Hu Hrows IH]; [constructor|].
  cbn [update_user]. destruct (Z.eqb (User.id u) user_id).
  - constructor; [apply Hf; exact Hu|exact Hrows].
  - constructor; [exact Hu|exact IH].
Qed.

Lemma update_user_Forall2 (R : User.t -> User.t -> Prop) (rows : list User.t) :
  (forall u, R u u) -> (forall u, R u (f u)) ->
  Forall2 R rows (update_user user_id f rows).
Proof.
  intros Hrefl Hf.
  assert (Hsame : forall l, Forall2 R l l).
  { induction l; constructor; auto. }
  induction rows as [|u rows IH]; [constructor|].
  cbn [update_user]. destruct (Z.eqb (User.id u) user_id).
  - constructor; [apply Hf|apply Hsame].
  - constructor; [apply Hrefl|exact IH].
Qed.

End UpdateUser.

Lemma address_changed_iff (u : User.t) (form : ProfileForm) :
  negb (String.eqb (pf_address form) (User.address u))
  || negb (String.eqb (pf_city form) (User.city u))
  || negb (String.eqb (pf_zip_code form) (User.zip_code u)) = false
  <-> same_address u form.
Proof.
  unfold same_address.
  destruct (String.eqb_spec (pf_address form) (User.address u));
    destruct (String.eqb_spec (pf_city form) (User.city u));
    destruct (String.eqb_spec (pf_zip_code form) (User.zip_code u));
    cbn; split; try tauto; try discriminate; intros (A & B & C); contradiction.
Qed.

(** What a committed [edit_profile] has written. *)
Lemma edit_profile_cases (w : World) (db db' : Database) (u : User.t)
    (m : http_method) (form : ProfileForm) (resp : response) :
  edit_profile w db u m form = Returned (db', resp) ->
  db' = db \/
  exists location : option (string * string * string * Q * Q),
    db' = {| users := update_user (User.id u)
                        (profile_update (String.eqb (User.role u) "employer")
                           form location) (users db);
             job_postings := job_postings db;
             applications := applications db |} /\
    match location with
    | Some (_, _, _, lat, lng) => ~ (lat == 0)%Q /\ ~ (lng == 0)%Q
    | None => True
    end.
Proof.
  unfold edit_profile. destruct m.
  { intros H. injection H as <- _. left. reflexivity. }
  cbv zeta.
  destruct (negb _ || negb _ || negb _).
  2:{ intros H. injection H as <- _. right. exists None. split; [reflexivity|exact I]. }
  destruct (geocode_address w _ _ _) as [[lat lng]|e]; [|discriminate].
  cbn [bind].
  destruct (truthy lat) eqn:Hlat; cbn [negb orb].
  2:{ intros H. injection H as <- _. left. reflexivity. }
  destruct (truthy lng) eqn:Hlng; cbn [negb].
  2:{ intros H. injection H as <- _. left. reflexivity. }
  destruct (as_coordinate lat) as [lat_f|e] eqn:Elat; [|discriminate].
  destruct (as_coordinate lng) as [lng_f|e] eqn:Elng; [|discriminate].
  cbn [bind]. intros H. injection H as <- _. right.
  apply as_coordinate_number in Elat, Elng. subst lat lng.
  apply truthy_number in Hlat, Hlng.
  eexists (Some (_, _, _, lat_f, lng_f)). split; [reflexivity|].
  split; assumption.
Qed.

Lemma profile_update_located (employer : bool) (form : ProfileForm)
    (location : option (string * string * string * Q * Q)) (u : User.t) :
  match location with
  | Some (_, _, _, lat, lng) => ~ (lat == 0)%Q /\ ~ (lng == 0)%Q
  | None => True
  end ->
  located u -> located (profile_update employer form location u).
Proof.
  unfold located. destruct location as [[[[[a c] z] lat] lng]|]; cbn; tauto.
Qed.

Lemma user_step_well_formed (w : World) (db : Database) (r : user_request) :
  users_well_formed db -> users_well_formed (user_step w db r).
Proof.
  intros (Hmail & Hid & Hloc). destruct r as [form|u m form]; cbn [user_step].
  - destruct (register w db None POST form) as [[db' resp]|e] eqn:E;
      cbn [committed]; [|repeat split; assumption].
    apply register_cases in E.
    destruct E as [[-> _]|(_ & _ & _ & user & Hr)]; [repeat split; assumption|].
    destruct Hr as (-> & Huid & Humail & _ & _ & Hul & Hnew & _).
    unfold users_well_formed. cbn [users]. rewrite !map_app. cbn [map].
    split; [|split].
    + apply NoDup_app; [exact Hmail | repeat constructor; cbn; tauto |].
      intros x Hx [<-|[]]. apply Hnew. rewrite <- Humail. exact Hx.
    + apply NoDup_app; [exact Hid | repeat constructor; cbn; tauto |].
      intros x Hx [<-|[]]. rewrite Huid in Hx.
      exact (next_id_fresh _ Hx).
    + apply Forall_app. split; [exact Hloc|].
      constructor; [exact Hul|constructor].
  - destruct (edit_profile w db u m form) as [[db' resp]|e] eqn:E;
      cbn [committed]; [|repeat split; assumption].
    apply edit_profile_cases in E.
    destruct E as [->|(location & -> & Hl)]; [repeat split; assumption|].
    unfold users_well_formed. cbn [users].
    rewrite (update_user_map (User.id u) _ User.email),
            (update_user_map (User.id u) _ User.id).
    + split; [exact Hmail|]. split; [exact Hid|].
      apply update_user_Forall; [|exact Hloc].
      intros x. apply profile_update_located. exact Hl.
    + intros x. unfold profile_update.
      destruct location as [[[[[a c] z] lat] lng]|]; reflexivity.
    + intros x. unfold profile_update.
      destruct location as [[[[[a c] z] lat] lng]|]; reflexivity.
Qed.

(** X24.  Registrations and profile edits keep the accounts well formed:
    after any sequence of them no two accounts share an e-mail address or a
    primary key, and every account has coordinates that are both non-zero,
    as long as this held before. *)
Theorem accounts_stay_well_formed :
  forall (w : World) (rs : list user_request) (db : Database),
    users_well_formed db -> users_well_formed (run_users w db rs).
Proof.
  intros w rs. unfold run_users.
  induction rs as [|r rs IH]; intros db H; cbn [fold_left]; [exact H|].
  apply IH. apply user_step_well_formed. exact H.
Qed.

Lemma seekers_db_well_formed : users_well_formed seekers_db.
Proof.
  unfold users_well_formed, seekers_db. cbn [users map].
  split; [|split].
  - repeat constructor. cbn. tauto.
  - repeat constructor. cbn. tauto.
  - repeat constructor; cbn; intros H; discriminate H.
Qed.

Lemma accounts_stay_well_formed_witness :
  users_well_formed
    (run_users lagos_world seekers_db
       [ReqRegister register_form_1;
        ReqEditProfile seeker_2 POST profile_form_moved]).
Proof.
  exact (@accounts_stay_well_formed lagos_world
           [ReqRegister register_form_1;
            ReqEditProfile seeker_2 POST profile_form_moved]
           seekers_db seekers_db_well_formed).
Defined.

Lemma same_location_refl (u : User.t) : same_location u u.
Proof. repeat split. Qed.

(** X25.  A profile edit that keeps the address asks the geocoder nothing
    and keeps every location: whatever the outside world is, the request is
    committed with the same result, postings and applications are
    untouched, and each row of the users table keeps its address and its
    coordinates. *)
Theorem profile_edit_keeps_location :
  forall (w : World) (db : Database) (u : User.t) (form : ProfileForm),
    same_address u form ->
    exists db' : Database,
      (forall w' : World,
         edit_profile w' db u POST form
         = Returned (db', Redirect "profile"
                            [flash "Profile updated successfully!" "success"]))
      /\ job_postings db' = job_postings db
      /\ applications db' = applications db
      /\ Forall2 same_location (users db) (users db').
Proof.
  intros w db u form Hsame. apply address_changed_iff in Hsame.
  eexists. split; [|split; [|split]].
  - intros w'. unfold edit_profile. cbv zeta. rewrite Hsame. reflexivity.
  - reflexivity.
  - reflexivity.
  - cbn [users]. apply update_user_Forall2.
    + apply same_location_refl.
    + intros x. repeat split.
Qed.

Lemma profile_edit_keeps_location_witness :
  exists db' : Database,
    (forall w' : World,
       edit_profile w' seekers_db seeker_2 POST profile_form_1
       = Returned (db', Redirect "profile"
                          [flash "Profile updated successfully!" "success"]))
    /\ job_postings db' = job_postings seekers_db
    /\ applications db' = applications seekers_db
    /\ Forall2 same_location (users seekers_db) (users db').
Proof.
  apply (@profile_edit_keeps_location quiet_world seekers_db seeker_2
           profile_form_1).
  repeat split.
Defined.

(** X26.  A profile edit whose new address the geocoder does not resolve
    writes nothing: the database is the one before the request, so the name
    and the phone number of the form are not stored either, and the answer
    is the redirect to the form with the address message. *)
Theorem profile_edit_unverified_address_writes_nothing :
  forall (w : World) (db : Database) (u : User.t) (form : ProfileForm)
         (geo : pyval * pyval),
    ~ same_address u form ->
    geocode_address w (pf_address form) (pf_city form) (pf_zip_code form)
      = Returned geo ->
    resolved geo = false ->
    edit_profile w db u POST form
    = Returned (db, Redirect "edit_profile"
                      [flash "Could not verify new address. Please check and try again."
                             "error"]).
Proof.
  intros w db u form geo Hdiff Hgeo Hres.
  unfold edit_profile. cbv zeta.
  destruct (negb _ || negb _ || negb _) eqn:Hch.
  - rewrite Hgeo. destruct geo as [lat lng]. cbn [bind].
    rewrite resolved_guard, Hres. reflexivity.
  - exfalso. apply Hdiff. apply address_changed_iff. exact Hch.
Qed.

Lemma profile_edit_unverified_address_writes_nothing_witness :
  edit_profile quiet_world seekers_db seeker_2 POST profile_form_moved
  = Returned (seekers_db, Redirect "edit_profile"
                [flash "Could not verify new address. Please check and try again."
                       "error"]).
Proof.
  apply (@profile_edit_unverified_address_writes_nothing quiet_world
           seekers_db seeker_2 profile_form_moved unresolved).
  - intros (H & _). discriminate H.
  - reflexivity.
  - reflexivity.
Defined.

(* ================================================================== *)
(** * Further properties: the buckets of the analytics page *)
(* ================================================================== *)

Lemma counter_get_increment (s k : string) (d : list (string * nat)) :
  counter_get s (dict_increment k d)
  = (counter_get s d + if String.eqb k s then 1 else 0)%nat.
Proof.
  induction d as [|[k' n] d IH]; cbn [dict_increment counter_get].
  - destruct (String.eqb k s); reflexivity.
  - destruct (String.eqb_spec k' k) as [E|E]; cbn [counter_get].
    + subst k'. destruct (String.eqb k s); lia.
    + destruct (String.eqb_spec k' s) as [E'|E'].
      * subst k'. destruct (String.eqb_spec k s) as [E''|_]; [|lia].
        exfalso. apply E. symmetry. exact E''.
      * exact IH.
Qed.

Lemma counter_total_increment (k : string) (d : list (string * nat)) :
  counter_total (dict_increment k d) = S (counter_total d).
Proof.
  unfold counter_total.
  induction d as [|[k' n] d IH]; cbn [dict_increment fold_right snd]; [reflexivity|].
  destruct (String.eqb k' k); cbn [fold_right snd]; [reflexivity|].
  rewrite IH. lia.
Qed.

Lemma keys_increment (x k : string) (d : list (string * nat)) :
  In x (map fst (dict_increment k d)) <-> x = k \/ In x (map fst d).
Proof.
  induction d as [|[k' n] d IH]; cbn [dict_increment map fst In].
  - intuition congruence.
  - destruct (String.eqb_spec k' k) as [E|E]; cbn [map fst In].
    + subst k'. intuition congruence.
    + rewrite IH. intuition congruence.
Qed.

Lemma keys_increment_NoDup (k : string) (d : list (string * nat)) :
  NoDup (map fst d) -> NoDup (map fst (dict_increment k d)).
Proof.
  induction d as [|[k' n] d IH]; cbn [dict_increment map fst]; intros H.
  - repeat constructor. cbn. tauto.
  - inversion H as [|? ? Hnot Hrest]; subst.
    destruct (String.eqb_spec k' k) as [E|E]; cbn [map fst].
    + constructor; assumption.
    + constructor; [|apply IH; exact Hrest].
      rewrite keys_increment. intros [E'|E']; [apply E; exact E'|apply Hnot; exact E'].
Qed.

Lemma count_with_status_cons (s : string) (a : Application.t)
    (apps : list Application.t) :
  count_with_status s (a :: apps)
  = ((if String.eqb (Application.status a) s then 1 else 0)
     + count_with_status s apps)%nat.
Proof.
  unfold count_with_status. cbn [filter].
  destruct (String.eqb (Application.status a) s); reflexivity.
Qed.

Lemma apps_by_status_from (apps : list Application.t)
    (d : list (string * nat)) (s : string) :
  let d' := fold_left (fun d a => dict_increment (Application.status a) d)
              apps d in
  counter_get s d' = (counter_get s d + count_with_status s apps)%nat /\
  counter_total d' = (counter_total d + List.length apps)%nat /\
  (NoDup (map fst d) -> NoDup (map fst d')) /\
  (In s (map fst d') <->
   In s (map fst d) \/ In s (map Application.status apps)).
Proof.
  revert d. induction apps as [|a apps IH]; intros d; cbn [fold_left].
  - cbn. repeat split; try lia; tauto.
  - destruct (IH (dict_increment (Application.status a) d)) as (G & T & N & K).
    cbv zeta. rewrite G, T, K, counter_get_increment, counter_total_increment,
      count_with_status_cons, keys_increment.
    cbn [List.length map In].
    repeat split; try lia.
    + intros H. apply N, keys_increment_NoDup, H.
    + intros [[E|E]|E]; auto.
    + intros [E|[E|E]]; auto.
Qed.

(** X27.  The status buckets of the analytics page agree with the counts
    behind its rates: the bucket of a status holds the number of
    applications with that status (so the buckets of [accepted],
    [interview] and [rejected] are the numerators of the three rates), the
    buckets add up to the number of applications, every key occurs once,
    and the keys are the statuses that occur. *)
Theorem status_buckets_match_the_counts :
  forall (apps : list Application.t) (s : string),
    counter_get s (apps_by_status apps) = count_with_status s apps /\
    counter_total (apps_by_status apps) = List.length apps /\
    NoDup (map fst (apps_by_status apps)) /\
    (In s (map fst (apps_by_status apps))
     <-> In s (map Application.status apps)).
Proof.
  intros apps s. unfold apps_by_status.
  destruct (apps_by_status_from apps [] s) as (G & T & N & K).
  cbv zeta in G, T, N, K. cbn [counter_get counter_total fold_right map In] in *.
  repeat split.
  - exact G.
  - exact T.
  - apply N. constructor.
  - intros H. apply K in H. tauto.
  - intros H. apply K. right. exact H.
Qed.

(* ================================================================== *)
(** * Further properties: the most popular posting *)
(* ================================================================== *)

Lemma counter_lookup_assign (t k : string) (v : nat) (d : list (string * nat)) :
  counter_lookup t (dict_assign k v d)
  = if String.eqb k t then Some v else counter_lookup t d.
Proof.
  induction d as [|[k' n] d IH]; cbn [dict_assign counter_lookup].
  - reflexivity.
  - destruct (String.eqb_spec k' k) as [E|E]; cbn [counter_lookup].
    + subst k'. destruct (String.eqb k t); reflexivity.
    + destruct (String.eqb_spec k' t) as [E'|E'].
      * subst k'. destruct (String.eqb_spec k t) as [E''|_]; [|reflexivity].
        exfalso. apply E. symmetry. exact E''.
      * exact IH.
Qed.

Lemma keys_assign (x k : string) (v : nat) (d : list (string * nat)) :
  In x (map fst (dict_assign k v d)) <-> x = k \/ In x (map fst d).
Proof.
  induction d as [|[k' n] d IH]; cbn [dict_assign map fst In].
  - intuition congruence.
  - destruct (String.eqb_spec k' k) as [E|E]; cbn [map fst In].
    + subst k'. intuition congruence.
    + rewrite IH. intuition congruence.
Qed.

Lemma keys_assign_NoDup (k : string) (v : nat) (d : list (string * nat)) :
  NoDup (map fst d) -> NoDup (map fst (dict_assign k v d)).
Proof.
  induction d as [|[k' n] d IH]; cbn [dict_assign map fst]; intros H.
  - repeat constructor. cbn. tauto.
  - inversion H as [|? ? Hnot Hrest]; subst.
    destruct (String.eqb_spec k' k) as [E|E]; cbn [map fst].
    + constructor; assumption.
    + constructor; [|apply IH; exact Hrest].
      rewrite keys_assign. intros [E'|E']; [apply E; exact E'|apply Hnot; exact E'].
Qed.

Lemma counter_lookup_in (t : string) (c : nat) (d : list (string * nat)) :
  NoDup (map fst d) ->
  (In (t, c) d <-> counter_lookup t d = Some c).
Proof.
  induction d as [|[k n] d IH]; cbn [map fst In counter_lookup]; intros H.
  - split; [tauto|discriminate].
  - inversion H as [|? ? Hnot Hrest]; subst.
    destruct (String.eqb_spec k t) as [E|E].
    + subst k. split.
      * intros [E|E]; [congruence|].
        exfalso. apply Hnot. apply (in_map fst) in E. exact E.
      * intros E. left. congruence.
    + rewrite <- (IH Hrest). split; [|tauto].
      intros [E'|E']; [congruence|exact E'].
Qed.

Lemma find_app_last (A : Type) (f : A -> bool) (l : list A) (x : A) :
  find f (l ++ [x])
  = match find f l with
    | Some y => Some y
    | None => if f x then Some x else None
    end.
Proof.
  induction l as [|y l IH]; cbn [app find]; [reflexivity|].
  destruct (f y); [reflexivity|exact IH].
Qed.

Section Popularity.

Variable db : Database.

Lemma job_popularity_from (jobs : list JobPosting.t) (d : list (string * nat))
    (t : string) :
  let d' := fold_left
              (fun d j => dict_assign (JobPosting.title j)
                            (application_count db (JobPosting.id j)) d)
              jobs d in
  counter_lookup t d'
  = match last_titled jobs t with
    | Some j => Some (application_count db (JobPosting.id j))
    | None => counter_lookup t d
    end /\
  (NoDup (map fst d) -> NoDup (map fst d')) /\
  (d <> [] \/ jobs <> [] -> d' <> []).
Proof.
  revert d. induction jobs as [|j jobs IH]; intros d; cbn [fold_left].
  - cbn. repeat split; tauto.
  - destruct (IH (dict_assign (JobPosting.title j)
                    (application_count db (JobPosting.id j)) d))
      as (L & N & E).
    cbv zeta. rewrite L, counter_lookup_assign.
    unfold last_titled. cbn [rev]. rewrite find_app_last.
    repeat split.
    + destruct (find _ (rev jobs)); [reflexivity|].
      destruct (JobPosting.title j =? t); reflexivity.
    + intros H. apply N, keys_assign_NoDup, H.
    + intros _. apply E. left. destruct d as [|[k n] d]; cbn [dict_assign].
      * discriminate.
      * destruct (String.eqb k (JobPosting.title j)); discriminate.
Qed.

Lemma job_popularity_items (jobs : list JobPosting.t) (t : string) (c : nat) :
  In (t, c) (job_popularity db jobs)
  <-> exists j, last_titled jobs t = Some j
                /\ c = application_count db (JobPosting.id j).
Proof.
  unfold job_popularity.
  destruct (job_popularity_from jobs [] t) as (L & N & _).
  cbv zeta in L, N. rewrite counter_lookup_in; [|apply N; constructor].
  rewrite L. cbn [counter_lookup].
  destruct (last_titled jobs t) as [j|].
  - split.
    + intros H. exists j. split; [reflexivity|congruence].
    + intros (j' & H & ->). congruence.
  - split; [discriminate|]. intros (j' & H & _). discriminate H.
Qed.

End Popularity.

Lemma max_by_value_spec (items : list (string * nat)) (best : string * nat) :
  In (max_by_value best items) (best :: items) /\
  forall x, In x (best :: items) ->
            (snd x <= snd (max_by_value best items))%nat.
Proof.
  revert best. induction items as [|item items IH]; intros best;
    cbn [max_by_value].
  - split; [left; reflexivity|]. intros x [<-|[]]. lia.
  - destruct (Nat.ltb_spec (snd best) (snd item)) as [Hlt|Hge].
    + destruct (IH item) as [Hin Hmax]. split.
      * right. exact Hin.
      * intros x [<-|Hx]; [|apply Hmax; exact Hx].
        specialize (Hmax item (or_introl eq_refl)). lia.
    + destruct (IH best) as [Hin Hmax]. split.
      * destruct Hin as [Hin|Hin]; [left; exact Hin|right; right; exact Hin].
      * intros x [<-|[<-|Hx]].
        -- apply Hmax. left. reflexivity.
        -- specialize (Hmax best (or_introl eq_refl)). lia.
        -- apply Hmax. right. exact Hx.
Qed.

Lemma last_titled_title (jobs : list JobPosting.t) (t : string)
    (j : JobPosting.t) :
  last_titled jobs t = Some j -> In j jobs /\ JobPosting.title j = t.
Proof.
  unfold last_titled. intros H. apply find_some in H. destruct H as [Hin Ht].
  split; [apply in_rev; exact Hin|apply String.eqb_eq; exact Ht].
Qed.

Lemma most_popular_job_cases :
  forall (db : Database) (employer : Z),
    match postings_of db employer with
    | [] => most_popular_job db employer = ("None", 0%nat)
    | _ :: _ =>
        exists j : JobPosting.t,
          In j (postings_of db employer) /\
          last_titled (postings_of db employer) (JobPosting.title j) = Some j /\
          most_popular_job db employer
          = (JobPosting.title j, application_count db (JobPosting.id j)) /\
          forall (t : string) (j' : JobPosting.t),
            last_titled (postings_of db employer) t = Some j' ->
            (application_count db (JobPosting.id j')
             <= application_count db (JobPosting.id j))%nat
    end.
Proof.
  intros db employer. unfold most_popular_job.
  change (filter _ (job_postings db)) with (postings_of db employer).
  destruct (postings_of db employer) as [|j0 jobs] eqn:Hjobs; [reflexivity|].
  rewrite <- Hjobs. set (all := postings_of db employer) in *.
  destruct (job_popularity db all) as [|first rest] eqn:Hpop.
  { exfalso. unfold job_popularity in Hpop.
    destruct (job_popularity_from db all [] "") as (_ & _ & E).
    apply E; [|exact Hpop]. right. rewrite Hjobs. discriminate. }
  destruct (max_by_value_spec rest first) as [Hin Hmax].
  destruct (max_by_value first rest) as [t c] eqn:Hm.
  rewrite <- Hpop in Hin, Hmax.
  apply job_popularity_items in Hin. destruct Hin as (j & Hlast & ->).
  destruct (last_titled_title _ _ Hlast) as [Hj Ht].
  exists j. subst t. repeat split; auto.
  intros t j' Hlast'.
  assert (H : In (t, application_count db (JobPosting.id j'))
                (job_popularity db all)).
  { apply job_popularity_items. exists j'. split; [exact Hlast'|reflexivity]. }
  apply Hmax in H. exact H.
Qed.

(** X28.  The most popular posting of the analytics page: for an employer
    without postings it is [("None", 0)]; otherwise it is the title and the
    number of applications of one of the employer's postings, the last one
    carrying that title, and no title's last posting has more applications.
    (The dict of the loop is keyed by title, so of several postings with one
    title only the last is counted.) *)
Theorem most_popular_job_is_a_maximum :
  forall (db : Database) (employer : Z),
    match postings_of db employer with
    | [] => most_popular_job db employer = ("None", 0%nat)
    | _ :: _ =>
        exists j : JobPosting.t,
          In j (postings_of db employer) /\
          last_titled (postings_of db employer) (JobPosting.title j) = Some j /\
          most_popular_job db employer
          = (JobPosting.title j, application_count db (JobPosting.id j)) /\
          forall (t : string) (j' : JobPosting.t),
            last_titled (postings_of db employer) t = Some j' ->
            (application_count db (JobPosting.id j')
             <= application_count db (JobPosting.id j))%nat
    end.
Proof. exact most_popular_job_cases. Qed.

Lemma last_titled_unique (jobs : list JobPosting.t) (j : JobPosting.t) :
  NoDup (map JobPosting.title jobs) -> In j jobs ->
  last_titled jobs (JobPosting.title j) = Some j.
Proof.
  unfold last_titled. intros Hnd Hin.
  assert (Hnd' : NoDup (map JobPosting.title (rev jobs))).
  { rewrite map_rev. apply NoDup_rev. exact Hnd. }
  apply in_rev in Hin. revert Hnd' Hin. generalize (rev jobs). clear jobs Hnd.
  induction l as [|r rows IH]; intros Hnd Hin; [destruct Hin|].
  cbn [map] in Hnd. inversion Hnd as [|? ? Hnot Hrest]; subst.
  cbn [find]. destruct Hin as [->|Hin].
  - rewrite String.eqb_refl. reflexivity.
  - destruct (String.eqb_spec (JobPosting.title r) (JobPosting.title j)) as [E|E].
    + exfalso. apply Hnot. rewrite E. apply in_map. exact Hin.
    + apply IH; assumption.
Qed.

(** X29.  When the titles of an employer's postings are all different, the
    most popular posting reported by the analytics page has the highest
    number of applications among all postings of the employer. *)
Theorem most_popular_job_with_distinct_titles :
  forall (db : Database) (employer : Z) (j' : JobPosting.t),
    NoDup (map JobPosting.title (postings_of db employer)) ->
    In j' (postings_of db employer) ->
    exists j : JobPosting.t,
      In j (postings_of db employer) /\
      most_popular_job db employer
      = (JobPosting.title j, application_count db (JobPosting.id j)) /\
      (application_count db (JobPosting.id j')
       <= application_count db (JobPosting.id j))%nat.
Proof.
  intros db employer j' Hnd Hin.
  pose proof (most_popular_job_cases db employer) as H.
  destruct (postings_of db employer) as [|j0 jobs] eqn:Hjobs; [destruct Hin|].
  destruct H as (j & Hj & _ & Hres & Hmax).
  exists j. split; [exact Hj|]. split; [exact Hres|].
  apply (Hmax (JobPosting.title j')).
  apply last_titled_unique; assumption.
Qed.

Lemma most_popular_job_with_distinct_titles_witness :
  exists j : JobPosting.t,
    In j (postings_of popular_db 1) /\
    most_popular_job popular_db 1
    = (JobPosting.title j, application_count popular_db (JobPosting.id j)) /\
    (application_count popular_db 2
     <= application_count popular_db (JobPosting.id j))%nat.
Proof.
  apply (@most_popular_job_with_distinct_titles popular_db 1
           (JobPosting.mk 2 1 "Clerk" "Desk work" "Office" "full_time" None
              None "12 Marina Road" "Lagos" "101001" (65244 # 10000)
              (33792 # 10000) "paused")).
  - change (map JobPosting.title (postings_of popular_db 1))
      with ["Cashier"; "Clerk"].
    constructor; [|constructor; [|constructor]]; cbn [In]; intros H.
    + destruct H as [H|H]; [discriminate H|exact H].
    + exact H.
  - vm_compute. right. left. reflexivity.
Defined.
